(** * Scheduled-booking lifecycle engine (RighttouchServerNew)

    A shallow embedding of [Utils/sendReminder.js] (the reminder composer and
    the customer rebroadcast notification) and of the five cron jobs of the
    scheduled-booking scheduler (activation, the three reminder jobs and the
    no-show safety job), together with the properties of the specification
    that concern them.

    Modelling conventions.
    - Time is a [Z]: milliseconds since the epoch, as [Date.getTime()].
    - The [ServiceBooking] collection is a finite map from [_id] to the
      document's fields.  Its schema file is not part of the sources, so the
      record below lists the fields the jobs read or write.
    - Every interaction with the outside (mongoose calls, the notification
      gateway, the matching service, the console) is appended to a trace.
      Whether an outside call throws, and what a lookup returns, is decided by
      an environment that sees the whole history of the run.
    - An [async] function is a computation in the monad [M]: it threads the
      store and the trace and either returns a value or throws (rejects with)
      a value.  A thrown value is anything JavaScript can throw: a value whose
      [message] can be read (an [Error], whose message is a string; a string
      or a number, whose message is [undefined]), or [null]/[undefined],
      where reading [message] is itself a TypeError.
      [try { .. } catch (err) { .. }] is [try_catch], and every handler of
      the sources reads [err.message] ([messageOf]).
    - A store call that throws has written nothing.  Console output and
      socket emits ([io.to(room).emit]) are recorded and do not throw.
    - [EReminder] and [ENotifyCustomer] mark the entry of the two functions
      of sendReminder.js, so that their invocations can be counted. *)

From Stdlib Require Import ZArith QArith_base Lia.
From stdpp Require Import gmap strings list fin_maps.

Close Scope Q_scope.
Open Scope string_scope.
Open Scope list_scope.
Open Scope Z_scope.

(** ** Data model *)

(** A MongoDB ObjectId: a 12-byte value.  Its [toString()] is a 24-digit
    hexadecimal string, hence never empty: an ObjectId is always truthy. *)
Abbreviation ObjectId := N.

Inductive ReminderKind := H24 | H1 | Min15.

(** The key of a reminder kind: the [type] handed to the composer and the
    last component of the path ["remindersSent.<key>"]. *)
Definition kindKey (k : ReminderKind) : string :=
  match k with H24 => "h24" | H1 => "h1" | Min15 => "min15" end.

Record RemindersSent := mkRemindersSent { h24 : bool; h1 : bool; min15 : bool }.

Definition flag (k : ReminderKind) (r : RemindersSent) : bool :=
  match k with H24 => h24 r | H1 => h1 r | Min15 => min15 r end.

Record AddressSnapshot := mkAddressSnapshot { latitude : option Q; longitude : option Q }.

(** GeoJSON point: [coordinates = [lng, lat]]. *)
Record Location := mkLocation { coordinates : list Q }.

Record Booking := mkBooking {
  status : string;
  scheduledAt : option Z;
  technicianId : option ObjectId;
  customerId : option ObjectId;
  remindersSent : RemindersSent;
  noShowAt : option Z;
  assignedAt : option Z;
  addressSnapshot : option AddressSnapshot;
  location : option Location;
}.

(** A document as a query returns it: its [_id] and its fields. *)
Abbreviation Doc := (ObjectId * Booking)%type.

Abbreviation Store := (gmap ObjectId Booking).

(** ** Queries and updates of the booking store *)

(** A filter document.  Each field is one of the conditions the jobs use;
    [None] or [false] means the condition is absent from the filter. *)
Record Query := mkQuery {
  q_id : option ObjectId;                 (* _id: id *)
  q_status : option string;               (* status: s *)
  q_scheduledAt_gte : option Z;           (* scheduledAt: { $gte: t } *)
  q_scheduledAt_lte : option Z;           (* scheduledAt: { $lte: t } *)
  q_reminder_false : option ReminderKind; (* "remindersSent.k": false *)
  q_noShowAt_null : bool;                 (* noShowAt: null *)
  q_technicianId_ne_null : bool;          (* technicianId: { $ne: null } *)
}.

(** A [$set] document: [None] leaves the field alone. *)
Record Update := mkUpdate {
  set_status : option string;
  set_technicianId : option (option ObjectId);
  set_noShowAt : option (option Z);
  set_assignedAt : option (option Z);
  set_h24 : option bool;
  set_h1 : option bool;
  set_min15 : option bool;
}.

Definition holds {A} (c : option A) (p : A -> bool) : bool :=
  match c with None => true | Some a => p a end.

Definition isNull {A} (o : option A) : bool :=
  match o with None => true | Some _ => false end.

(** A date comparison matches only a document whose field is a date. *)
Definition dateIs (p : Z -> bool) (d : option Z) : bool :=
  match d with Some t => p t | None => false end.

Definition matches (q : Query) (d : Doc) : bool :=
  holds (q_id q) (fun i => N.eqb d.1 i)
  && holds (q_status q) (fun s => String.eqb (status d.2) s)
  && holds (q_scheduledAt_gte q) (fun lo => dateIs (fun t => lo <=? t) (scheduledAt d.2))
  && holds (q_scheduledAt_lte q) (fun hi => dateIs (fun t => t <=? hi) (scheduledAt d.2))
  && holds (q_reminder_false q) (fun k => negb (flag k (remindersSent d.2)))
  && (negb (q_noShowAt_null q) || isNull (noShowAt d.2))
  && (negb (q_technicianId_ne_null q) || negb (isNull (technicianId d.2))).

Definition orKeep {A} (v : option A) (old : A) : A :=
  match v with Some a => a | None => old end.

Definition applyUpdate (u : Update) (b : Booking) : Booking :=
  {| status := orKeep (set_status u) (status b);
     scheduledAt := scheduledAt b;
     technicianId := orKeep (set_technicianId u) (technicianId b);
     customerId := customerId b;
     remindersSent :=
       {| h24 := orKeep (set_h24 u) (h24 (remindersSent b));
          h1 := orKeep (set_h1 u) (h1 (remindersSent b));
          min15 := orKeep (set_min15 u) (min15 (remindersSent b)) |};
     noShowAt := orKeep (set_noShowAt u) (noShowAt b);
     assignedAt := orKeep (set_assignedAt u) (assignedAt b);
     addressSnapshot := addressSnapshot b;
     location := location b |}.

(** [Model.find(filter)]: all matching documents. *)
Definition find (q : Query) (s : Store) : list Doc :=
  List.filter (matches q) (map_to_list s).

(** [Model.findOneAndUpdate(filter, update, { new: true })]: the first
    matching document is updated and returned as updated; [null] when no
    document matches. *)
Definition findOneAndUpdate (q : Query) (u : Update) (s : Store) : Store * option Doc :=
  match find q s with
  | [] => (s, None)
  | d :: _ => (<[d.1 := applyUpdate u d.2]> s, Some (d.1, applyUpdate u d.2))
  end.

(** [Model.updateOne(filter, update)]: same write, the result only counts. *)
Record UpdateResult := mkUpdateResult { matchedCount : nat }.

Definition updateOne (q : Query) (u : Update) (s : Store) : Store * UpdateResult :=
  match findOneAndUpdate q u s with
  | (s', Some _) => (s', mkUpdateResult 1)
  | (s', None) => (s', mkUpdateResult 0)
  end.

(** ** Outside world: events, environment, and the monad of async code *)

Inductive StoreOp :=
| Find (q : Query)
| UpdateOne (q : Query) (u : Update)
| FindOneAndUpdate (q : Query) (u : Update).

Inductive Room := technician_room (id : ObjectId) | customer_room (id : ObjectId).

Inductive Level := Log | Warn | Error.

(** A JavaScript value that is a string or [undefined]. *)
Abbreviation JsString := (option string).

Inductive Event :=
| EStore (op : StoreOp)
    (* a mongoose call on ServiceBooking *)
| ETechnicianProfile_findById (id : ObjectId)
| EUser_findById (id : ObjectId)
| EPush (technician : ObjectId) (title body : JsString) (dataType : string) (bookingId : ObjectId)
    (* sendPushNotification(id, { title, body, data: { type, bookingId } }) *)
| ESocketNotification (technician : ObjectId) (event type : string) (bookingId : ObjectId)
    (scheduledAt : option Z) (message : JsString)
    (* sendSocketNotification(io, id, event, { type, bookingId, scheduledAt, message }) *)
| ESms (phone text : string)
    (* sendSms(phone, text) *)
| ERebroadcastEmit (room : Room) (bookingId : ObjectId) (message : string)
    (* io.to(room).emit("booking:rebroadcast", { bookingId, message, timestamp }) *)
| ENavigateEmit (room : Room) (bookingId : ObjectId) (lat lng : Q) (message : string)
    (* io.to(room).emit("booking:navigate", { bookingId, latitude, longitude, message }) *)
| EMatch (bookingId : ObjectId)
    (* matchAndBroadcastBooking(bookingId, io) *)
| ENotifyCustomer (bookingId : ObjectId)
    (* entry of notifyCustomerOfRebroadcast(booking, io) *)
| EReminder (bookingId : ObjectId) (type : string)
    (* entry of sendScheduledReminder(booking, type, io) *)
| EConsole (lvl : Level) (tag : string) (bookingId : option ObjectId).

Abbreviation Trace := (list Event).

(** The populated [userId] of a technician profile, and a customer. *)
Record User := mkUser { fname : JsString; mobileNumber : JsString }.
Record TechnicianProfile := mkTechnicianProfile { userId : option User }.

(** What matchAndBroadcastBooking resolves to: [count] may be missing. *)
Record MatchResult := mkMatchResult { count : option nat }.

(** What a call can throw or a promise can reject with.  The sources do
    one thing with a caught value: they read its [message], to log it and, in
    the composer, to return it. *)
Inductive Thrown :=
| Thrown_value (message : JsString)
    (* a value whose [message] property reads as [message]: an Error, or
       any other value that is not [null] or [undefined] *)
| Thrown_nullish.
    (* [null] or [undefined]: reading [message] throws a TypeError *)

(** [new Error(msg)], and the TypeErrors the runtime itself throws. *)
Definition new_Error (msg : string) : Thrown := Thrown_value (Some msg).

(** The environment: everything the sources import but do not define.  Each
    answer may depend on the history of the run. *)
Record Env := mkEnv {
  (* Some v: the call described by the event throws (rejects with) v *)
  throws : Trace -> Event -> option Thrown;
  (* what TechnicianProfile.findById(..).select(..).populate(..) resolves to *)
  technicianProfile : Trace -> ObjectId -> option TechnicianProfile;
  (* what User.findById(..).select(..) resolves to *)
  user : Trace -> ObjectId -> option User;
  (* what matchAndBroadcastBooking resolves to (None: undefined) *)
  matchResult : Trace -> ObjectId -> option MatchResult;
  (* Date.prototype.toLocaleString("en-IN", { .. }) *)
  toLocaleString : Z -> string;
}.

Record World := mkWorld { store : Store; trace : Trace }.

Inductive Exn (A : Type) :=
| Returns (a : A)
| Throws (err : Thrown).
Arguments Returns {A} a.
Arguments Throws {A} err.

Definition M (A : Type) : Type := World -> Exn A * World.

Definition ret {A} (a : A) : M A := fun w => (Returns a, w).

Definition bind {A B} (m : M A) (k : A -> M B) : M B :=
  fun w => match m w with
           | (Returns a, w') => k a w'
           | (Throws e, w') => (Throws e, w')
           end.

Definition throw {A} (e : Thrown) : M A := fun w => (Throws e, w).

(** [try { m } catch (err) { h err }] *)
Definition try_catch {A} (m : M A) (h : Thrown -> M A) : M A :=
  fun w => match m w with
           | (Returns a, w') => (Returns a, w')
           | (Throws e, w') => h e w'
           end.

(** What reading [err.message] throws when [err] is [null] or [undefined]. *)
Definition messageTypeError : Thrown :=
  new_Error "Cannot read properties of undefined (reading 'message')".

(** [err.message] *)
Definition messageOf (err : Thrown) : M JsString :=
  match err with
  | Thrown_value message => ret message
  | Thrown_nullish => throw messageTypeError
  end.

Declare Scope async_scope.
Delimit Scope async_scope with async.
Notation "x <- m ;; k" := (bind m (fun x => k))
  (at level 100, m at next level, k at level 200, right associativity) : async_scope.
Notation "m ;; k" := (bind m (fun _ => k))
  (at level 100, k at level 200, right associativity) : async_scope.
Open Scope async_scope.

(** [for (const x of l) { body x }] *)
Fixpoint for_of {A} (l : list A) (body : A -> M unit) : M unit :=
  match l with
  | [] => ret tt
  | x :: l' => bind (body x) (fun _ => for_of l' body)
  end.

(** Record an event that cannot fail (console output, socket emits, entry
    markers of the composer's own functions). *)
Definition emit (e : Event) : M unit :=
  fun w => (Returns tt, mkWorld (store w) (trace w ++ [e])).

Definition exec {A} (m : M A) (w : World) : World := (m w).2.
Definition result {A} (m : M A) (w : World) : Exn A := (m w).1.

(** ** The sources, function by function *)

Inductive SocketIO := socketServer.

Record Message := mkMessage { title : JsString; body : JsString }.

Record ReminderResult := mkReminderResult {
  success : bool;
  reason : JsString;
  error : JsString;
}.

(** [s || d] on strings: the empty string and [undefined] are falsy. *)
Definition nonEmpty (s : JsString) : JsString :=
  match s with
  | Some s' => if String.eqb s' "" then None else Some s'
  | None => None
  end.

(** [o?.f] *)
Definition field {A B} (o : option A) (f : A -> option B) : option B :=
  match o with Some a => f a | None => None end.

(** [a ?? b] *)
Definition nullish {A} (a b : option A) : option A :=
  match a with Some x => Some x | None => b end.

(** Truthiness of a number that may be [undefined]: zero is falsy. *)
Definition nonZero (n : option Q) : option Q :=
  match n with
  | Some q => if (Qnum q =? 0) then None else Some q
  | None => None
  end.

(** The names every object literal inherits from [Object.prototype]. *)
Definition Object_prototype : list string :=
  [ "constructor"; "__proto__"; "hasOwnProperty"; "isPrototypeOf";
    "propertyIsEnumerable"; "toLocaleString"; "toString"; "valueOf";
    "__defineGetter__"; "__defineSetter__"; "__lookupGetter__";
    "__lookupSetter__" ].

Definition inList (s : string) (l : list string) : bool :=
  existsb (String.eqb s) l.

(** [messages[type]] for the object literal [messages] of
    sendScheduledReminder.  An inherited property is a truthy value that has
    neither [title] nor [body]. *)
Definition messages (techName scheduledDate type : string) : option Message :=
  if String.eqb type "h24" then
    Some {| title := Some "⏰ Reminder: Job Tomorrow";
            body := Some ("Hi " +:+ techName +:+ ", you have a scheduled job tomorrow at "
                          +:+ scheduledDate +:+ ". Please be prepared!") |}
  else if String.eqb type "h1" then
    Some {| title := Some "🔔 Job in 1 Hour";
            body := Some ("Hi " +:+ techName +:+ ", your job starts in 1 hour at "
                          +:+ scheduledDate +:+ ". Head out soon!") |}
  else if String.eqb type "min15" then
    Some {| title := Some "🚀 Job Starts in 15 Minutes!";
            body := Some ("Hi " +:+ techName
                          +:+ ", your job starts in 15 minutes. Navigate to customer location now.") |}
  else if inList type Object_prototype then
    Some {| title := None; body := None |}
  else None.

Definition rebroadcastMessage : string :=
  "Your previous technician couldn't make it on time. We're finding you a new technician right away!".

(** Filters and updates of the five jobs. *)

Definition activationQuery (windowEnd : Z) : Query :=
  {| q_id := None; q_status := Some "scheduled";
     q_scheduledAt_gte := None; q_scheduledAt_lte := Some windowEnd;
     q_reminder_false := None; q_noShowAt_null := false;
     q_technicianId_ne_null := false |}.

Definition activationGuard (id : ObjectId) : Query :=
  {| q_id := Some id; q_status := Some "scheduled";
     q_scheduledAt_gte := None; q_scheduledAt_lte := None;
     q_reminder_false := None; q_noShowAt_null := false;
     q_technicianId_ne_null := false |}.

Definition activationUpdate : Update :=
  {| set_status := Some "requested"; set_technicianId := None;
     set_noShowAt := None; set_assignedAt := None;
     set_h24 := None; set_h1 := None; set_min15 := None |}.

Definition reminderQuery (k : ReminderKind) (windowMin windowMax : Z) : Query :=
  {| q_id := None; q_status := Some "accepted";
     q_scheduledAt_gte := Some windowMin; q_scheduledAt_lte := Some windowMax;
     q_reminder_false := Some k; q_noShowAt_null := false;
     q_technicianId_ne_null := false |}.

Definition byId (id : ObjectId) : Query :=
  {| q_id := Some id; q_status := None;
     q_scheduledAt_gte := None; q_scheduledAt_lte := None;
     q_reminder_false := None; q_noShowAt_null := false;
     q_technicianId_ne_null := false |}.

Definition reminderUpdate (k : ReminderKind) : Update :=
  {| set_status := None; set_technicianId := None;
     set_noShowAt := None; set_assignedAt := None;
     set_h24 := match k with H24 => Some true | _ => None end;
     set_h1 := match k with H1 => Some true | _ => None end;
     set_min15 := match k with Min15 => Some true | _ => None end |}.

Definition noShowQuery (cutoffTime : Z) : Query :=
  {| q_id := None; q_status := Some "accepted";
     q_scheduledAt_gte := None; q_scheduledAt_lte := Some cutoffTime;
     q_reminder_false := None; q_noShowAt_null := true;
     q_technicianId_ne_null := true |}.

Definition noShowGuard (id : ObjectId) : Query :=
  {| q_id := Some id; q_status := Some "accepted";
     q_scheduledAt_gte := None; q_scheduledAt_lte := None;
     q_reminder_false := None; q_noShowAt_null := true;
     q_technicianId_ne_null := false |}.

Definition noShowUpdate (now : Z) : Update :=
  {| set_status := Some "requested"; set_technicianId := Some None;
     set_noShowAt := Some (Some now); set_assignedAt := Some None;
     set_h24 := Some false; set_h1 := Some false; set_min15 := Some false |}.

Section Scheduler.

Variable env : Env.

(** An outside call: recorded in the trace, then it throws or resolves as
    the environment says. *)
Definition call {A} (e : Event) (answer : Trace -> A) : M A :=
  fun w =>
    let w' := mkWorld (store w) (trace w ++ [e]) in
    match throws env (trace w) e with
    | Some msg => (Throws msg, w')
    | None => (Returns (answer (trace w)), w')
    end.

(** A mongoose call on ServiceBooking; a call that throws wrote nothing. *)
Definition storeCall {A} (op : StoreOp) (run : Store -> Store * A) : M A :=
  fun w =>
    let t' := trace w ++ [EStore op] in
    match throws env (trace w) (EStore op) with
    | Some msg => (Throws msg, mkWorld (store w) t')
    | None => (Returns (run (store w)).2, mkWorld (run (store w)).1 t')
    end.

Definition ServiceBooking_find (q : Query) : M (list Doc) :=
  storeCall (Find q) (fun s => (s, find q s)).

Definition ServiceBooking_updateOne (q : Query) (u : Update) : M UpdateResult :=
  storeCall (UpdateOne q u) (updateOne q u).

Definition ServiceBooking_findOneAndUpdate (q : Query) (u : Update) : M (option Doc) :=
  storeCall (FindOneAndUpdate q u) (findOneAndUpdate q u).

Definition TechnicianProfile_findById (id : ObjectId) : M (option TechnicianProfile) :=
  call (ETechnicianProfile_findById id) (fun t => technicianProfile env t id).

Definition User_findById (id : ObjectId) : M (option User) :=
  call (EUser_findById id) (fun t => user env t id).

Definition sendPushNotification (technician : ObjectId) (msg : Message)
    (dataType : string) (bookingId : ObjectId) : M unit :=
  call (EPush technician (title msg) (body msg) dataType bookingId) (fun _ => tt).

Definition sendSocketNotification (technician : ObjectId) (event type : string)
    (bookingId : ObjectId) (at_ : option Z) (message : JsString) : M unit :=
  call (ESocketNotification technician event type bookingId at_ message) (fun _ => tt).

Definition sendSms (phone text : string) : M unit :=
  call (ESms phone text) (fun _ => tt).

Definition matchAndBroadcastBooking (bookingId : ObjectId) (io : option SocketIO)
    : M (option MatchResult) :=
  call (EMatch bookingId) (fun t => matchResult env t bookingId).

(** [result.count ?? 0]: reading [count] of [undefined] is a TypeError. *)
Definition countOf (result : option MatchResult) : M nat :=
  match result with
  | None => throw (new_Error "Cannot read properties of undefined (reading 'count')")
  | Some r => ret (default 0%nat (count r))
  end.

Definition console (lvl : Level) (tag : string) (bookingId : option ObjectId) : M unit :=
  emit (EConsole lvl tag bookingId).

(** *** sendReminder.js *)

Definition sendScheduledReminder (booking : Doc) (type : string) (io : option SocketIO)
    : M ReminderResult :=
  emit (EReminder booking.1 type) ;;
  try_catch
    (match technicianId booking.2 with
     | None => ret (mkReminderResult false (Some "No technician assigned") None)
     | Some technicianProfileId =>
       (* Resolve technician's user record for SMS *)
       techProfile <- TechnicianProfile_findById technicianProfileId ;;
       let techName := default "Technician" (nonEmpty (field (field techProfile userId) fname)) in
       let techPhone := nonEmpty (field (field techProfile userId) mobileNumber) in
       let scheduledDate :=
         match scheduledAt booking.2 with
         | Some t => toLocaleString env t
         | None => "your scheduled time"
         end in
       match messages techName scheduledDate type with
       | None => ret (mkReminderResult false (Some "Unknown reminder type") None)
       | Some msg =>
         (* 1. push notification *)
         sendPushNotification technicianProfileId msg ("reminder_" +:+ type) booking.1 ;;
         (* 2. socket notification *)
         match io with
         | Some _ =>
           sendSocketNotification technicianProfileId "booking:reminder" type
             booking.1 (scheduledAt booking.2) (body msg)
         | None => ret tt
         end ;;
         (* 3. SMS, only for the 1h and 15min reminders *)
         match techPhone, body msg with
         | Some phone, Some text =>
           if String.eqb type "h1" || String.eqb type "min15" then
             try_catch (sendSms phone text)
               (fun smsErr =>
                  messageOf smsErr ;;
                  console Warn "SMS failed for tech" None)
           else ret tt
         | _, _ => ret tt
         end ;;
         console Log "[REMINDER] Sent to technician" (Some booking.1) ;;
         ret (mkReminderResult true None None)
       end
     end)
    (fun err =>
       message <- messageOf err ;;
       console Error "sendScheduledReminder error" None ;;
       ret (mkReminderResult false None message)).

Definition notifyCustomerOfRebroadcast (booking : Doc) (io : option SocketIO) : M unit :=
  emit (ENotifyCustomer booking.1) ;;
  try_catch
    (match customerId booking.2 with
     | None => ret tt
     | Some customer_id =>
       (* socket notification to customer *)
       match io with
       | Some _ => emit (ERebroadcastEmit (customer_room customer_id) booking.1 rebroadcastMessage)
       | None => ret tt
       end ;;
       (* SMS to customer (best effort) *)
       try_catch
         (customer <- User_findById customer_id ;;
          match nonEmpty (field customer mobileNumber) with
          | Some phone => sendSms phone ("RightTouch: " +:+ rebroadcastMessage)
          | None => ret tt
          end)
         (fun smsErr =>
            messageOf smsErr ;;
            console Warn "Customer SMS failed" None) ;;
       console Log "Customer notified of re-broadcast" (Some booking.1)
     end)
    (fun err =>
       messageOf err ;;
       console Error "notifyCustomerOfRebroadcast error" None).

(** *** The cron jobs

    Each job is the callback handed to [cron.schedule]; [now] is the value of
    [new Date()] read when the tick starts. *)

(** Body of the loop of activateScheduledBookings. *)
Definition activateBooking (io : option SocketIO) (booking : Doc) : M unit :=
  try_catch
    ((* flip status -> requested, double-check status (race guard) *)
     ServiceBooking_updateOne (activationGuard booking.1) activationUpdate ;;
     (* broadcast to nearby technicians *)
     result <- matchAndBroadcastBooking booking.1 io ;;
     countOf result ;;
     console Log "[CRON:ACTIVATE] Booking activated" (Some booking.1))
    (fun err =>
       messageOf err ;;
       console Error "[CRON:ACTIVATE] Error for booking" (Some booking.1)).

Definition activateScheduledBookings (io : option SocketIO) (now : Z) : M unit :=
  try_catch
    (let windowEnd := now + 15 * 60 * 1000 in
     bookings <- ServiceBooking_find (activationQuery windowEnd) ;;
     if (length bookings =? 0)%nat then ret tt else
     console Log "[CRON:ACTIVATE] Found scheduled booking(s) to activate" None ;;
     for_of bookings (activateBooking io))
    (fun err =>
       messageOf err ;;
       console Error "[CRON:ACTIVATE] Fatal error" None).

(** Body of the loop of a reminder job; [extra] is what the job does between
    the composer and the flag update. *)
Definition remindBooking (k : ReminderKind) (tag : string)
    (extra : Doc -> M unit) (io : option SocketIO) (booking : Doc) : M unit :=
  try_catch
    (sendScheduledReminder booking (kindKey k) io ;;
     extra booking ;;
     ServiceBooking_updateOne (byId booking.1) (reminderUpdate k) ;;
     ret tt)
    (fun err =>
       messageOf err ;;
       console Error tag (Some booking.1)).

(** The shape the three reminder jobs share. *)
Definition sendReminders (k : ReminderKind) (tag : string) (lo hi : Z)
    (extra : Doc -> M unit) (io : option SocketIO) (now : Z) : M unit :=
  try_catch
    (let windowMin := now + lo in
     let windowMax := now + hi in
     bookings <- ServiceBooking_find (reminderQuery k windowMin windowMax) ;;
     if (length bookings =? 0)%nat then ret tt else
     console Log tag None ;;
     for_of bookings (remindBooking k tag extra io))
    (fun err =>
       messageOf err ;;
       console Error tag None).

Definition sendReminders24h (io : option SocketIO) (now : Z) : M unit :=
  sendReminders H24 "[CRON:24H]" (23 * 60 * 60 * 1000) (25 * 60 * 60 * 1000)
    (fun _ => ret tt) io now.

Definition sendReminders1h (io : option SocketIO) (now : Z) : M unit :=
  sendReminders H1 "[CRON:1H]" (55 * 60 * 1000) (65 * 60 * 1000)
    (fun _ => ret tt) io now.

(** The 15-minute job also emits the navigation coordinates. *)
Definition emitNavigation (io : option SocketIO) (booking : Doc) : M unit :=
  match io with
  | None => ret tt
  | Some _ =>
    let techId := technicianId booking.2 in
    let lat := nullish (field (addressSnapshot booking.2) latitude)
                       (field (location booking.2) (fun l => coordinates l !! 1%nat)) in
    let lng := nullish (field (addressSnapshot booking.2) longitude)
                       (field (location booking.2) (fun l => coordinates l !! 0%nat)) in
    match techId, nonZero lat, nonZero lng with
    | Some t, Some la, Some ln =>
      emit (ENavigateEmit (technician_room t) booking.1 la ln
              "Navigate to customer location now")
    | _, _, _ => ret tt
    end
  end.

Definition sendReminders15min (io : option SocketIO) (now : Z) : M unit :=
  sendReminders Min15 "[CRON:15MIN]" (10 * 60 * 1000) (20 * 60 * 1000)
    (emitNavigation io) io now.

(** Body of the loop of handleNoShowSafety. *)
Definition recoverNoShow (io : option SocketIO) (now : Z) (booking : Doc) : M unit :=
  try_catch
    ((* 1. unassign technician + mark no-show time (idempotency guard) *)
     updated <- ServiceBooking_findOneAndUpdate (noShowGuard booking.1) (noShowUpdate now) ;;
     match updated with
     | None => ret tt (* already handled: continue *)
     | Some _ =>
       console Log "[CRON:NOSHOW] Unassigned technician. Re-broadcasting" (Some booking.1) ;;
       (* 2. re-broadcast to find new technician *)
       result <- matchAndBroadcastBooking booking.1 io ;;
       countOf result ;;
       console Log "[CRON:NOSHOW] Booking re-broadcast" (Some booking.1) ;;
       (* 3. notify customer *)
       notifyCustomerOfRebroadcast booking io
     end)
    (fun err =>
       messageOf err ;;
       console Error "[CRON:NOSHOW] Error for booking" (Some booking.1)).

Definition handleNoShowSafety (io : option SocketIO) (now : Z) : M unit :=
  try_catch
    (let cutoffTime := now - 30 * 60 * 1000 in
     noShows <- ServiceBooking_find (noShowQuery cutoffTime) ;;
     if (length noShows =? 0)%nat then ret tt else
     console Log "[CRON:NOSHOW] Detected no-show booking(s)" None ;;
     for_of noShows (recoverNoShow io now))
    (fun err =>
       messageOf err ;;
       console Error "[CRON:NOSHOW] Fatal error" None).

(** The five jobs of initScheduledBookingCrons, and a run of ticks. *)
Inductive Job := Activate | Remind24h | Remind1h | Remind15min | NoShow.

Definition tick (io : option SocketIO) (j : Job) (now : Z) : M unit :=
  match j with
  | Activate => activateScheduledBookings io now
  | Remind24h => sendReminders24h io now
  | Remind1h => sendReminders1h io now
  | Remind15min => sendReminders15min io now
  | NoShow => handleNoShowSafety io now
  end.

End Scheduler.

(** ** Vocabulary for stating and proving the properties *)

(** [m] never throws. *)
Definition returns {A} (m : M A) : Prop := ∀ w, ∃ a, result m w = Returns a.

(** No outside call rejects with [null] or [undefined]: whatever is thrown
    is an [Error] or another value whose [message] can be read. *)
Definition errorsOnly (env : Env) : Prop :=
  ∀ t e, throws env t e ≠ Some Thrown_nullish.

(** [m] never throws [null] or [undefined]. *)
Definition neverNullish {A} (m : M A) : Prop :=
  ∀ w, result m w ≠ Throws Thrown_nullish.

(** The loop body [body] never throws for a booking other than [i]: no
    other booking of a batch makes the loop end early. *)
Definition othersReturn (i : ObjectId) (body : Doc → M unit) : Prop :=
  ∀ x, x.1 ≠ i → returns (body x).

(** The trace only grows, by events that satisfy [E]. *)
Definition extends (E : Event → Prop) (t t' : Trace) : Prop :=
  ∃ d, t' = t ++ d ∧ Forall E d.

(** A frame: the events a computation may add to the trace, and a relation
    (reflexive and transitive, where it is used) its writes keep the store
    in. *)
Definition evolves (E : Event → Prop) (R : relation Store) (w w' : World) : Prop :=
  R (store w) (store w') ∧ extends E (trace w) (trace w').

Definition preserves (E : Event → Prop) (R : relation Store) {A} (m : M A) : Prop :=
  ∀ w, evolves E R w (exec m w).

(** Counting the invocations that concern one booking. *)

Definition isMatch (i : ObjectId) (e : Event) : bool :=
  match e with EMatch j => N.eqb j i | _ => false end.

Definition isNotify (i : ObjectId) (e : Event) : bool :=
  match e with ENotifyCustomer j => N.eqb j i | _ => false end.

Definition isReminder (i : ObjectId) (e : Event) : bool :=
  match e with EReminder j _ => N.eqb j i | _ => false end.

Definition calls (p : Event → bool) (t : Trace) : nat := length (List.filter p t).

(** Events of the gateway and the console: no store call and no invocation
    of the matching service or of the composer's two functions. *)
Definition gatewayEvent (e : Event) : Prop :=
  match e with
  | EStore _ | EMatch _ | ENotifyCustomer _ | EReminder _ _ => False
  | _ => True
  end.

(** Events that invoke nothing for booking [i]. *)
Definition notAbout (i : ObjectId) (e : Event) : Prop :=
  match e with
  | EMatch j | ENotifyCustomer j | EReminder j _ => j ≠ i
  | _ => True
  end.

Definition anyEvent (e : Event) : Prop := True.

(** The store relation of a frame around booking [i]: its document is not
    touched. *)
Definition sameAt (i : ObjectId) : relation Store := fun s s' => s' !! i = s !! i.

(** The skeleton the five jobs share. *)
Definition poll (env : Env) (q : Query) (found fatal : Event) (body : Doc → M unit) : M unit :=
  try_catch
    (bookings <- ServiceBooking_find env q ;;
     if (length bookings =? 0)%nat then ret tt else
     emit found ;;
     for_of bookings body)
    (fun err =>
       messageOf err ;;
       emit fatal).

Definition record (e : Event) (w : World) : World :=
  mkWorld (store w) (trace w ++ [e]).

(** Events that invoke neither the matching service nor the composer. *)
Definition quietEvent (e : Event) : Prop :=
  match e with
  | EMatch _ | ENotifyCustomer _ | EReminder _ _ => False
  | _ => True
  end.

(** ** The three reminder jobs, by kind *)

(** The window of each reminder job, relative to [now] (in milliseconds). *)
Definition window (k : ReminderKind) : Z * Z :=
  match k with
  | H24 => (23 * 60 * 60 * 1000, 25 * 60 * 60 * 1000)
  | H1 => (55 * 60 * 1000, 65 * 60 * 1000)
  | Min15 => (10 * 60 * 1000, 20 * 60 * 1000)
  end.

Definition reminderJob (env : Env) (io : option SocketIO) (k : ReminderKind) : Z → M unit :=
  match k with
  | H24 => sendReminders24h env io
  | H1 => sendReminders1h env io
  | Min15 => sendReminders15min env io
  end.

Definition reminderTag (k : ReminderKind) : string :=
  match k with H24 => "[CRON:24H]" | H1 => "[CRON:1H]" | Min15 => "[CRON:15MIN]" end.

Definition reminderExtra (io : option SocketIO) (k : ReminderKind) : Doc → M unit :=
  match k with Min15 => emitNavigation io | _ => fun _ => ret tt end.

(** The loop body of the reminder job of kind [k]. *)
Definition reminderBody (env : Env) (io : option SocketIO) (k : ReminderKind) : Doc → M unit :=
  remindBooking env k (reminderTag k) (reminderExtra io k) io.

(** What runs between the composer and the flag update writes nothing and
    only talks to the gateway. *)
Definition quietExtra (extra : Doc → M unit) : Prop :=
  ∀ x w, ∃ d, extra x w = (Returns tt, mkWorld (store w) (trace w ++ d))
              ∧ Forall gatewayEvent d.

(** ** Runs of the scheduler *)

(** A run of the scheduler.  Between two ticks the flows outside the
    scheduler (booking creation, acceptance, execution) may write to the
    store: an [Outside] step is any function on the store.  A tick that
    rejects leaves the store and the trace as they were when it threw; the
    run goes on from there with the next step (a run that ends there is the
    run of a shorter list of steps). *)
Inductive Step :=
| Tick (j : Job) (now : Z)
| Outside (f : Store → Store).

Definition step (env : Env) (io : option SocketIO) (st : Step) (w : World) : World :=
  match st with
  | Tick j now => exec (tick env io j now) w
  | Outside f => mkWorld (f (store w)) (trace w)
  end.

Definition runSteps (env : Env) (io : option SocketIO) (steps : list Step) (w : World)
    : World :=
  fold_left (fun w' st => step env io st w') steps w.

(** The world after the first [n] steps of a run. *)
Definition worldAfter (env : Env) (io : option SocketIO) (steps : list Step) (w : World)
    (n : nat) : World :=
  runSteps env io (take n steps) w.

(** The outside flows delete no booking and write no reminder flag. *)
Definition keepsFlags (st : Step) : Prop :=
  match st with
  | Tick _ _ => True
  | Outside f =>
    ∀ (s : Store) i b, s !! i = Some b →
      ∃ b', f s !! i = Some b' ∧ remindersSent b' = remindersSent b
  end.

Definition jobOf (k : ReminderKind) : Job :=
  match k with H24 => Remind24h | H1 => Remind1h | Min15 => Remind15min end.

(** The stored flag of kind [k] of booking [i], if the booking exists. *)
Definition flagOf (k : ReminderKind) (i : ObjectId) (w : World) : option bool :=
  match store w !! i with
  | Some b => Some (flag k (remindersSent b))
  | None => None
  end.

(** The document of booking [i] stays, and changes along [P]. *)
Definition docRel (i : ObjectId) (P : relation Booking) : relation Store :=
  fun s s' =>
    match s !! i with
    | Some b => ∃ b', s' !! i = Some b' ∧ P b b'
    | None => s' !! i = None
    end.

(** A flag that is set stays set. *)
Definition flagKept (k : ReminderKind) : relation Booking :=
  fun b b' => flag k (remindersSent b) = true → flag k (remindersSent b') = true.

(** The document of booking [i] is as it was, or was recovered at [now]. *)
Definition noShowRel (now : Z) (i : ObjectId) : relation Store :=
  fun s s' =>
    s' !! i = s !! i
    ∨ ∃ b, s !! i = Some b ∧ matches (noShowGuard i) (i, b) = true
           ∧ s' !! i = Some (applyUpdate (noShowUpdate now) b).

(** ** Concrete worlds for the examples *)

(** An environment in which nothing fails. *)
Definition calmEnv : Env :=
  {| throws := fun _ _ => None;
     technicianProfile := fun _ _ =>
       Some (mkTechnicianProfile (Some (mkUser (Some "Asha") (Some "9876543210"))));
     user := fun _ _ => Some (mkUser (Some "Ravi") (Some "9000000001"));
     matchResult := fun _ _ => Some (mkMatchResult (Some 3%nat));
     toLocaleString := fun _ => "01 Jan 2026, 10:00 am" |}.

(** The technician lookup fails (the database is unreachable). *)
Definition lookupDownEnv : Env :=
  {| throws := fun _ e =>
       match e with
       | ETechnicianProfile_findById _ => Some (new_Error "connection lost")
       | _ => None
       end;
     technicianProfile := technicianProfile calmEnv;
     user := user calmEnv;
     matchResult := matchResult calmEnv;
     toLocaleString := toLocaleString calmEnv |}.

(** The push transport fails. *)
Definition pushDownEnv : Env :=
  {| throws := fun _ e =>
       match e with
       | EPush _ _ _ _ _ => Some (new_Error "push failed")
       | _ => None
       end;
     technicianProfile := technicianProfile calmEnv;
     user := user calmEnv;
     matchResult := matchResult calmEnv;
     toLocaleString := toLocaleString calmEnv |}.

Definition minutes (n : Z) : Z := n * 60 * 1000.
Definition hours (n : Z) : Z := n * 60 * 60 * 1000.

(** Accepted by technician 7, due at time 0, all reminders sent. *)
Definition lateBooking : Booking :=
  {| status := "accepted"; scheduledAt := Some 0; technicianId := Some 7%N;
     customerId := Some 9%N;
     remindersSent := {| h24 := true; h1 := true; min15 := true |};
     noShowAt := None; assignedAt := Some (-100);
     addressSnapshot := None; location := None |}.

(** Scheduled, due ten minutes after time 0. *)
Definition dueBooking : Booking :=
  {| status := "scheduled"; scheduledAt := Some (minutes 10); technicianId := None;
     customerId := Some 9%N;
     remindersSent := {| h24 := false; h1 := false; min15 := false |};
     noShowAt := None; assignedAt := None;
     addressSnapshot := None; location := None |}.

(** Accepted by technician 7, due [t] after time 0, no reminder sent yet. *)
Definition acceptedAt (t : Z) : Booking :=
  {| status := "accepted"; scheduledAt := Some t; technicianId := Some 7%N;
     customerId := Some 9%N;
     remindersSent := {| h24 := false; h1 := false; min15 := false |};
     noShowAt := None; assignedAt := Some (-100);
     addressSnapshot := Some (mkAddressSnapshot (Some (1297 # 100)%Q) (Some (7759 # 100)%Q));
     location := None |}.

Definition sampleStore : Store := <[1%N := lateBooking]> (<[2%N := dueBooking]> ∅).

Definition sampleWorld : World := mkWorld sampleStore [].

(** Two accepted bookings at the edges of the 24-hour window of time 0: one
    due in exactly 23 hours, one due in 25 hours and one second; and one
    accepted booking that lost its technician, due in 24 hours. *)
Definition edgeStore : Store :=
  <[3%N := acceptedAt (hours 23)]>
    (<[4%N := acceptedAt (hours 25 + 1000)]>
       (<[5%N := mkBooking "accepted" (Some (hours 24)) None (Some 9%N)
                   (mkRemindersSent false false false) None None None None]> sampleStore)).

Definition edgeWorld : World := mkWorld edgeStore [].

(** The acceptance flow, outside the scheduler: technician 8 takes booking
    [i], now due three days after time 0. *)
Definition reaccept (i : ObjectId) : Store → Store :=
  alter (fun b => mkBooking "accepted" (Some (hours 72)) (Some 8%N) (customerId b)
                    (remindersSent b) None (Some (hours 25))
                    (addressSnapshot b) (location b)) i.

(** Reminder, no-show, a second acceptance, reminder again. *)
Definition sampleRun : list Step :=
  [ Tick Remind24h 0; Tick NoShow (hours 24 + minutes 31);
    Outside (reaccept 3%N); Tick Remind24h (hours 48) ].

(** ** The five jobs, by name *)

(** The window query of each job at clock reading [now]. *)
Definition jobQuery (j : Job) (now : Z) : Query :=
  match j with
  | Activate => activationQuery (now + 15 * 60 * 1000)
  | Remind24h => reminderQuery H24 (now + 23 * 60 * 60 * 1000) (now + 25 * 60 * 60 * 1000)
  | Remind1h => reminderQuery H1 (now + 55 * 60 * 1000) (now + 65 * 60 * 1000)
  | Remind15min => reminderQuery Min15 (now + 10 * 60 * 1000) (now + 20 * 60 * 1000)
  | NoShow => noShowQuery (now - 30 * 60 * 1000)
  end.

(** What each job logs when it found bookings, and when the tick failed. *)
Definition jobFound (j : Job) : Event :=
  match j with
  | Activate => EConsole Log "[CRON:ACTIVATE] Found scheduled booking(s) to activate" None
  | Remind24h => EConsole Log "[CRON:24H]" None
  | Remind1h => EConsole Log "[CRON:1H]" None
  | Remind15min => EConsole Log "[CRON:15MIN]" None
  | NoShow => EConsole Log "[CRON:NOSHOW] Detected no-show booking(s)" None
  end.

Definition jobFatal (j : Job) : Event :=
  match j with
  | Activate => EConsole Error "[CRON:ACTIVATE] Fatal error" None
  | Remind24h => EConsole Error "[CRON:24H]" None
  | Remind1h => EConsole Error "[CRON:1H]" None
  | Remind15min => EConsole Error "[CRON:15MIN]" None
  | NoShow => EConsole Error "[CRON:NOSHOW] Fatal error" None
  end.

(** The loop body of each job. *)
Definition jobBody (env : Env) (io : option SocketIO) (j : Job) (now : Z) : Doc → M unit :=
  match j with
  | Activate => activateBooking env io
  | Remind24h => reminderBody env io H24
  | Remind1h => reminderBody env io H1
  | Remind15min => reminderBody env io Min15
  | NoShow => recoverNoShow env io now
  end.

(** The calls selected by [p] reject with [undefined]; everything else
    works as in [calmEnv]. *)
Definition rejectingEnv (p : Event → bool) : Env :=
  {| throws := fun _ e => if p e then Some Thrown_nullish else None;
     technicianProfile := technicianProfile calmEnv;
     user := user calmEnv;
     matchResult := matchResult calmEnv;
     toLocaleString := toLocaleString calmEnv |}.

(** The conditional write of each job on the document with id [i]. *)
Definition jobGuard (j : Job) (i : ObjectId) : Query :=
  match j with
  | Activate => activationGuard i
  | NoShow => noShowGuard i
  | _ => byId i
  end.

Definition jobUpdate (j : Job) (now : Z) : Update :=
  match j with
  | Activate => activationUpdate
  | Remind24h => reminderUpdate H24
  | Remind1h => reminderUpdate H1
  | Remind15min => reminderUpdate Min15
  | NoShow => noShowUpdate now
  end.

(** Invocations, for whatever booking. *)
Definition isMatchAny (e : Event) : bool :=
  match e with EMatch _ => true | _ => false end.

Definition isNotifyAny (e : Event) : bool :=
  match e with ENotifyCustomer _ => true | _ => false end.

Definition isReminderAny (e : Event) : bool :=
  match e with EReminder _ _ => true | _ => false end.

(** Calls on the booking store. *)
Definition isStoreCall (e : Event) : bool :=
  match e with EStore _ => true | _ => false end.

(** Writes to the booking store. *)
Definition isStoreWrite (e : Event) : bool :=
  match e with
  | EStore (UpdateOne _ _) | EStore (FindOneAndUpdate _ _) => true
  | _ => false
  end.

(** Gateway traffic, by channel. *)
Definition isSms (e : Event) : bool :=
  match e with ESms _ _ => true | _ => false end.

Definition isSocketNotification (e : Event) : bool :=
  match e with ESocketNotification _ _ _ _ _ _ => true | _ => false end.

(** A push to technician [tech] about booking [i]. *)
Definition isPushTo (tech i : ObjectId) (e : Event) : bool :=
  match e with EPush t _ _ _ b => N.eqb t tech && N.eqb b i | _ => false end.

Definition isPush (e : Event) : bool :=
  match e with EPush _ _ _ _ _ => true | _ => false end.

(** The document of booking [i] is as it was, or it matched the filter [q]
    and was written with [u]. *)
Definition writeRel (q : Query) (u : Update) (i : ObjectId) : relation Store :=
  fun s s' =>
    s' !! i = s !! i
    ∨ ∃ b, s !! i = Some b ∧ matches q (i, b) = true ∧ s' !! i = Some (applyUpdate u b).

(** The fields no job writes. *)
Definition sameFixedFields : relation Booking :=
  fun b b' =>
    scheduledAt b' = scheduledAt b ∧ customerId b' = customerId b
    ∧ addressSnapshot b' = addressSnapshot b ∧ location b' = location b.

(** The booking store is unreachable: every query fails. *)
Definition storeDownEnv : Env :=
  {| throws := fun _ e =>
       match e with
       | EStore (Find _) => Some (new_Error "connection lost")
       | _ => None
       end;
     technicianProfile := technicianProfile calmEnv;
     user := user calmEnv;
     matchResult := matchResult calmEnv;
     toLocaleString := toLocaleString calmEnv |}.

(** Queries work, writes to the booking store fail. *)
Definition writeDownEnv : Env :=
  {| throws := fun _ e =>
       match e with
       | EStore (UpdateOne _ _) | EStore (FindOneAndUpdate _ _) => Some (new_Error "write failed")
       | _ => None
       end;
     technicianProfile := technicianProfile calmEnv;
     user := user calmEnv;
     matchResult := matchResult calmEnv;
     toLocaleString := toLocaleString calmEnv |}.

(** The matching service fails. *)
Definition matchDownEnv : Env :=
  {| throws := fun _ e =>
       match e with
       | EMatch _ => Some (new_Error "matching failed")
       | _ => None
       end;
     technicianProfile := technicianProfile calmEnv;
     user := user calmEnv;
     matchResult := matchResult calmEnv;
     toLocaleString := toLocaleString calmEnv |}.

(** The SMS transport fails. *)
Definition smsDownEnv : Env :=
  {| throws := fun _ e =>
       match e with
       | ESms _ _ => Some (new_Error "sms failed")
       | _ => None
       end;
     technicianProfile := technicianProfile calmEnv;
     user := user calmEnv;
     matchResult := matchResult calmEnv;
     toLocaleString := toLocaleString calmEnv |}.

(** No constraint on the store. *)
Definition anyStore : relation Store := fun _ _ => True.

(** Events other than an invocation of the matching service, of the customer
    notification, of the composer. *)
Definition noMatchEvent (e : Event) : Prop :=
  match e with EMatch _ => False | _ => True end.

Definition noNotifyEvent (e : Event) : Prop :=
  match e with ENotifyCustomer _ => False | _ => True end.

Definition noReminderEvent (e : Event) : Prop :=
  match e with EReminder _ _ => False | _ => True end.

Definition isTick (st : Step) : Prop :=
  match st with Tick _ _ => True | Outside _ => False end.

(** The store call with which job [j] writes the document with id [i]. *)
Definition jobWriteOp (j : Job) (now : Z) (i : ObjectId) : StoreOp :=
  match j with
  | NoShow => FindOneAndUpdate (noShowGuard i) (noShowUpdate now)
  | _ => UpdateOne (jobGuard j i) (jobUpdate j now)
  end.

(** Writes fail, except those on booking 3. *)
Definition otherWritesDownEnv : Env :=
  {| throws := fun _ e =>
       match e with
       | EStore (UpdateOne q _) | EStore (FindOneAndUpdate q _) =>
         match q_id q with
         | Some 3%N => None
         | _ => Some (new_Error "write failed")
         end
       | _ => None
       end;
     technicianProfile := technicianProfile calmEnv;
     user := user calmEnv;
     matchResult := matchResult calmEnv;
     toLocaleString := toLocaleString calmEnv |}.

(** How often the loop body of a job enters the composer. *)
Definition composerEntries (j : Job) : nat :=
  match j with
  | Remind24h | Remind1h | Remind15min => 1
  | Activate | NoShow => 0
  end.

(** The period of each reminder job, from its cron expression
    ([*/15 * * * *], [*/5 * * * *], [* * * * *]), in milliseconds. *)
Definition tickPeriod (k : ReminderKind) : Z :=
  match k with
  | H24 => 15 * 60 * 1000
  | H1 => 5 * 60 * 1000
  | Min15 => 1 * 60 * 1000
  end.

(** Clock readings of successive ticks, after the reading [now]: none is
    more than [width] after the one before. *)
Fixpoint regular (width now : Z) (later : list Z) : Prop :=
  match later with
  | [] => True
  | next :: rest => now ≤ next ≤ now + width ∧ regular width next rest
  end.

(** A run of ticks of the reminder job of kind [k], one per clock reading. *)
Definition reminderTicks (k : ReminderKind) (nows : list Z) : list Step :=
  List.map (fun now => Tick (jobOf k) now) nows.


(** ** Facts about the store operations *)

Lemma find_spec (q : Query) (s : Store) (d : Doc) :
  d ∈ find q s ↔ s !! d.1 = Some d.2 ∧ matches q d = true.
Proof.
  unfold find. rewrite list_elem_of_In, filter_In, <- list_elem_of_In.
  destruct d as [i b]; simpl. by rewrite elem_of_map_to_list.
Qed.

Lemma find_NoDup (q : Query) (s : Store) : NoDup (find q s).*1.
Proof.
  unfold find. pose proof (NoDup_fst_map_to_list s) as H.
  induction (map_to_list s) as [|d l IH]; simpl in *; [done|].
  apply NoDup_cons in H as [Hd Hl].
  destruct (matches q d); simpl; [|by apply IH].
  apply NoDup_cons. split; [|by apply IH].
  intros Hin. apply Hd.
  apply list_elem_of_fmap in Hin as (d' & -> & Hd').
  apply list_elem_of_fmap. exists d'. split; [done|].
  apply list_elem_of_In. apply list_elem_of_In in Hd'.
  by apply filter_In in Hd' as [? _].
Qed.

Lemma matches_id (q : Query) (i : ObjectId) (d : Doc) :
  q_id q = Some i → matches q d = true → d.1 = i.
Proof.
  unfold matches. intros ->. simpl. rewrite !andb_true_iff.
  intros [[[[[[H _] _] _] _] _] _]. by apply N.eqb_eq in H.
Qed.

(** A filter on [_id] selects at most the document with that id. *)
Lemma find_by_id (q : Query) (i : ObjectId) (s : Store) :
  q_id q = Some i →
  find q s = match s !! i with
             | Some b => if matches q (i, b) then [(i, b)] else []
             | None => []
             end.
Proof.
  intros Hq.
  assert (Hall : ∀ d, d ∈ find q s → s !! i = Some d.2 ∧ d.1 = i ∧ matches q d = true).
  { intros d [Hd Hm]%find_spec. pose proof (matches_id _ _ _ Hq Hm) as <-. done. }
  pose proof (find_NoDup q s) as Hnd.
  destruct (find q s) as [|d l] eqn:Hf.
  - destruct (s !! i) as [b|] eqn:Hb; [|done].
    destruct (matches q (i, b)) eqn:Hm; [|done].
    assert ((i, b) ∈ find q s) as Hin by (apply find_spec; done).
    rewrite Hf in Hin. by apply elem_of_nil in Hin.
  - destruct (Hall d) as (Hd & Hi & Hm); [left|].
    destruct d as [j b]; simpl in *; subst j. rewrite Hd, Hm.
    destruct l as [|d' l]; [done|].
    destruct (Hall d') as (_ & Hi' & _); [right; left|].
    simpl in Hnd. apply NoDup_cons in Hnd as [Hnd _].
    exfalso. apply Hnd. rewrite Hi'. left.
Qed.

Lemma findOneAndUpdate_by_id (q : Query) (u : Update) (i : ObjectId) (s : Store) :
  q_id q = Some i →
  findOneAndUpdate q u s =
    match s !! i with
    | Some b => if matches q (i, b)
                then (<[i := applyUpdate u b]> s, Some (i, applyUpdate u b))
                else (s, None)
    | None => (s, None)
    end.
Proof.
  intros Hq. unfold findOneAndUpdate. rewrite (find_by_id q i s Hq).
  destruct (s !! i) as [b|]; [|done]. by destruct (matches q (i, b)).
Qed.

Lemma updateOne_by_id (q : Query) (u : Update) (i : ObjectId) (s : Store) :
  q_id q = Some i →
  updateOne q u s =
    match s !! i with
    | Some b => if matches q (i, b)
                then (<[i := applyUpdate u b]> s, mkUpdateResult 1)
                else (s, mkUpdateResult 0)
    | None => (s, mkUpdateResult 0)
    end.
Proof.
  intros Hq. unfold updateOne. rewrite (findOneAndUpdate_by_id q u i s Hq).
  destruct (s !! i) as [b|]; [|done]. by destruct (matches q (i, b)).
Qed.

(** A write filtered on [_id] leaves every other document alone. *)
Lemma findOneAndUpdate_other (q : Query) (u : Update) (i j : ObjectId) (s : Store) :
  q_id q = Some j → j ≠ i → (findOneAndUpdate q u s).1 !! i = s !! i.
Proof.
  intros Hq Hne. rewrite (findOneAndUpdate_by_id q u j s Hq).
  destruct (s !! j) as [b|]; [|done].
  destruct (matches q (j, b)); [|done]. simpl. by rewrite lookup_insert_ne.
Qed.

Lemma updateOne_store (q : Query) (u : Update) (s : Store) :
  (updateOne q u s).1 = (findOneAndUpdate q u s).1.
Proof. unfold updateOne. by destruct (findOneAndUpdate q u s) as [s' [d|]]. Qed.

(** ** Reasoning about executions *)

Lemma returns_ret {A} (a : A) : returns (ret a).
Proof. intros w. by exists a. Qed.

Lemma returns_emit (e : Event) : returns (emit e).
Proof. intros w. by exists tt. Qed.

Lemma returns_bind {A B} (m : M A) (k : A → M B) :
  returns m → (∀ a, returns (k a)) → returns (bind m k).
Proof.
  intros Hm Hk w. destruct (Hm w) as [a Ha].
  unfold result, bind in *. destruct (m w) as [[a'|e] w']; simpl in *; [|done].
  apply Hk.
Qed.

(** A handler that reads [err.message] returns when what it catches is not
    [null] or [undefined]. *)
Lemma returns_try_catch {A} (m : M A) (h : Thrown → M A) :
  neverNullish m → (∀ message, returns (h (Thrown_value message))) →
  returns (try_catch m h).
Proof.
  intros Hm Hh w. specialize (Hm w). unfold result, try_catch in *.
  destruct (m w) as [[a|[message|]] w']; simpl in *; [by exists a|apply Hh|done].
Qed.

Lemma returns_messageOf message : returns (messageOf (Thrown_value message)).
Proof. apply returns_ret. Qed.

(** The three ways through [try { m } catch (err) { k err.message }]. *)
Lemma try_catch_cases {A} (m : M A) (k : JsString → M A) (w : World) :
  try_catch m (fun err => bind (messageOf err) k) w
  = match m w with
    | (Returns a, w') => (Returns a, w')
    | (Throws (Thrown_value message), w') => k message w'
    | (Throws Thrown_nullish, w') => (Throws messageTypeError, w')
    end.
Proof. unfold try_catch, bind. by destruct (m w) as [[a|[message|]] w']. Qed.

(** When a [try]/[catch] whose handler returns on every message throws, it
    throws the TypeError of reading [err.message]. *)
Lemma try_catch_throws {A} (m : M A) (k : JsString → M A) (w : World) (e : Thrown) :
  (∀ message, returns (k message)) →
  result (try_catch m (fun err => bind (messageOf err) k)) w = Throws e →
  try_catch m (fun err => bind (messageOf err) k) w
  = (Throws messageTypeError, exec (try_catch m (fun err => bind (messageOf err) k)) w).
Proof.
  intros Hk. unfold result, exec. rewrite try_catch_cases.
  destruct (m w) as [[a|[message|]] w2]; simpl; [done| |done].
  destruct (Hk message w2) as [a Ha]. unfold result in Ha. by rewrite Ha.
Qed.

Lemma neverNullish_ret {A} (a : A) : neverNullish (ret a).
Proof. by intros w. Qed.

Lemma neverNullish_emit (e : Event) : neverNullish (emit e).
Proof. by intros w. Qed.

Lemma neverNullish_throw {A} (e : Thrown) : e ≠ Thrown_nullish → neverNullish (@throw A e).
Proof. intros He w. unfold result, throw. simpl. congruence. Qed.

Lemma neverNullish_messageOf (err : Thrown) : neverNullish (messageOf err).
Proof. by destruct err. Qed.

Lemma neverNullish_bind {A B} (m : M A) (k : A → M B) :
  neverNullish m → (∀ a, neverNullish (k a)) → neverNullish (bind m k).
Proof.
  intros Hm Hk w. specialize (Hm w). unfold result, bind in *.
  destruct (m w) as [[a|e] w']; simpl in *; [apply Hk|congruence].
Qed.

(** Whatever the body throws, a handler that starts by reading
    [err.message] throws no [null] or [undefined] of its own. *)
Lemma neverNullish_try_catch {A} (m : M A) (h : Thrown → M A) :
  (∀ e, neverNullish (h e)) → neverNullish (try_catch m h).
Proof.
  intros Hh w. unfold result, try_catch.
  destruct (m w) as [[a|e] w']; simpl; [done|apply Hh].
Qed.

Lemma neverNullish_for_of {A} (l : list A) (body : A → M unit) :
  (∀ x, neverNullish (body x)) → neverNullish (for_of l body).
Proof.
  intros Hb. induction l as [|x l IH]; simpl.
  - apply neverNullish_ret.
  - apply neverNullish_bind; [apply Hb | intros _; apply IH].
Qed.

Lemma neverNullish_call env {A} (e : Event) (answer : Trace → A) :
  errorsOnly env → neverNullish (call env e answer).
Proof.
  intros He w. unfold result, call. specialize (He (trace w) e).
  destruct (throws env (trace w) e); simpl; congruence.
Qed.

Lemma neverNullish_storeCall env {A} (op : StoreOp) (run : Store → Store * A) :
  errorsOnly env → neverNullish (storeCall env op run).
Proof.
  intros He w. unfold result, storeCall. specialize (He (trace w) (EStore op)).
  destruct (throws env (trace w) (EStore op)); simpl; congruence.
Qed.

Lemma returns_for_of_in {A} (l : list A) (body : A → M unit) :
  (∀ x, x ∈ l → returns (body x)) → returns (for_of l body).
Proof.
  induction l as [|x l IH]; intros Hb; simpl.
  - apply returns_ret.
  - apply returns_bind; [apply Hb; left | intros _; apply IH].
    intros y Hy. apply Hb. by right.
Qed.

(** A loop goes on with the rest of the list unless a body throws. *)
Lemma for_of_app {A} (l1 l2 : list A) (body : A → M unit) (w : World) :
  for_of (l1 ++ l2) body w
  = match for_of l1 body w with
    | (Returns _, w') => for_of l2 body w'
    | (Throws e, w') => (Throws e, w')
    end.
Proof.
  revert w. induction l1 as [|x l1 IH]; intros w; [done|].
  simpl. unfold bind. destruct (body x w) as [[[]|e] w']; [apply IH|done].
Qed.

Lemma extends_refl E t : extends E t t.
Proof. exists []. by rewrite app_nil_r. Qed.

Lemma extends_trans E t1 t2 t3 : extends E t1 t2 → extends E t2 t3 → extends E t1 t3.
Proof.
  intros (d1 & -> & H1) (d2 & -> & H2). exists (d1 ++ d2).
  split; [by rewrite app_assoc | by apply Forall_app].
Qed.

Lemma extends_snoc (E : Event → Prop) t e : E e → extends E t (t ++ [e]).
Proof. intros He. exists [e]. split; [done | by apply Forall_singleton]. Qed.

Section Frames.

Context (E : Event → Prop) (R : relation Store) `{!PreOrder R}.

Lemma evolves_refl w : evolves E R w w.
Proof. split; [reflexivity | apply extends_refl]. Qed.

Lemma evolves_trans w1 w2 w3 : evolves E R w1 w2 → evolves E R w2 w3 → evolves E R w1 w3.
Proof.
  intros [Hs1 Ht1] [Hs2 Ht2]. split; [by transitivity (store w2)|].
  by apply extends_trans with (trace w2).
Qed.

Lemma preserves_ret {A} (a : A) : preserves E R (ret a).
Proof. intros w. apply evolves_refl. Qed.

Lemma preserves_throw {A} (e : Thrown) : preserves E R (@throw A e).
Proof. intros w. apply evolves_refl. Qed.

Lemma preserves_messageOf (err : Thrown) : preserves E R (messageOf err).
Proof. intros w. destruct err; apply evolves_refl. Qed.

Lemma preserves_bind {A B} (m : M A) (k : A → M B) :
  preserves E R m → (∀ a, preserves E R (k a)) → preserves E R (bind m k).
Proof.
  intros Hm Hk w. specialize (Hm w). unfold exec, bind in *.
  destruct (m w) as [[a|e] w']; simpl in *; [|done].
  eapply evolves_trans; [exact Hm | apply Hk].
Qed.

Lemma preserves_try_catch {A} (m : M A) (h : Thrown → M A) :
  preserves E R m → (∀ e, preserves E R (h e)) → preserves E R (try_catch m h).
Proof.
  intros Hm Hh w. specialize (Hm w). unfold exec, try_catch in *.
  destruct (m w) as [[a|e] w']; simpl in *; [done|].
  eapply evolves_trans; [exact Hm | apply Hh].
Qed.

Lemma preserves_for_of {A} (l : list A) (body : A → M unit) :
  (∀ x, x ∈ l → preserves E R (body x)) → preserves E R (for_of l body).
Proof.
  induction l as [|x l IH]; intros Hb; simpl; [apply preserves_ret|].
  apply preserves_bind; [apply Hb; left|].
  intros _. apply IH. intros y Hy. apply Hb. by right.
Qed.

Lemma preserves_emit (e : Event) : E e → preserves E R (emit e).
Proof.
  intros He w. split; simpl; [reflexivity | by apply extends_snoc].
Qed.

Lemma preserves_call env {A} (e : Event) (answer : Trace → A) :
  E e → preserves E R (call env e answer).
Proof.
  intros He w. unfold exec, call.
  destruct (throws env (trace w) e); (split; simpl; [reflexivity | by apply extends_snoc]).
Qed.

Lemma preserves_storeCall env {A} (op : StoreOp) (run : Store → Store * A) :
  E (EStore op) → (∀ s, R s (run s).1) → preserves E R (storeCall env op run).
Proof.
  intros He Hrun w. unfold exec, storeCall.
  destruct (throws env (trace w) (EStore op));
    (split; simpl; [first [reflexivity | apply Hrun] | by apply extends_snoc]).
Qed.

End Frames.

(** ** Counting the invocations that concern one booking *)

Lemma gatewayEvent_notAbout i e : gatewayEvent e → notAbout i e.
Proof. by destruct e. Qed.

Lemma calls_app p t d : calls p (t ++ d) = (calls p t + calls p d)%nat.
Proof. unfold calls. by rewrite List.filter_app, length_app. Qed.

Lemma calls_cons p e t :
  calls p (e :: t) = ((if p e then 1 else 0) + calls p t)%nat.
Proof. unfold calls. simpl. by destruct (p e). Qed.

Lemma calls_none (p : Event → bool) (E : Event → Prop) d :
  (∀ e, E e → p e = false) → Forall E d → calls p d = 0%nat.
Proof.
  intros Hp Hd. unfold calls. induction Hd as [|e d He _ IH]; [done|].
  simpl. by rewrite (Hp e He).
Qed.

Lemma notAbout_isMatch i e : notAbout i e → isMatch i e = false.
Proof. destruct e; simpl; try done. intros H. by apply N.eqb_neq. Qed.

Lemma notAbout_isNotify i e : notAbout i e → isNotify i e = false.
Proof. destruct e; simpl; try done. intros H. by apply N.eqb_neq. Qed.

Lemma notAbout_isReminder i e : notAbout i e → isReminder i e = false.
Proof. destruct e; simpl; try done. intros H. by apply N.eqb_neq. Qed.

Lemma calls_extends_notAbout i t t' :
  extends (notAbout i) t t' →
  calls (isMatch i) t' = calls (isMatch i) t
  ∧ calls (isNotify i) t' = calls (isNotify i) t
  ∧ calls (isReminder i) t' = calls (isReminder i) t.
Proof.
  intros (d & -> & Hd). rewrite !calls_app.
  rewrite (calls_none _ _ d (notAbout_isMatch i) Hd).
  rewrite (calls_none _ _ d (notAbout_isNotify i) Hd).
  rewrite (calls_none _ _ d (notAbout_isReminder i) Hd). lia.
Qed.

#[global] Instance sameAt_preorder i : PreOrder (sameAt i).
Proof.
  split; [by intros s|]. intros s1 s2 s3 H1 H2. unfold sameAt in *. congruence.
Qed.

(** Symbolic execution of the rules of [preserves] along the code. *)
Ltac frame_step :=
  lazymatch goal with
  | |- preserves _ _ (bind _ _) => apply preserves_bind; [try apply _| |intros ?]
  | |- preserves _ _ (try_catch _ _) => apply preserves_try_catch; [try apply _| |intros ?]
  | |- preserves _ _ (ret _) => apply preserves_ret; try apply _
  | |- preserves _ _ (throw _) => apply preserves_throw; try apply _
  | |- preserves _ _ (messageOf _) => apply preserves_messageOf; try apply _
  | |- preserves _ _ (emit _) => apply preserves_emit; [try apply _|]
  | |- preserves _ _ (console _ _ _) => apply preserves_emit; [try apply _|]
  | |- preserves _ _ (call _ _ _) => apply preserves_call; [try apply _|]
  | |- preserves _ _ (storeCall _ _ _) => apply preserves_storeCall; [try apply _| |]
  | |- preserves _ _ (match ?x with _ => _ end) => destruct x
  end.

Ltac frame := cbv zeta; repeat (frame_step; cbv zeta).

(** The same along the rules of [neverNullish]. *)
Ltac never_nullish_step :=
  lazymatch goal with
  | |- neverNullish (bind _ _) => apply neverNullish_bind; [|intros ?]
  | |- neverNullish (try_catch _ _) => apply neverNullish_try_catch; intros ?
  | |- neverNullish (ret _) => apply neverNullish_ret
  | |- neverNullish (throw _) => apply neverNullish_throw; discriminate
  | |- neverNullish (messageOf _) => apply neverNullish_messageOf
  | |- neverNullish (emit _) => apply neverNullish_emit
  | |- neverNullish (console _ _ _) => apply neverNullish_emit
  | |- neverNullish (call _ _ _) => apply neverNullish_call; assumption
  | |- neverNullish (storeCall _ _ _) => apply neverNullish_storeCall; assumption
  | |- neverNullish (match ?x with _ => _ end) => destruct x
  | |- neverNullish (if ?x then _ else _) => destruct x
  end.

Ltac never_nullish := cbv zeta; repeat (never_nullish_step; cbv zeta).

(** A handler of the sources, on a thrown value whose message can be read. *)
Ltac handler_returns :=
  intros ?;
  repeat first [apply returns_bind; [|intros ?]
               |apply returns_messageOf
               |apply returns_emit
               |apply returns_ret].

Section ComposerFacts.

Variable env : Env.

(** The composer writes nothing to the store and, after its entry marker,
    only talks to the gateway and the console.  It returns a result, or
    rejects with the TypeError of its own handler. *)
Lemma sendScheduledReminder_spec (booking : Doc) (type : string) (io : option SocketIO)
    (w : World) :
  ∃ r d,
    sendScheduledReminder env booking type io w
    = (r, mkWorld (store w) (trace w ++ EReminder booking.1 type :: d))
    ∧ Forall gatewayEvent d
    ∧ ((∃ a, r = Returns a) ∨ r = Throws messageTypeError).
Proof.
  unfold sendScheduledReminder.
  match goal with |- context [try_catch ?m ?h] => set (body := m); set (handler := h) end.
  assert (Hp : preserves gatewayEvent eq (try_catch body handler)).
  { subst body handler.
    unfold TechnicianProfile_findById, sendPushNotification,
      sendSocketNotification, sendSms.
    frame; done. }
  set (w1 := mkWorld (store w) (trace w ++ [EReminder booking.1 type])).
  destruct (Hp w1) as [Hs (d & Ht & Hd)].
  assert (Hr : (∃ a, result (try_catch body handler) w1 = Returns a)
               ∨ result (try_catch body handler) w1 = Throws messageTypeError).
  { unfold result. subst handler. rewrite try_catch_cases.
    destruct (body w1) as [[a|[message|]] w2]; simpl; eauto. }
  exists (result (try_catch body handler) w1), d. split; [|done].
  unfold bind, emit. fold w1. unfold result, exec in *.
  destruct (try_catch body handler w1) as [x w2]; simpl in *.
  f_equal. destruct w2 as [s2 t2]; simpl in *. subst s2 t2.
  by rewrite <- app_assoc.
Qed.

(** When no call rejects with [null] or [undefined], the composer returns. *)
Lemma sendScheduledReminder_returns (booking : Doc) (type : string) (io : option SocketIO) :
  errorsOnly env → returns (sendScheduledReminder env booking type io).
Proof.
  intros He. unfold sendScheduledReminder.
  apply returns_bind; [apply returns_emit|intros _].
  apply returns_try_catch; [|handler_returns].
  unfold TechnicianProfile_findById, sendPushNotification, sendSocketNotification.
  never_nullish.
Qed.

(** Whatever fails, the composer throws no [null] or [undefined]. *)
Lemma sendScheduledReminder_neverNullish (booking : Doc) (type : string)
    (io : option SocketIO) :
  neverNullish (sendScheduledReminder env booking type io).
Proof.
  unfold sendScheduledReminder. never_nullish.
Qed.

(** The customer notification always returns: what its inner handler throws,
    its outer handler catches, and that is never [null] or [undefined]. *)
Lemma notifyCustomerOfRebroadcast_spec (booking : Doc) (io : option SocketIO) (w : World) :
  ∃ d,
    notifyCustomerOfRebroadcast env booking io w
    = (Returns tt, mkWorld (store w) (trace w ++ ENotifyCustomer booking.1 :: d))
    ∧ Forall gatewayEvent d.
Proof.
  unfold notifyCustomerOfRebroadcast.
  match goal with |- context [try_catch ?m ?h] => set (body := m); set (handler := h) end.
  assert (Hp : preserves gatewayEvent eq (try_catch body handler)).
  { subst body handler. unfold User_findById, sendSms. frame; done. }
  assert (Hr : returns (try_catch body handler)).
  { subst body handler. apply returns_try_catch; [never_nullish|handler_returns]. }
  set (w1 := mkWorld (store w) (trace w ++ [ENotifyCustomer booking.1])).
  destruct (Hr w1) as [[] Hres]. destruct (Hp w1) as [Hs (d & Ht & Hd)].
  exists d. split; [|done].
  unfold bind, emit. fold w1. unfold result, exec in *.
  destruct (try_catch body handler w1) as [x w2]; simpl in *. subst x.
  f_equal. destruct w2 as [s2 t2]; simpl in *. subst s2 t2.
  by rewrite <- app_assoc.
Qed.

End ComposerFacts.

(** ** The skeleton the five jobs share *)

Lemma activateScheduledBookings_poll env io now :
  activateScheduledBookings env io now
  = poll env (activationQuery (now + 15 * 60 * 1000))
      (EConsole Log "[CRON:ACTIVATE] Found scheduled booking(s) to activate" None)
      (EConsole Error "[CRON:ACTIVATE] Fatal error" None)
      (activateBooking env io).
Proof. reflexivity. Qed.

Lemma handleNoShowSafety_poll env io now :
  handleNoShowSafety env io now
  = poll env (noShowQuery (now - 30 * 60 * 1000))
      (EConsole Log "[CRON:NOSHOW] Detected no-show booking(s)" None)
      (EConsole Error "[CRON:NOSHOW] Fatal error" None)
      (recoverNoShow env io now).
Proof. reflexivity. Qed.

(** A tick whose window query throws: the fatal error is logged, unless the
    query threw [null] or [undefined]; then the handler itself throws. *)
Lemma poll_query_throws env q found fatal body w err :
  throws env (trace w) (EStore (Find q)) = Some err →
  poll env q found fatal body w
  = match err with
    | Thrown_value _ => (Returns tt, record fatal (record (EStore (Find q)) w))
    | Thrown_nullish => (Throws messageTypeError, record (EStore (Find q)) w)
    end.
Proof.
  intros Hq. unfold poll, try_catch, bind, ServiceBooking_find, storeCall.
  rewrite Hq. by destruct err.
Qed.

(** A tick whose window query returns no booking. *)
Lemma poll_empty env q found fatal body w :
  throws env (trace w) (EStore (Find q)) = None →
  find q (store w) = [] →
  poll env q found fatal body w = (Returns tt, record (EStore (Find q)) w).
Proof.
  intros Hq Hnone. unfold poll, try_catch, bind, ServiceBooking_find, storeCall.
  rewrite Hq. simpl. by rewrite Hnone.
Qed.

(** A tick whose window query returns bookings: the loop, and what the
    outer handler makes of a loop that threw. *)
Lemma poll_batch env q found fatal body w :
  throws env (trace w) (EStore (Find q)) = None →
  find q (store w) ≠ [] →
  poll env q found fatal body w
  = match for_of (find q (store w)) body (record found (record (EStore (Find q)) w)) with
    | (Returns a, w') => (Returns a, w')
    | (Throws (Thrown_value _), w') => (Returns tt, record fatal w')
    | (Throws Thrown_nullish, w') => (Throws messageTypeError, w')
    end.
Proof.
  intros Hq Hsome. unfold poll. rewrite try_catch_cases.
  unfold bind at 1. unfold ServiceBooking_find, storeCall. rewrite Hq. simpl.
  destruct (find q (store w)) as [|x l] eqn:Hf; [done|].
  change (length (x :: l) =? 0)%nat with false. cbv iota.
  unfold bind at 1. unfold record.
  change (body x ;; for_of l body) with (for_of (x :: l) body).
  change (emit found {| store := store w; trace := trace w ++ [EStore (Find q)] |})
    with (Returns tt, {| store := store w; trace := (trace w ++ [EStore (Find q)]) ++ [found] |}).
  cbv iota beta.
  by destruct (for_of (x :: l) body _) as [[a|[message|]] w'].
Qed.

Lemma poll_frame (E : Event → Prop) (R : relation Store) `{!PreOrder R}
    env q found fatal body w :
  E (EStore (Find q)) → E found → E fatal →
  (∀ x, x ∈ find q (store w) → preserves E R (body x)) →
  evolves E R w (exec (poll env q found fatal body) w).
Proof.
  intros Hq Hfound Hfatal Hb.
  assert (Hfind : evolves E R w (record (EStore (Find q)) w)).
  { split; simpl; [reflexivity | by apply extends_snoc]. }
  assert (Hrec : ∀ w0, evolves E R w0 (record fatal w0)).
  { intros w0. split; simpl; [reflexivity | by apply extends_snoc]. }
  unfold exec.
  destruct (throws env (trace w) (EStore (Find q))) as [err|] eqn:Hthrow.
  { rewrite (poll_query_throws _ _ _ _ _ _ _ Hthrow). destruct err; simpl; [|done].
    eapply evolves_trans; [done | exact Hfind | apply Hrec]. }
  destruct (find q (store w)) as [|x l] eqn:Hf.
  { by rewrite poll_empty. }
  rewrite poll_batch, Hf by (done || by rewrite Hf).
  set (w2 := record found (record (EStore (Find q)) w)).
  assert (H02 : evolves E R w w2).
  { eapply evolves_trans; [done | exact Hfind |].
    split; simpl; [reflexivity | by apply extends_snoc]. }
  pose proof (preserves_for_of E R (x :: l) body Hb w2) as Hloop.
  unfold exec in Hloop.
  destruct (for_of (x :: l) body w2) as [[[]|[message|]] w3]; simpl in *.
  - eapply evolves_trans; [done | exact H02 | exact Hloop].
  - eapply evolves_trans; [done | exact H02 |].
    eapply evolves_trans; [done | exact Hloop | apply Hrec].
  - eapply evolves_trans; [done | exact H02 | exact Hloop].
Qed.

(** ** The loop bodies *)

Lemma gatewayEvent_quiet e : gatewayEvent e → quietEvent e.
Proof. by destruct e. Qed.

Lemma quietEvent_notAbout i e : quietEvent e → notAbout i e.
Proof. by destruct e. Qed.

Section BodyFacts.

Variable env : Env.

(** When no call rejects with [null] or [undefined], a loop body returns:
    its handler logs whatever was thrown. *)
Lemma activateBooking_returns io d :
  errorsOnly env → returns (activateBooking env io d).
Proof.
  intros He. apply returns_try_catch; [|handler_returns].
  unfold ServiceBooking_updateOne, matchAndBroadcastBooking, countOf. never_nullish.
Qed.

Lemma remindBooking_returns k tag extra io d :
  errorsOnly env → quietExtra extra → returns (remindBooking env k tag extra io d).
Proof.
  intros He Hextra. apply returns_try_catch; [|handler_returns].
  apply neverNullish_bind; [apply sendScheduledReminder_neverNullish|intros _].
  apply neverNullish_bind.
  { intros w. destruct (Hextra d w) as (t & Hx & _). unfold result. by rewrite Hx. }
  intros _. unfold ServiceBooking_updateOne. never_nullish.
Qed.

Lemma recoverNoShow_returns io now d :
  errorsOnly env → returns (recoverNoShow env io now d).
Proof.
  intros He. apply returns_try_catch; [|handler_returns].
  unfold ServiceBooking_findOneAndUpdate, matchAndBroadcastBooking, countOf.
  apply neverNullish_bind; [never_nullish|intros [updated|]]; [|never_nullish].
  apply neverNullish_bind; [never_nullish|intros _].
  apply neverNullish_bind; [never_nullish|intros res].
  apply neverNullish_bind; [never_nullish|intros _].
  apply neverNullish_bind; [never_nullish|intros _].
  intros w. destruct (notifyCustomerOfRebroadcast_spec env d io w) as (t & Hx & _).
  unfold result. by rewrite Hx.
Qed.

(** Whatever fails, a loop body throws no [null] or [undefined]: when its
    handler throws, it is the TypeError of reading [err.message]. *)
Lemma activateBooking_neverNullish io d : neverNullish (activateBooking env io d).
Proof. unfold activateBooking. never_nullish. Qed.

Lemma remindBooking_neverNullish k tag extra io d :
  neverNullish (remindBooking env k tag extra io d).
Proof. unfold remindBooking. apply neverNullish_try_catch. intros e. never_nullish. Qed.

Lemma recoverNoShow_neverNullish io now d : neverNullish (recoverNoShow env io now d).
Proof. unfold recoverNoShow. apply neverNullish_try_catch. intros e. never_nullish. Qed.

Section Generic.

Context (E : Event → Prop) (R : relation Store) `{!PreOrder R}.
Hypothesis quiet_ok : ∀ e, quietEvent e → E e.

Lemma sendScheduledReminder_preserves booking type io :
  E (EReminder booking.1 type) →
  preserves E R (sendScheduledReminder env booking type io).
Proof.
  intros He w.
  destruct (sendScheduledReminder_spec env booking type io w) as (r & d & Hx & Hd & _).
  unfold exec. rewrite Hx. split; simpl; [reflexivity|].
  exists (EReminder booking.1 type :: d). split; [done|].
  apply Forall_cons. split; [done|].
  eapply Forall_impl; [exact Hd|]. intros e H. by apply quiet_ok, gatewayEvent_quiet.
Qed.

Lemma notifyCustomerOfRebroadcast_preserves booking io :
  E (ENotifyCustomer booking.1) →
  preserves E R (notifyCustomerOfRebroadcast env booking io).
Proof.
  intros He w.
  destruct (notifyCustomerOfRebroadcast_spec env booking io w) as (d & Hx & Hd).
  unfold exec. rewrite Hx. split; simpl; [reflexivity|].
  exists (ENotifyCustomer booking.1 :: d). split; [done|].
  apply Forall_cons. split; [done|].
  eapply Forall_impl; [exact Hd|]. intros e H. by apply quiet_ok, gatewayEvent_quiet.
Qed.

Lemma activateBooking_preserves io d :
  E (EMatch d.1) →
  (∀ s, R s (updateOne (activationGuard d.1) activationUpdate s).1) →
  preserves E R (activateBooking env io d).
Proof.
  intros He Hs.
  unfold activateBooking, ServiceBooking_updateOne, matchAndBroadcastBooking, countOf.
  frame; try done; by apply quiet_ok.
Qed.

Lemma remindBooking_preserves k tag extra io d :
  E (EReminder d.1 (kindKey k)) →
  (∀ x, preserves E R (extra x)) →
  (∀ s, R s (updateOne (byId d.1) (reminderUpdate k) s).1) →
  preserves E R (remindBooking env k tag extra io d).
Proof.
  intros He Hextra Hs. unfold remindBooking, ServiceBooking_updateOne.
  apply preserves_try_catch; [done| |intros e; frame; by apply quiet_ok].
  apply preserves_bind; [done|by apply sendScheduledReminder_preserves|intros _].
  apply preserves_bind; [done|apply Hextra|intros _].
  frame; try done; by apply quiet_ok.
Qed.

Lemma recoverNoShow_preserves io now d :
  E (EMatch d.1) → E (ENotifyCustomer d.1) →
  (∀ s, R s (findOneAndUpdate (noShowGuard d.1) (noShowUpdate now) s).1) →
  preserves E R (recoverNoShow env io now d).
Proof.
  intros He1 He2 Hs.
  unfold recoverNoShow, ServiceBooking_findOneAndUpdate, matchAndBroadcastBooking.
  apply preserves_try_catch; [done| |intros e; frame; by apply quiet_ok].
  apply preserves_bind; [done| |intros [upd|]].
  - frame; try done. by apply quiet_ok.
  - apply preserves_bind; [done|frame; by apply quiet_ok|intros _].
    apply preserves_bind; [done|frame; done|intros result].
    apply preserves_bind; [done|unfold countOf; frame|intros _].
    apply preserves_bind; [done|frame; by apply quiet_ok|intros _].
    by apply notifyCustomerOfRebroadcast_preserves.
  - frame.
Qed.

End Generic.

(** A loop body leaves the documents and the invocation counts of every
    other booking alone. *)
Lemma activateBooking_frame io i d :
  d.1 ≠ i → preserves (notAbout i) (sameAt i) (activateBooking env io d).
Proof.
  intros Hne. apply activateBooking_preserves; [apply _|apply quietEvent_notAbout|done|].
  intros s. unfold sameAt. rewrite updateOne_store.
  by apply findOneAndUpdate_other with (j := d.1).
Qed.

Lemma remindBooking_frame k tag extra io i d :
  (∀ x, preserves (notAbout i) (sameAt i) (extra x)) →
  d.1 ≠ i → preserves (notAbout i) (sameAt i) (remindBooking env k tag extra io d).
Proof.
  intros Hx Hne.
  apply remindBooking_preserves; [apply _|apply quietEvent_notAbout|done|done|].
  intros s. unfold sameAt. rewrite updateOne_store.
  by apply findOneAndUpdate_other with (j := d.1).
Qed.

Lemma recoverNoShow_frame io now i d :
  d.1 ≠ i → preserves (notAbout i) (sameAt i) (recoverNoShow env io now d).
Proof.
  intros Hne.
  apply recoverNoShow_preserves; [apply _|apply quietEvent_notAbout|done|done|].
  intros s. unfold sameAt. by apply findOneAndUpdate_other with (j := d.1).
Qed.

End BodyFacts.

(** ** A tick, seen from one booking *)

Section TickFacts.

Variable env : Env.

(** A booking the query does not return is framed by the whole tick. *)
Lemma poll_not_selected q tag1 tag2 body w i :
  (∀ x, x.1 ≠ i → preserves (notAbout i) (sameAt i) (body x)) →
  i ∉ (find q (store w)).*1 →
  evolves (notAbout i) (sameAt i) w
    (exec (poll env q (EConsole Log tag1 None) (EConsole Error tag2 None) body) w).
Proof.
  intros Hb Hi. apply poll_frame; [apply _|done..|].
  intros x Hx. apply Hb. intros Hxi. apply Hi.
  apply list_elem_of_fmap. by exists x.
Qed.

(** A booking the query returns: the loop reaches it, and then it is
    processed once, between two frames; or a booking before it ended the
    loop early, and then the whole tick is a frame for it. *)
Lemma poll_selected_cases q tag1 tag2 body w i b :
  (∀ x, x.1 ≠ i → preserves (notAbout i) (sameAt i) (body x)) →
  throws env (trace w) (EStore (Find q)) = None →
  (i, b) ∈ find q (store w) →
  let w' := exec (poll env q (EConsole Log tag1 None) (EConsole Error tag2 None) body) w in
  ∃ l1 l2, find q (store w) = l1 ++ (i, b) :: l2
    ∧ (∀ x, x ∈ l1 → x.1 ≠ i)
    ∧ match for_of l1 body (record (EConsole Log tag1 None) (record (EStore (Find q)) w)) with
      | (Returns _, w1) =>
        evolves (notAbout i) (sameAt i) w w1
        ∧ evolves (notAbout i) (sameAt i) (exec (body (i, b)) w1) w'
      | (Throws _, _) => evolves (notAbout i) (sameAt i) w w'
      end.
Proof.
  intros Hb Hfind Hin w'. subst w'. unfold exec at 2 3.
  rewrite poll_batch;
    [|done|intros Hnil; rewrite Hnil in Hin; by apply elem_of_nil in Hin].
  pose proof (find_NoDup q (store w)) as Hnd.
  apply list_elem_of_split in Hin as (l1 & l2 & Hl). rewrite Hl in *.
  rewrite fmap_app, fmap_cons in Hnd. simpl in Hnd.
  apply NoDup_app in Hnd as (_ & Hnd1 & Hnd2).
  apply NoDup_cons in Hnd2 as [Hnd2 _].
  assert (Hl1 : ∀ x, x ∈ l1 → x.1 ≠ i).
  { intros x Hx Hxi. apply (Hnd1 i); [|left]. apply list_elem_of_fmap. by exists x. }
  assert (Hl2 : ∀ x, x ∈ l2 → x.1 ≠ i).
  { intros x Hx Hxi. apply Hnd2. apply list_elem_of_fmap. by exists x. }
  exists l1, l2. split; [done|]. split; [exact Hl1|].
  set (w0 := record _ (record _ w)).
  assert (H0 : evolves (notAbout i) (sameAt i) w w0).
  { split; simpl; [done|]. exists [EStore (Find q); EConsole Log tag1 None].
    split; [by rewrite <- app_assoc | by repeat constructor]. }
  assert (Hrec : ∀ w', evolves (notAbout i) (sameAt i) w'
                         (record (EConsole Error tag2 None) w')).
  { intros w'. split; simpl; [done | by apply extends_snoc]. }
  assert (H1 : evolves (notAbout i) (sameAt i) w0 (exec (for_of l1 body) w0)).
  { apply preserves_for_of; [apply _|]. intros x Hx. by apply Hb, Hl1. }
  rewrite for_of_app. unfold exec in H1.
  destruct (for_of l1 body w0) as [[[]|[message|]] w1]; simpl in H1.
  - split; [by eapply evolves_trans; [apply _|exact H0|]|].
    change (for_of ((i, b) :: l2) body) with (bind (body (i, b)) (fun _ => for_of l2 body)).
    unfold bind, exec at 1.
    destruct (body (i, b) w1) as [[[]|[message|]] w2]; simpl;
      [|apply Hrec|apply evolves_refl, _].
    assert (Hloop : evolves (notAbout i) (sameAt i) w2 (exec (for_of l2 body) w2)).
    { apply preserves_for_of; [apply _|]. intros x Hx. by apply Hb, Hl2. }
    unfold exec in Hloop.
    destruct (for_of l2 body w2) as [[[]|[message|]] w3]; simpl in *; [done| |done].
    eapply evolves_trans; [apply _ | exact Hloop | apply Hrec].
  - simpl. eapply evolves_trans; [apply _|exact H0|].
    eapply evolves_trans; [apply _|exact H1|apply Hrec].
  - simpl. by eapply evolves_trans; [apply _|exact H0|].
Qed.

(** When no booking before it ends the loop early, the loop reaches it. *)
Lemma poll_selected q tag1 tag2 body w i b :
  othersReturn i body →
  (∀ x, x.1 ≠ i → preserves (notAbout i) (sameAt i) (body x)) →
  throws env (trace w) (EStore (Find q)) = None →
  (i, b) ∈ find q (store w) →
  ∃ w1, evolves (notAbout i) (sameAt i) w w1
    ∧ evolves (notAbout i) (sameAt i) (exec (body (i, b)) w1)
        (exec (poll env q (EConsole Log tag1 None) (EConsole Error tag2 None) body) w).
Proof.
  intros Hr Hb Hfind Hin.
  destruct (poll_selected_cases q tag1 tag2 body w i b Hb Hfind Hin)
    as (l1 & l2 & _ & Hl1 & Hcases).
  match type of Hcases with context [for_of l1 body ?w0] =>
    destruct (returns_for_of_in l1 body (fun x Hx => Hr x (Hl1 x Hx)) w0) as [a Ha];
    unfold result in Ha; destruct (for_of l1 body w0) as [r w1] end.
  simpl in Ha. subst r. by exists w1.
Qed.

(** The activation body: the guarded write, then the broadcast, whatever
    the write matched. *)
Lemma activateBooking_exec io i b0 w :
  throws env (trace w) (EStore (UpdateOne (activationGuard i) activationUpdate)) = None →
  ∃ d, exec (activateBooking env io (i, b0)) w
       = mkWorld (updateOne (activationGuard i) activationUpdate (store w)).1
           (trace w ++ [EStore (UpdateOne (activationGuard i) activationUpdate); EMatch i] ++ d)
     ∧ Forall gatewayEvent d.
Proof.
  intros Hu.
  unfold activateBooking, exec, try_catch, bind, ServiceBooking_updateOne, storeCall,
    matchAndBroadcastBooking, call, countOf, console, emit, throw, ret.
  simpl. rewrite Hu. simpl.
  destruct (throws env _ (EMatch i)) as [[message|]|]; simpl.
  - eexists [_]. rewrite <- !app_assoc. simpl. split; [done|by repeat constructor].
  - exists []. rewrite <- !app_assoc. simpl. split; [done|constructor].
  - destruct (matchResult env _ i); simpl.
    + eexists [_]. rewrite <- !app_assoc. simpl. split; [done|by repeat constructor].
    + eexists [_]. rewrite <- !app_assoc. simpl. split; [done|by repeat constructor].
Qed.

(** A reminder body after the composer returned, whatever its result: what
    the job does in between, then the flag write. *)
Lemma remindBooking_after_composer k tag extra io i b0 w r wc :
  quietExtra extra →
  sendScheduledReminder env (i, b0) (kindKey k) io w = (Returns r, wc) →
  ∃ d, Forall gatewayEvent d
    ∧ remindBooking env k tag extra io (i, b0) w
      = let write := EStore (UpdateOne (byId i) (reminderUpdate k)) in
        match throws env (trace wc ++ d) write with
        | None =>
          (Returns tt,
           mkWorld (updateOne (byId i) (reminderUpdate k) (store wc)).1
             (trace wc ++ d ++ [write]))
        | Some (Thrown_value _) =>
          (Returns tt,
           mkWorld (store wc) (trace wc ++ d ++ [write; EConsole Error tag (Some i)]))
        | Some Thrown_nullish =>
          (Throws messageTypeError, mkWorld (store wc) (trace wc ++ d ++ [write]))
        end.
Proof.
  intros Hextra Hc. destruct (Hextra (i, b0) wc) as (d & Hx & Hd).
  exists d. split; [done|].
  unfold remindBooking. rewrite try_catch_cases.
  unfold bind at 1. rewrite Hc. unfold bind at 1. rewrite Hx.
  unfold bind, ServiceBooking_updateOne, storeCall, console, emit, ret. simpl.
  destruct (throws env (trace wc ++ d) _) as [[message|]|]; simpl;
    by rewrite <- ?app_assoc.
Qed.

(** A reminder body whose composer rejects: the error is logged for the
    booking and the flag is left alone. *)
Lemma remindBooking_composer_rejects k tag extra io i b0 w wc :
  sendScheduledReminder env (i, b0) (kindKey k) io w = (Throws messageTypeError, wc) →
  remindBooking env k tag extra io (i, b0) w
  = (Returns tt, record (EConsole Error tag (Some i)) wc).
Proof.
  intros Hc. unfold remindBooking. rewrite try_catch_cases.
  unfold bind at 1. by rewrite Hc.
Qed.

(** A reminder body: the composer is entered once, and when it returns and
    the write does not throw the flag is set, whatever the composer
    returned. *)
Lemma remindBooking_exec k tag extra io i b0 w :
  quietExtra extra →
  ∃ d, trace (exec (remindBooking env k tag extra io (i, b0)) w)
       = trace w ++ EReminder i (kindKey k) :: d
     ∧ Forall quietEvent d
     ∧ ((∃ r, result (sendScheduledReminder env (i, b0) (kindKey k) io) w = Returns r) →
        (∀ h, throws env h (EStore (UpdateOne (byId i) (reminderUpdate k))) = None) →
        store (exec (remindBooking env k tag extra io (i, b0)) w)
        = (updateOne (byId i) (reminderUpdate k) (store w)).1).
Proof.
  intros Hextra.
  destruct (sendScheduledReminder_spec env (i, b0) (kindKey k) io w)
    as (r & d1 & Hc & Hd1 & [[a ->] | ->]).
  - destruct (remindBooking_after_composer k tag extra io i b0 w _ _ Hextra Hc)
      as (d2 & Hd2 & Hx).
    assert (Hq : Forall quietEvent (d1 ++ d2)).
    { apply Forall_app. split; (eapply Forall_impl; [eassumption|apply gatewayEvent_quiet]). }
    unfold exec. rewrite Hx. cbv zeta. simpl trace. simpl store.
    destruct (throws env _ (EStore (UpdateOne (byId i) (reminderUpdate k))))
      as [[message|]|] eqn:Hu; simpl.
    + exists ((d1 ++ d2) ++ [EStore (UpdateOne (byId i) (reminderUpdate k));
                             EConsole Error tag (Some i)]).
      split; [by rewrite <- !app_assoc|]. split.
      * apply Forall_app. split; [done|by repeat constructor].
      * intros _ Hno. by rewrite Hno in Hu.
    + exists ((d1 ++ d2) ++ [EStore (UpdateOne (byId i) (reminderUpdate k))]).
      split; [by rewrite <- !app_assoc|]. split.
      * apply Forall_app. split; [done|by repeat constructor].
      * intros _ Hno. by rewrite Hno in Hu.
    + exists ((d1 ++ d2) ++ [EStore (UpdateOne (byId i) (reminderUpdate k))]).
      split; [by rewrite <- !app_assoc|]. split; [|done].
      apply Forall_app. split; [done|by repeat constructor].
  - unfold exec. rewrite (remindBooking_composer_rejects k tag extra io i b0 w _ Hc).
    simpl. exists (d1 ++ [EConsole Error tag (Some i)]).
    split; [by rewrite <- !app_assoc|]. split.
    + apply Forall_app. split; [|by repeat constructor].
      eapply Forall_impl; [eassumption|apply gatewayEvent_quiet].
    + intros [a Ha]. unfold result in Ha. rewrite Hc in Ha. done.
Qed.

(** The no-show body when the guard matches and the broadcast resolves. *)
Lemma recoverNoShow_exec io now i b0 b w :
  store w !! i = Some b →
  matches (noShowGuard i) (i, b) = true →
  (∀ h, throws env h (EStore (FindOneAndUpdate (noShowGuard i) (noShowUpdate now))) = None) →
  (∀ h, throws env h (EMatch i) = None ∧ is_Some (matchResult env h i)) →
  ∃ d, exec (recoverNoShow env io now (i, b0)) w
       = mkWorld (<[i := applyUpdate (noShowUpdate now) b]> (store w))
           (trace w ++ [EStore (FindOneAndUpdate (noShowGuard i) (noShowUpdate now));
                        EConsole Log "[CRON:NOSHOW] Unassigned technician. Re-broadcasting" (Some i);
                        EMatch i;
                        EConsole Log "[CRON:NOSHOW] Booking re-broadcast" (Some i);
                        ENotifyCustomer i] ++ d)
     ∧ Forall gatewayEvent d.
Proof.
  intros Hb Hm Hu Hmatch.
  unfold recoverNoShow, exec, try_catch, bind, ServiceBooking_findOneAndUpdate, storeCall.
  simpl. rewrite Hu. simpl.
  rewrite (findOneAndUpdate_by_id _ _ i) by done. rewrite Hb, Hm. simpl.
  unfold matchAndBroadcastBooking, call, console, emit. simpl.
  match goal with |- context [throws env ?h (EMatch i)] =>
    destruct (Hmatch h) as [-> [res ->]] end.
  simpl.
  match goal with |- context [notifyCustomerOfRebroadcast env ?bk io ?w1] =>
    destruct (notifyCustomerOfRebroadcast_spec env bk io w1) as (d & -> & Hd) end.
  simpl. exists d. rewrite <- !app_assoc. simpl. done.
Qed.

(** The no-show body when the guard no longer matches: nothing but the
    store call happens. *)
Lemma recoverNoShow_miss io now i b0 w :
  (∀ b, store w !! i = Some b → matches (noShowGuard i) (i, b) = false) →
  throws env (trace w) (EStore (FindOneAndUpdate (noShowGuard i) (noShowUpdate now))) = None →
  recoverNoShow env io now (i, b0) w
  = (Returns tt, record (EStore (FindOneAndUpdate (noShowGuard i) (noShowUpdate now))) w).
Proof.
  intros Hb Hu.
  unfold recoverNoShow, try_catch, bind, ServiceBooking_findOneAndUpdate, storeCall.
  simpl. rewrite Hu. simpl.
  rewrite (findOneAndUpdate_by_id _ _ i) by done.
  destruct (store w !! i) as [b|] eqn:Hi; [rewrite (Hb b eq_refl)|]; done.
Qed.

End TickFacts.

(** ** The selection predicates, spelled out *)

Lemma matches_activationQuery e (d : Doc) :
  matches (activationQuery e) d = true
  ↔ status d.2 = "scheduled" ∧ ∃ t, scheduledAt d.2 = Some t ∧ t ≤ e.
Proof.
  unfold matches, activationQuery. simpl.
  rewrite !andb_true_r, andb_true_iff, String.eqb_eq.
  destruct (scheduledAt d.2) as [t|]; simpl.
  - rewrite Z.leb_le. split; [intros [? ?]; eauto|].
    intros [? (t' & [= <-] & ?)]. done.
  - split; [intros [? ?]; done | intros [? (t' & ? & ?)]; done].
Qed.

Lemma matches_activationGuard i b :
  matches (activationGuard i) (i, b) = true ↔ status b = "scheduled".
Proof.
  unfold matches, activationGuard. simpl.
  rewrite !andb_true_r, N.eqb_refl. simpl. apply String.eqb_eq.
Qed.

Lemma activationGuard_once i b :
  matches (activationGuard i) (i, applyUpdate activationUpdate b) = false.
Proof. apply not_true_is_false. by rewrite matches_activationGuard. Qed.

Lemma activation_write_idempotent i (s : Store) :
  (updateOne (activationGuard i) activationUpdate
     (updateOne (activationGuard i) activationUpdate s).1).1
  = (updateOne (activationGuard i) activationUpdate s).1.
Proof.
  rewrite (updateOne_by_id _ _ i s) by done.
  destruct (s !! i) as [b|] eqn:Hb; simpl.
  - destruct (matches (activationGuard i) (i, b)) eqn:Hm; simpl.
    + rewrite (updateOne_by_id _ _ i) by done.
      by rewrite lookup_insert_eq, activationGuard_once.
    + rewrite (updateOne_by_id _ _ i) by done. by rewrite Hb, Hm.
  - rewrite (updateOne_by_id _ _ i) by done. by rewrite Hb.
Qed.

Lemma matches_reminderQuery k lo hi (d : Doc) :
  matches (reminderQuery k lo hi) d = true
  ↔ status d.2 = "accepted" ∧ flag k (remindersSent d.2) = false
    ∧ ∃ t, scheduledAt d.2 = Some t ∧ lo ≤ t ≤ hi.
Proof.
  unfold matches, reminderQuery. simpl.
  rewrite !andb_true_r, !andb_true_iff, String.eqb_eq, negb_true_iff.
  destruct (scheduledAt d.2) as [t|]; simpl.
  - rewrite !Z.leb_le. split.
    + intros [[[? ?] ?] ?]. eauto 10.
    + intros (? & ? & t' & [= <-] & ? & ?). done.
  - split; [intros [[[? ?] ?] ?]; done | intros (? & ? & t' & ? & ?); done].
Qed.

Lemma matches_byId i b : matches (byId i) (i, b) = true.
Proof. unfold matches, byId. simpl. by rewrite N.eqb_refl. Qed.

Lemma matches_noShowQuery c (d : Doc) :
  matches (noShowQuery c) d = true
  ↔ status d.2 = "accepted" ∧ (∃ t, scheduledAt d.2 = Some t ∧ t ≤ c)
    ∧ noShowAt d.2 = None ∧ is_Some (technicianId d.2).
Proof.
  unfold matches, noShowQuery. simpl.
  destruct (noShowAt d.2), (technicianId d.2), (scheduledAt d.2) as [t|]; simpl;
    rewrite ?andb_true_r, ?andb_false_r, ?andb_true_iff, ?String.eqb_eq, ?Z.leb_le;
    unfold is_Some;
    (split; [intuition (try done; eauto)
            | intros (? & (t' & ? & ?) & ? & [? ?]); simplify_eq; auto]).
Qed.

Lemma matches_noShowGuard i b :
  matches (noShowGuard i) (i, b) = true ↔ status b = "accepted" ∧ noShowAt b = None.
Proof.
  unfold matches, noShowGuard. simpl.
  rewrite !andb_true_r, N.eqb_refl. simpl. rewrite andb_true_iff, String.eqb_eq.
  destruct (noShowAt b); simpl; intuition congruence.
Qed.

Lemma calls_gateway (p : Event → bool) d :
  (∀ e, gatewayEvent e → p e = false) → Forall gatewayEvent d → calls p d = 0%nat.
Proof. apply calls_none. Qed.

Lemma gateway_isMatch i e : gatewayEvent e → isMatch i e = false.
Proof. intros H. by apply notAbout_isMatch, gatewayEvent_notAbout. Qed.

Lemma gateway_isNotify i e : gatewayEvent e → isNotify i e = false.
Proof. intros H. by apply notAbout_isNotify, gatewayEvent_notAbout. Qed.

Lemma quiet_isReminder i e : quietEvent e → isReminder i e = false.
Proof. intros H. by apply notAbout_isReminder, quietEvent_notAbout. Qed.

(** ** A reminder tick, seen from one booking *)

Lemma reminderJob_unfold env io k now :
  reminderJob env io k now
  = poll env (reminderQuery k (now + (window k).1) (now + (window k).2))
      (EConsole Log (reminderTag k) None) (EConsole Error (reminderTag k) None)
      (reminderBody env io k).
Proof. by destruct k. Qed.

Lemma reminderExtra_quiet io k : quietExtra (reminderExtra io k).
Proof.
  intros x w.
  assert (Hret : ∃ d, ret tt w = (Returns tt, mkWorld (store w) (trace w ++ d))
                      ∧ Forall gatewayEvent d).
  { exists []. rewrite app_nil_r. by destruct w. }
  destruct k; simpl; try exact Hret.
  unfold emitNavigation. destruct io; [|exact Hret].
  destruct (technicianId x.2); [|exact Hret].
  destruct (nonZero _); [|exact Hret].
  destruct (nonZero _); [|exact Hret].
  eexists [_]. split; [reflexivity|]. by repeat constructor.
Qed.

Lemma quietExtra_preserves (E : Event → Prop) (R : relation Store) `{!PreOrder R} extra x :
  (∀ e, gatewayEvent e → E e) → quietExtra extra → preserves E R (extra x).
Proof.
  intros HE Hq w. destruct (Hq x w) as (d & Hx & Hd). unfold exec. rewrite Hx.
  split; simpl; [reflexivity|]. exists d. split; [done|].
  eapply Forall_impl; [exact Hd|]. apply HE.
Qed.

Lemma applyUpdate_reminder_flag k b :
  flag k (remindersSent (applyUpdate (reminderUpdate k) b)) = true.
Proof. by destruct k. Qed.

(** One tick of a reminder job whose query does not fail: a selected booking
    has the composer entered once for it, provided no other booking ends the
    loop early, and its flag set when the composer returns and the flag write
    does not throw; a booking that is not selected is left alone. *)
Lemma reminder_tick env io k now w i b :
  throws env (trace w)
    (EStore (Find (reminderQuery k (now + (window k).1) (now + (window k).2)))) = None →
  store w !! i = Some b →
  let selected := matches (reminderQuery k (now + (window k).1) (now + (window k).2)) (i, b) in
  let w' := exec (reminderJob env io k now) w in
  (selected = true → othersReturn i (reminderBody env io k) →
   calls (isReminder i) (trace w') = S (calls (isReminder i) (trace w))
   ∧ (returns (sendScheduledReminder env (i, b) (kindKey k) io) →
      (∀ h, throws env h (EStore (UpdateOne (byId i) (reminderUpdate k))) = None) →
      store w' !! i = Some (applyUpdate (reminderUpdate k) b)))
  ∧ (selected = false →
     calls (isReminder i) (trace w') = calls (isReminder i) (trace w)
     ∧ store w' !! i = Some b).
Proof.
  intros Hfind Hb selected w'. subst selected w'. rewrite reminderJob_unfold.
  set (q := reminderQuery k (now + (window k).1) (now + (window k).2)) in *.
  assert (Hframe : ∀ x, x.1 ≠ i → preserves (notAbout i) (sameAt i) (reminderBody env io k x)).
  { intros x Hx. apply remindBooking_frame; [|done].
    intros y. apply quietExtra_preserves; [apply _|apply gatewayEvent_notAbout|].
    apply reminderExtra_quiet. }
  split.
  - intros Hsel Hothers.
    destruct (poll_selected env q (reminderTag k) (reminderTag k) (reminderBody env io k) w i b)
      as (w1 & [Hs1 Ht1] & [Hs2 Ht2]).
    + exact Hothers.
    + exact Hframe.
    + exact Hfind.
    + by apply find_spec.
    + unfold sameAt in Hs1, Hs2. rewrite Hb in Hs1.
      destruct (remindBooking_exec env k (reminderTag k) (reminderExtra io k) io i b w1
                  (reminderExtra_quiet io k)) as (d & Htr & Hd & Hst).
      fold (reminderBody env io k) in Htr, Hst.
      apply calls_extends_notAbout in Ht1 as (_ & _ & Hr1).
      apply calls_extends_notAbout in Ht2 as (_ & _ & Hr2).
      rewrite Hr2, Htr, calls_app, calls_cons, Hr1.
      rewrite (calls_none _ _ d (quiet_isReminder i) Hd). simpl. rewrite N.eqb_refl.
      split; [lia|]. intros Hc Hu.
      rewrite Hs2, (Hst (Hc w1) Hu), (updateOne_by_id _ _ i) by done.
      rewrite Hs1, matches_byId. simpl. by rewrite lookup_insert_eq.
  - intros Hsel.
    destruct (poll_not_selected env q (reminderTag k) (reminderTag k)
                (reminderBody env io k) w i) as [Hs Ht].
    + exact Hframe.
    + intros Hin. apply list_elem_of_fmap in Hin as ([j b'] & Hj & Hin).
      simpl in Hj. subst j. apply find_spec in Hin as [Hl Hm]. simpl in Hl.
      rewrite Hb in Hl. injection Hl as <-. congruence.
    + unfold sameAt in Hs. rewrite Hs, Hb.
      by apply calls_extends_notAbout in Ht as (_ & _ & ->).
Qed.

(** ** Runs, seen from one flag of one booking *)

#[global] Instance Job_eq_dec : EqDecision Job.
Proof. solve_decision. Defined.

#[global] Instance docRel_preorder i (P : relation Booking) `{!PreOrder P} :
  PreOrder (docRel i P).
Proof.
  split.
  - intros s. unfold docRel. destruct (s !! i) as [b|]; [|done]. by exists b.
  - intros s1 s2 s3 H12 H23. unfold docRel in *.
    destruct (s1 !! i) as [b1|].
    + destruct H12 as (b2 & Hb2 & HP12). rewrite Hb2 in H23.
      destruct H23 as (b3 & Hb3 & HP23). exists b3. split; [done|]. by transitivity b2.
    + by rewrite H12 in H23.
Qed.

#[global] Instance flagKept_preorder k : PreOrder (flagKept k).
Proof.
  split.
  - intros b Hb. exact Hb.
  - intros b1 b2 b3 H12 H23 H. apply H23, H12, H.
Qed.

Lemma noShowGuard_once now i b :
  matches (noShowGuard i) (i, applyUpdate (noShowUpdate now) b) = false.
Proof. apply not_true_is_false. rewrite matches_noShowGuard. simpl. by intros [? _]. Qed.

#[global] Instance noShowRel_preorder now i : PreOrder (noShowRel now i).
Proof.
  split; [by left|]. intros s1 s2 s3 [H12|(b & Hb & Hm & H12)] [H23|(b' & Hb' & Hm' & H23)].
  - left. congruence.
  - right. exists b'. rewrite <- H12. done.
  - right. exists b. rewrite H23. done.
  - rewrite H12 in Hb'. injection Hb' as <-. by rewrite noShowGuard_once in Hm'.
Qed.

(** A write filtered on [_id] touches at most that document, and only when
    the filter matches it. *)
Lemma write_by_id_cases (q : Query) (u : Update) (j i : ObjectId) (s : Store) :
  q_id q = Some j →
  (findOneAndUpdate q u s).1 !! i = s !! i
  ∨ (j = i ∧ ∃ b, s !! i = Some b ∧ matches q (i, b) = true
                  ∧ (findOneAndUpdate q u s).1 !! i = Some (applyUpdate u b)).
Proof.
  intros Hq. destruct (decide (j = i)) as [->|Hne].
  - rewrite (findOneAndUpdate_by_id q u i s Hq).
    destruct (s !! i) as [b|] eqn:Hb; [|by left].
    destruct (matches q (i, b)) eqn:Hm; [|left; exact Hb].
    right. split; [done|]. exists b. simpl. by rewrite lookup_insert_eq.
  - left. by apply findOneAndUpdate_other with (j := j).
Qed.

Lemma write_keeps_flag (q : Query) (u : Update) (j i : ObjectId) k (s : Store) :
  q_id q = Some j →
  (∀ b, flagKept k b (applyUpdate u b)) →
  docRel i (flagKept k) s (findOneAndUpdate q u s).1.
Proof.
  intros Hq Hu. unfold docRel.
  destruct (write_by_id_cases q u j i s Hq) as [->|(_ & b & Hb & _ & ->)].
  - destruct (s !! i) as [b|]; [|done]. by exists b.
  - rewrite Hb. exists (applyUpdate u b). split; [done|apply Hu].
Qed.

(** Activation and the reminder jobs never clear a flag. *)
Lemma tick_keeps_flag env io j now k i w :
  j ≠ NoShow →
  docRel i (flagKept k) (store w) (store (exec (tick env io j now) w)).
Proof.
  intros Hj.
  assert (Hrem : ∀ k', docRel i (flagKept k) (store w)
                         (store (exec (reminderJob env io k' now) w))).
  { intros k'. rewrite reminderJob_unfold.
    apply (poll_frame anyEvent (docRel i (flagKept k))); [done..|].
    intros x _. apply remindBooking_preserves; [apply _|done|done| |].
    - intros y. apply quietExtra_preserves; [apply _|done|apply reminderExtra_quiet].
    - intros s. rewrite updateOne_store. apply write_keeps_flag with (j := x.1); [done|].
      intros b Hb. destruct k, k'; done. }
  destruct j; [|apply (Hrem H24)|apply (Hrem H1)|apply (Hrem Min15)|done].
  simpl. rewrite activateScheduledBookings_poll.
  apply (poll_frame anyEvent (docRel i (flagKept k))); [done..|].
  intros x _. apply activateBooking_preserves; [apply _|done|done|].
  intros s. rewrite updateOne_store. apply write_keeps_flag with (j := x.1); [done|].
  intros b Hb. destruct k; done.
Qed.

(** A no-show tick leaves a document alone or recovers it. *)
Lemma noShow_tick_rel env io now i w :
  noShowRel now i (store w) (store (exec (handleNoShowSafety env io now) w)).
Proof.
  rewrite handleNoShowSafety_poll.
  apply (poll_frame anyEvent (noShowRel now i)); [done..|].
  intros x _. apply recoverNoShow_preserves; [apply _|done|done|done|].
  intros s. destruct (write_by_id_cases (noShowGuard x.1) (noShowUpdate now) x.1 i s eq_refl)
    as [H|(Hx & b & Hb & Hm & H)]; [by left|].
  right. exists b. rewrite Hx in Hm. done.
Qed.

Lemma worldAfter_S env io steps w n st :
  steps !! n = Some st →
  worldAfter env io steps w (S n) = step env io st (worldAfter env io steps w n).
Proof.
  intros Hn. unfold worldAfter, runSteps.
  rewrite (take_S_r _ _ _ Hn), fold_left_app. done.
Qed.

Lemma worldAfter_ge env io steps w n :
  steps !! n = None → worldAfter env io steps w (S n) = worldAfter env io steps w n.
Proof.
  intros Hn. apply lookup_ge_None in Hn. unfold worldAfter.
  rewrite !take_ge by lia. done.
Qed.

(** The only step that takes a set flag away is a no-show tick that
    recovers the booking. *)
Lemma step_loses_flag env io st k i w :
  keepsFlags st →
  flagOf k i w = Some true →
  flagOf k i (step env io st w) ≠ Some true →
  ∃ now b, st = Tick NoShow now
           ∧ store w !! i = Some b ∧ status b = "accepted" ∧ noShowAt b = None
           ∧ store (step env io st w) !! i = Some (applyUpdate (noShowUpdate now) b).
Proof.
  intros Hst Hset Hlost. unfold flagOf in *.
  destruct (store w !! i) as [b|] eqn:Hb; [|done]. injection Hset as Hset.
  destruct st as [j now|f]; simpl in *.
  - destruct (decide (j = NoShow)) as [->|Hj].
    + pose proof (noShow_tick_rel env io now i w) as [Hsame|(b' & Hb' & Hm & Hrec)].
      * simpl in Hlost. rewrite Hsame, Hb in Hlost. by rewrite Hset in Hlost.
      * rewrite Hb in Hb'. injection Hb' as <-.
        apply matches_noShowGuard in Hm as [? ?]. by exists now, b.
    + pose proof (tick_keeps_flag env io j now k i w Hj) as Hkeep.
      unfold docRel in Hkeep. rewrite Hb in Hkeep.
      destruct Hkeep as (b' & Hb' & Hflag). rewrite Hb' in Hlost.
      by rewrite (Hflag Hset) in Hlost.
  - destruct (Hst (store w) i b Hb) as (b' & Hb' & Hr).
    rewrite Hb', Hr in Hlost. by rewrite Hset in Hlost.
Qed.

(** If a property holds at [a] and fails at [b ≥ a], it is lost at some
    step in between. *)
Lemma last_before_loss (f : nat → bool) (a b : nat) :
  (a ≤ b)%nat → f a = true → f b = false →
  ∃ m, (a ≤ m < b)%nat ∧ f m = true ∧ f (S m) = false.
Proof.
  intros Hab Ha Hb. induction b as [|b IH].
  - replace a with 0%nat in Ha by lia. congruence.
  - destruct (decide (a = S b)) as [->|Hne]; [congruence|].
    destruct (f b) eqn:Hfb.
    + exists b. split; [lia|done].
    + destruct IH as (m & Hm & HPm & HPSm); [lia|done|].
      exists m. split; [lia|done].
Qed.

(** ** The sample environments *)

Lemma calmEnv_errorsOnly : errorsOnly calmEnv.
Proof. intros t e. discriminate. Qed.

Lemma pushDownEnv_errorsOnly : errorsOnly pushDownEnv.
Proof. intros t e. by destruct e. Qed.

Lemma otherWritesDownEnv_errorsOnly : errorsOnly otherWritesDownEnv.
Proof.
  intros t e. destruct e as [[q|q u|q u]| | | | | | | | | | |]; simpl; try done;
    by destruct (q_id q) as [[|[[]|[]|]]|].
Qed.

(** * The properties of the specification *)

(** C1.  No-show recovery.  A booking with [status = accepted], [scheduledAt]
    at least 30 minutes before [now], [noShowAt] null and a technician
    assigned is, by a tick of the no-show job that succeeds for it (the query,
    the conditional update and the re-broadcast do not fail, and no other
    booking of the batch ends the loop early), left with
    [technicianId = null], [status = requested], the three reminder flags
    false, [assignedAt = null] and [noShowAt = now]; the tick invokes the
    matching service and the customer notification exactly once each for
    that booking. *)
Theorem noShow_recovery env io now w i b t tech :
  store w !! i = Some b →
  status b = "accepted" →
  scheduledAt b = Some t →
  t ≤ now - 30 * 60 * 1000 →
  noShowAt b = None →
  technicianId b = Some tech →
  throws env (trace w) (EStore (Find (noShowQuery (now - 30 * 60 * 1000)))) = None →
  (∀ h, throws env h (EStore (FindOneAndUpdate (noShowGuard i) (noShowUpdate now))) = None) →
  (∀ h, throws env h (EMatch i) = None ∧ is_Some (matchResult env h i)) →
  othersReturn i (recoverNoShow env io now) →
  let w' := exec (handleNoShowSafety env io now) w in
  store w' !! i
  = Some {| status := "requested"; scheduledAt := Some t; technicianId := None;
            customerId := customerId b;
            remindersSent := {| h24 := false; h1 := false; min15 := false |};
            noShowAt := Some now; assignedAt := None;
            addressSnapshot := addressSnapshot b; location := location b |}
  ∧ calls (isMatch i) (trace w') = S (calls (isMatch i) (trace w))
  ∧ calls (isNotify i) (trace w') = S (calls (isNotify i) (trace w)).
Proof.
  intros Hb Hst Hat Ht Hns Htech Hfind Hupd Hmatch Hothers w'. subst w'.
  rewrite handleNoShowSafety_poll.
  destruct (poll_selected env (noShowQuery (now - 30 * 60 * 1000))
              "[CRON:NOSHOW] Detected no-show booking(s)" "[CRON:NOSHOW] Fatal error"
              (recoverNoShow env io now) w i b) as (w1 & [Hs1 Ht1] & [Hs2 Ht2]).
  - exact Hothers.
  - intros x Hx. by apply recoverNoShow_frame.
  - done.
  - apply find_spec. split; [done|]. apply matches_noShowQuery. simpl.
    rewrite Hst, Hat, Hns, Htech. eauto 10.
  - unfold sameAt in Hs1. rewrite Hb in Hs1.
    destruct (recoverNoShow_exec env io now i b b w1) as (d & Hx & Hd); [done| |done..|].
    { apply matches_noShowGuard. done. }
    rewrite Hx in Hs2, Ht2. unfold sameAt in Hs2. simpl in Hs2, Ht2.
    rewrite lookup_insert_eq in Hs2.
    apply calls_extends_notAbout in Ht1 as (Hm1 & Hn1 & _).
    apply calls_extends_notAbout in Ht2 as (Hm2 & Hn2 & _).
    rewrite Hs2, Hm2, Hn2, !calls_app, Hm1, Hn1, !calls_cons.
    rewrite (calls_gateway _ d (gateway_isMatch i) Hd).
    rewrite (calls_gateway _ d (gateway_isNotify i) Hd).
    simpl. rewrite N.eqb_refl.
    split; [|lia]. unfold applyUpdate. simpl. by rewrite Hat.
Qed.

Lemma noShow_recovery_witness :
  let w' := exec (handleNoShowSafety calmEnv (Some socketServer) (minutes 31)) sampleWorld in
  store w' !! 1%N
  = Some {| status := "requested"; scheduledAt := Some 0; technicianId := None;
            customerId := Some 9%N;
            remindersSent := {| h24 := false; h1 := false; min15 := false |};
            noShowAt := Some (minutes 31); assignedAt := None;
            addressSnapshot := None; location := None |}
  ∧ calls (isMatch 1%N) (trace w') = 1%nat
  ∧ calls (isNotify 1%N) (trace w') = 1%nat.
Proof.
  apply (noShow_recovery calmEnv (Some socketServer) (minutes 31) sampleWorld
           1%N lateBooking 0 7%N).
  - reflexivity.
  - reflexivity.
  - reflexivity.
  - vm_compute. discriminate.
  - reflexivity.
  - reflexivity.
  - reflexivity.
  - intros h. reflexivity.
  - intros h. split; [reflexivity | eexists; reflexivity].
  - intros x _. apply recoverNoShow_returns, calmEnv_errorsOnly.
Defined.

(** C2.  Activation.  The activation job selects exactly the bookings with
    [status = scheduled] and [scheduledAt ≤ now + 15min] (no lower bound).
    When the store does not fail and no other booking of the batch ends the
    loop early, one tick leaves a selected booking with [status = requested]
    (nothing else changed) and invokes the matching service exactly once for
    it; a booking that is not selected is left as it was and the matching
    service is not invoked for it. *)
Theorem activation_tick env io now w i b :
  (∀ h op, throws env h (EStore op) = None) →
  store w !! i = Some b →
  let selected :=
    status b = "scheduled" ∧ ∃ t, scheduledAt b = Some t ∧ t ≤ now + 15 * 60 * 1000 in
  let w' := exec (activateScheduledBookings env io now) w in
  ((i, b) ∈ find (activationQuery (now + 15 * 60 * 1000)) (store w) ↔ selected)
  ∧ (selected → othersReturn i (activateBooking env io) →
     store w' !! i
     = Some {| status := "requested"; scheduledAt := scheduledAt b;
               technicianId := technicianId b; customerId := customerId b;
               remindersSent := remindersSent b; noShowAt := noShowAt b;
               assignedAt := assignedAt b; addressSnapshot := addressSnapshot b;
               location := location b |}
     ∧ calls (isMatch i) (trace w') = S (calls (isMatch i) (trace w)))
  ∧ (¬ selected →
     store w' !! i = Some b
     ∧ calls (isMatch i) (trace w') = calls (isMatch i) (trace w)).
Proof.
  intros Hstore Hb selected w'. subst w'.
  assert (Hsel : (i, b) ∈ find (activationQuery (now + 15 * 60 * 1000)) (store w) ↔ selected).
  { rewrite find_spec, matches_activationQuery. simpl. subst selected. tauto. }
  split; [exact Hsel|]. rewrite activateScheduledBookings_poll. split.
  - intros Hyes Hothers.
    destruct (poll_selected env (activationQuery (now + 15 * 60 * 1000))
                "[CRON:ACTIVATE] Found scheduled booking(s) to activate"
                "[CRON:ACTIVATE] Fatal error"
                (activateBooking env io) w i b) as (w1 & [Hs1 Ht1] & [Hs2 Ht2]).
    + exact Hothers.
    + intros x Hx. by apply activateBooking_frame.
    + apply Hstore.
    + by apply Hsel.
    + unfold sameAt in Hs1. rewrite Hb in Hs1.
      destruct (activateBooking_exec env io i b w1) as (d & Hx & Hd); [apply Hstore|].
      rewrite Hx in Hs2, Ht2. unfold sameAt in Hs2. simpl in Hs2, Ht2.
      rewrite (updateOne_by_id _ _ i) in Hs2 by done. rewrite Hs1 in Hs2.
      destruct Hyes as [Hst _].
      rewrite (proj2 (matches_activationGuard i b) Hst) in Hs2. simpl in Hs2.
      rewrite lookup_insert_eq in Hs2.
      apply calls_extends_notAbout in Ht1 as (Hm1 & _).
      apply calls_extends_notAbout in Ht2 as (Hm2 & _).
      rewrite Hs2, Hm2, calls_app, Hm1, !calls_cons.
      rewrite (calls_gateway _ d (gateway_isMatch i) Hd).
      simpl. rewrite N.eqb_refl. split; [|lia].
      destruct b as [? ? ? ? [? ? ?] ? ? ? ?]. done.
  - intros Hno.
    destruct (poll_not_selected env (activationQuery (now + 15 * 60 * 1000))
                "[CRON:ACTIVATE] Found scheduled booking(s) to activate"
                "[CRON:ACTIVATE] Fatal error"
                (activateBooking env io) w i) as [Hs Ht].
    + intros x Hx. by apply activateBooking_frame.
    + intros Hin. apply list_elem_of_fmap in Hin as ([j b'] & Hj & Hin).
      simpl in Hj. subst j. apply Hno, Hsel.
      pose proof Hin as [Hl _]%find_spec. simpl in Hl.
      rewrite Hb in Hl. by injection Hl as ->.
    + unfold sameAt in Hs. rewrite Hs, Hb.
      by apply calls_extends_notAbout in Ht as (-> & _).
Qed.

Lemma activation_tick_witness :
  let w' := exec (activateScheduledBookings calmEnv (Some socketServer) 0) sampleWorld in
  (status <$> store w' !! 2%N) = Some "requested"
  ∧ calls (isMatch 2%N) (trace w') = 1%nat.
Proof.
  pose proof (activation_tick calmEnv (Some socketServer) 0 sampleWorld 2%N dueBooking
                (fun _ _ => eq_refl) eq_refl) as (_ & Hyes & _).
  destruct Hyes as [Hs Hc].
  - split; [reflexivity|]. exists (minutes 10). split; [reflexivity|]. vm_compute. discriminate.
  - intros x _. apply activateBooking_returns, calmEnv_errorsOnly.
  - simpl. rewrite Hs, Hc. done.
Defined.

(** C3.  A reminder flag rises at most once between two no-show resets.  In
    every run of ticks of the five jobs, interleaved with writes of the
    outside flows that leave the reminder flags alone, and for every booking
    and kind: (1) a tick of the reminder job of that kind does not enter the
    composer for a booking whose flag is already true; (2) a step after
    which a set flag is no longer set is a no-show tick that recovered the
    booking; (3) between two steps at which the flag goes from false to true
    there is a no-show tick that reset it and stamped [noShowAt]. *)
Theorem reminder_flag_once_per_assignment env io k i steps w0 :
  Forall keepsFlags steps →
  let world := worldAfter env io steps w0 in
  (∀ n now,
     steps !! n = Some (Tick (jobOf k) now) →
     flagOf k i (world n) = Some true →
     (∀ b, (i, b) ∉ find (reminderQuery k (now + (window k).1) (now + (window k).2))
                      (store (world n)))
     ∧ calls (isReminder i) (trace (world (S n))) = calls (isReminder i) (trace (world n)))
  ∧ (∀ n,
       flagOf k i (world n) = Some true →
       flagOf k i (world (S n)) ≠ Some true →
       ∃ now b, steps !! n = Some (Tick NoShow now)
                ∧ store (world n) !! i = Some b
                ∧ status b = "accepted" ∧ noShowAt b = None
                ∧ store (world (S n)) !! i = Some (applyUpdate (noShowUpdate now) b))
  ∧ (∀ n1 n2,
       (n1 < n2)%nat →
       flagOf k i (world n1) = Some false → flagOf k i (world (S n1)) = Some true →
       flagOf k i (world n2) = Some false → flagOf k i (world (S n2)) = Some true →
       ∃ m now, (n1 < m < n2)%nat
                ∧ steps !! m = Some (Tick NoShow now)
                ∧ flagOf k i (world m) = Some true
                ∧ flagOf k i (world (S m)) = Some false
                ∧ (noShowAt <$> store (world (S m)) !! i) = Some (Some now)).
Proof.
  intros Hout world.
  assert (Hloss : ∀ n,
            flagOf k i (world n) = Some true →
            flagOf k i (world (S n)) ≠ Some true →
            ∃ now b, steps !! n = Some (Tick NoShow now)
                     ∧ store (world n) !! i = Some b
                     ∧ status b = "accepted" ∧ noShowAt b = None
                     ∧ store (world (S n)) !! i = Some (applyUpdate (noShowUpdate now) b)).
  { intros n Hset Hlost. subst world. cbv beta in *.
    destruct (steps !! n) as [st|] eqn:Hn.
    - rewrite (worldAfter_S _ _ _ _ _ _ Hn) in *.
      assert (Hst : keepsFlags st).
      { rewrite Forall_forall in Hout. apply Hout. by apply list_elem_of_lookup_2 in Hn. }
      destruct (step_loses_flag env io st k i _ Hst Hset Hlost) as (now & b & -> & H).
      by exists now, b.
    - rewrite (worldAfter_ge _ _ _ _ _ Hn) in Hlost. done. }
  split; [|split; [exact Hloss|]].
  - intros n now Hn Hset. subst world. cbv beta in *.
    rewrite (worldAfter_S _ _ _ _ _ _ Hn). simpl.
    set (w := worldAfter env io steps w0 n) in *.
    assert (Hnot : i ∉ (find (reminderQuery k (now + (window k).1) (now + (window k).2))
                          (store w)).*1).
    { intros Hin. apply list_elem_of_fmap in Hin as ([j b] & Hj & Hin).
      simpl in Hj. subst j. apply find_spec in Hin as [Hb Hm]. simpl in Hb.
      apply matches_reminderQuery in Hm as (_ & Hflag & _). simpl in Hflag.
      unfold flagOf in Hset. rewrite Hb in Hset. congruence. }
    split.
    { intros b Hin. apply Hnot. apply list_elem_of_fmap. by exists (i, b). }
    replace (tick env io (jobOf k) now) with (reminderJob env io k now) by (by destruct k).
    rewrite reminderJob_unfold.
    destruct (poll_not_selected env
                (reminderQuery k (now + (window k).1) (now + (window k).2))
                (reminderTag k) (reminderTag k) (reminderBody env io k) w i) as [_ Ht];
      [|exact Hnot|by apply calls_extends_notAbout in Ht as (_ & _ & ->)].
    intros x Hx. apply remindBooking_frame; [|done].
    intros y. apply quietExtra_preserves; [apply _|apply gatewayEvent_notAbout|].
    apply reminderExtra_quiet.
  - intros n1 n2 Hlt Hf1 Ht1 Hf2 Ht2.
    set (f := fun n => match flagOf k i (world n) with Some true => true | _ => false end).
    destruct (last_before_loss f (S n1) n2) as (m & Hm & Hfm & HfSm).
    + lia.
    + unfold f. by rewrite Ht1.
    + unfold f. by rewrite Hf2.
    + unfold f in Hfm, HfSm.
      assert (Hset : flagOf k i (world m) = Some true).
      { destruct (flagOf k i (world m)) as [[]|]; done. }
      assert (Hlost : flagOf k i (world (S m)) ≠ Some true).
      { intros H. by rewrite H in HfSm. }
      destruct (Hloss m Hset Hlost) as (now & b & Hstep & Hb & _ & _ & Hrec).
      exists m, now. split; [lia|]. split; [done|]. split; [done|].
      unfold flagOf. rewrite Hrec. simpl. by destruct k.
Qed.

Lemma reaccept_keepsFlags i : keepsFlags (Outside (reaccept i)).
Proof.
  intros s j b Hb. unfold reaccept. destruct (decide (i = j)) as [->|Hne].
  - rewrite lookup_alter_eq, Hb. simpl. eauto.
  - rewrite lookup_alter_ne by done. eauto.
Qed.

(** In the sample run the 24-hour flag of booking 3 rises at steps 0 and 3;
    the no-show tick in between is the reset. *)
Lemma reminder_flag_once_per_assignment_witness :
  ∃ m now, (0 < m < 3)%nat
           ∧ sampleRun !! m = Some (Tick NoShow now)
           ∧ flagOf H24 3%N (worldAfter calmEnv None sampleRun edgeWorld m) = Some true
           ∧ flagOf H24 3%N (worldAfter calmEnv None sampleRun edgeWorld (S m)) = Some false
           ∧ (noShowAt <$> store (worldAfter calmEnv None sampleRun edgeWorld (S m)) !! 3%N)
             = Some (Some now).
Proof.
  destruct (reminder_flag_once_per_assignment calmEnv None H24 3%N sampleRun edgeWorld)
    as (_ & _ & Hbetween).
  - repeat constructor. apply reaccept_keepsFlags.
  - apply (Hbetween 0%nat 3%nat); [lia|reflexivity..].
Defined.

(** C4.  Selection by a reminder job.  The job of kind [k] selects a booking
    exactly when [status = accepted], the flag of [k] is false and
    [scheduledAt] lies in the job's window, both edges included:
    [now+23h, now+25h] for the 24h job, [now+55min, now+65min] for the 1h job,
    [now+10min, now+20min] for the 15min job.  When the query does not fail,
    the tick enters the composer once for a selected booking (provided no
    other booking of the batch ends the loop early) and not at all for any
    other booking. *)
Theorem reminder_selection env io k now w i b :
  throws env (trace w)
    (EStore (Find (reminderQuery k (now + (window k).1) (now + (window k).2)))) = None →
  store w !! i = Some b →
  let lo := match k with H24 => 82800000 | H1 => 3300000 | Min15 => 600000 end in
  let hi := match k with H24 => 90000000 | H1 => 3900000 | Min15 => 1200000 end in
  let selected :=
    status b = "accepted" ∧ flag k (remindersSent b) = false
    ∧ ∃ t, scheduledAt b = Some t ∧ now + lo ≤ t ≤ now + hi in
  let w' := exec (reminderJob env io k now) w in
  ((i, b) ∈ find (reminderQuery k (now + (window k).1) (now + (window k).2)) (store w)
   ↔ selected)
  ∧ (selected → othersReturn i (reminderBody env io k) →
     calls (isReminder i) (trace w') = S (calls (isReminder i) (trace w)))
  ∧ (¬ selected → calls (isReminder i) (trace w') = calls (isReminder i) (trace w)).
Proof.
  intros Hfind Hb lo hi selected w'.
  assert (Hw : window k = (lo, hi)) by (by destruct k).
  assert (Hsel : matches (reminderQuery k (now + (window k).1) (now + (window k).2)) (i, b) = true
                 ↔ selected).
  { rewrite matches_reminderQuery, Hw. done. }
  destruct (reminder_tick env io k now w i b Hfind Hb) as [Hyes Hno].
  split; [|split].
  - rewrite find_spec. simpl. rewrite <- Hsel. tauto.
  - intros H Hothers. apply Hsel in H. by apply Hyes.
  - intros H. apply Hno. apply not_true_is_false. by rewrite Hsel.
Qed.

(** At time 0 the 24-hour job takes the booking due in exactly 23 hours and
    leaves the one due in 25 hours and one second. *)
Lemma reminder_selection_witness :
  let w' := exec (reminderJob calmEnv None H24 0) edgeWorld in
  calls (isReminder 3%N) (trace w') = 1%nat
  ∧ calls (isReminder 4%N) (trace w') = 0%nat.
Proof.
  intros w'. split.
  - destruct (reminder_selection calmEnv None H24 0 edgeWorld 3%N (acceptedAt (hours 23))
                eq_refl eq_refl) as (_ & Hyes & _).
    apply Hyes.
    + split; [reflexivity|]. split; [reflexivity|].
      exists (hours 23). split; [reflexivity|]. vm_compute. split; discriminate.
    + intros x _. apply remindBooking_returns;
        [apply calmEnv_errorsOnly|apply reminderExtra_quiet].
  - destruct (reminder_selection calmEnv None H24 0 edgeWorld 4%N (acceptedAt (hours 25 + 1000))
                eq_refl eq_refl) as (_ & _ & Hno).
    apply Hno. intros (_ & _ & t & Ht & _ & Hhi). injection Ht as <-.
    vm_compute in Hhi. by apply Hhi.
Defined.

(** C5.  Idempotency-guard miss.  When the conditional update of the no-show
    job finds no document with this id that still has [status = accepted]
    and [noShowAt] null, the loop body returns normally, the store is
    unchanged, and the only thing that happened is the store call itself:
    no error is logged, the matching service is not invoked and the customer
    is not notified. *)
Theorem noShow_guard_miss env io now i b0 w :
  (findOneAndUpdate (noShowGuard i) (noShowUpdate now) (store w)).2 = None →
  throws env (trace w) (EStore (FindOneAndUpdate (noShowGuard i) (noShowUpdate now))) = None →
  let w' := exec (recoverNoShow env io now (i, b0)) w in
  result (recoverNoShow env io now (i, b0)) w = Returns tt
  ∧ store w' = store w
  ∧ trace w' = trace w ++ [EStore (FindOneAndUpdate (noShowGuard i) (noShowUpdate now))]
  ∧ calls (isMatch i) (trace w') = calls (isMatch i) (trace w)
  ∧ calls (isNotify i) (trace w') = calls (isNotify i) (trace w).
Proof.
  intros Hmiss Hu w'. subst w'. unfold exec, result.
  assert (Hb : ∀ b, store w !! i = Some b → matches (noShowGuard i) (i, b) = false).
  { intros b Hb. rewrite (findOneAndUpdate_by_id _ _ i) in Hmiss by done.
    rewrite Hb in Hmiss. by destruct (matches (noShowGuard i) (i, b)). }
  rewrite (recoverNoShow_miss env io now i b0 w Hb Hu).
  unfold record, calls. simpl. rewrite !List.filter_app, !length_app. simpl.
  repeat split; lia.
Qed.

(** The booking was recovered by another instance after this one had read
    it: the stale document is skipped. *)
Lemma noShow_guard_miss_witness :
  let handled := exec (handleNoShowSafety calmEnv None (minutes 31)) sampleWorld in
  let w' := exec (recoverNoShow calmEnv None (minutes 33) (1%N, lateBooking)) handled in
  store w' = store handled
  ∧ calls (isMatch 1%N) (trace w') = calls (isMatch 1%N) (trace handled)
  ∧ calls (isNotify 1%N) (trace w') = calls (isNotify 1%N) (trace handled).
Proof.
  intros handled.
  destruct (noShow_guard_miss calmEnv None (minutes 33) 1%N lateBooking handled)
    as (_ & Hs & _ & Hm & Hn).
  - reflexivity.
  - reflexivity.
  - simpl. by rewrite Hs, Hm, Hn.
Defined.

(** C6.  The flag is set whatever the composer returned.  The loop body of
    every reminder job first invokes the composer for the booking, once.
    Whatever result [r] the composer returned, success or failure, the body
    goes on from the world the composer left: it does what the job does in
    between (the navigation event of the 15-minute job), then makes the
    unconditional update of the flag, filtered on [_id] alone, and when that
    write does not throw the flag of the job's kind is true afterwards.  For
    a booking without technician the composer returns the failure
    "No technician assigned", which is one such result.  So after a tick in
    which no call rejects with [null] or [undefined], a selected booking has
    had the composer invoked for it and has its flag set, and no window of
    that job selects it any more. *)
Theorem reminder_flag_set_regardless env io k i :
  (∀ h, throws env h (EStore (UpdateOne (byId i) (reminderUpdate k))) = None) →
  (∀ b0 w b r wc,
     store w !! i = Some b →
     sendScheduledReminder env (i, b0) (kindKey k) io w = (Returns r, wc) →
     let w' := exec (reminderBody env io k (i, b0)) w in
     calls (isReminder i) (trace w') = S (calls (isReminder i) (trace w))
     ∧ (∃ d, Forall gatewayEvent d
             ∧ trace w' = trace wc ++ d ++ [EStore (UpdateOne (byId i) (reminderUpdate k))])
     ∧ store w' = (updateOne (byId i) (reminderUpdate k) (store wc)).1
     ∧ store w' !! i = Some (applyUpdate (reminderUpdate k) b)
     ∧ flag k (remindersSent (applyUpdate (reminderUpdate k) b)) = true)
  ∧ (∀ b0 w,
       technicianId b0 = None →
       sendScheduledReminder env (i, b0) (kindKey k) io w
       = (Returns {| success := false; reason := Some "No technician assigned";
                     error := None |},
          record (EReminder i (kindKey k)) w))
  ∧ (∀ now w b,
       errorsOnly env →
       throws env (trace w)
         (EStore (Find (reminderQuery k (now + (window k).1) (now + (window k).2)))) = None →
       (i, b) ∈ find (reminderQuery k (now + (window k).1) (now + (window k).2)) (store w) →
       let w' := exec (reminderJob env io k now) w in
       calls (isReminder i) (trace w') = S (calls (isReminder i) (trace w))
       ∧ ∃ b', store w' !! i = Some b'
               ∧ flag k (remindersSent b') = true
               ∧ ∀ windowMin windowMax,
                   (i, b') ∉ find (reminderQuery k windowMin windowMax) (store w')).
Proof.
  intros Hu. split; [|split].
  - intros b0 w b r wc Hb Hc w'. subst w'.
    destruct (sendScheduledReminder_spec env (i, b0) (kindKey k) io w)
      as (r' & d1 & Hx & Hd1 & _).
    rewrite Hc in Hx. injection Hx as _ ->.
    destruct (remindBooking_after_composer env k (reminderTag k) (reminderExtra io k) io
                i b0 w r _ (reminderExtra_quiet io k) Hc) as (d2 & Hd2 & Hbody).
    unfold reminderBody, exec. rewrite Hbody. cbv zeta. rewrite Hu. simpl.
    split; [|split; [by exists d2|split; [done|split; [|apply applyUpdate_reminder_flag]]]].
    + rewrite !calls_app, calls_cons.
      assert (Hgr : ∀ e, gatewayEvent e → isReminder i e = false)
        by (intros e He; apply quiet_isReminder, gatewayEvent_quiet, He).
      rewrite (calls_gateway _ d1 Hgr Hd1), (calls_gateway _ d2 Hgr Hd2).
      unfold calls. simpl. rewrite N.eqb_refl. simpl. lia.
    + rewrite (updateOne_by_id _ _ i) by done.
      rewrite Hb, matches_byId. simpl. by rewrite lookup_insert_eq.
  - intros b0 w Hnone. unfold sendScheduledReminder, bind, try_catch, emit. simpl.
    by rewrite Hnone.
  - intros now w b He Hfind [Hb Hm]%find_spec w'. simpl in Hb, Hm.
    destruct (reminder_tick env io k now w i b Hfind Hb) as [Hyes _].
    destruct (Hyes Hm) as [Hcalls Hst].
    { intros x _. by apply remindBooking_returns; [|apply reminderExtra_quiet]. }
    split; [exact Hcalls|].
    exists (applyUpdate (reminderUpdate k) b). split.
    { apply Hst; [by apply sendScheduledReminder_returns|exact Hu]. }
    split; [apply applyUpdate_reminder_flag|].
    intros lo hi [_ Hin]%find_spec. apply matches_reminderQuery in Hin as (_ & Hflag & _).
    cbn [snd] in Hflag. by rewrite applyUpdate_reminder_flag in Hflag.
Qed.

(** The push transport is down, so the composer fails for booking 3; the
    technician of booking 5 is missing, so the composer reports it.  Both
    come out of the 24-hour tick with their flag set. *)
Lemma reminder_flag_set_regardless_witness :
  let w' := exec (reminderJob pushDownEnv None H24 0) edgeWorld in
  (h24 ∘ remindersSent <$> store w' !! 3%N) = Some true
  ∧ (h24 ∘ remindersSent <$> store w' !! 5%N) = Some true.
Proof.
  intros w'. split.
  - destruct (reminder_flag_set_regardless pushDownEnv None H24 3%N (fun _ => eq_refl))
      as (_ & _ & Htick).
    destruct (Htick 0 edgeWorld (acceptedAt (hours 23)) pushDownEnv_errorsOnly eq_refl)
      as (_ & b' & Hb' & Hflag & _).
    + apply find_spec. split; reflexivity.
    + fold w' in Hb'. rewrite Hb'. simpl. by rewrite <- Hflag.
  - destruct (reminder_flag_set_regardless pushDownEnv None H24 5%N (fun _ => eq_refl))
      as (_ & _ & Htick).
    destruct (Htick 0 edgeWorld
                (mkBooking "accepted" (Some (hours 24)) None (Some 9%N)
                   (mkRemindersSent false false false) None None None None)
                pushDownEnv_errorsOnly eq_refl)
      as (_ & b' & Hb' & Hflag & _).
    + apply find_spec. split; reflexivity.
    + fold w' in Hb'. rewrite Hb'. simpl. by rewrite <- Hflag.
Defined.

(** In that run the composer did fail for booking 3. *)
Example composer_fails_when_push_fails :
  result (sendScheduledReminder pushDownEnv (3%N, acceptedAt (hours 23)) "h24" None) edgeWorld
  = Returns {| success := false; reason := None; error := Some "push failed" |}.
Proof. reflexivity. Qed.

(** C7.  The status flip of the activation job is a guarded compare-and-set.
    The loop body of the job makes one store call, the write
    [updateOne({ _id, status: "scheduled" }, { $set: { status: "requested" } })],
    and the store it leaves is the store after that call, whatever the
    broadcast does afterwards.  The write applies only when the stored status
    is still [scheduled].  When two instances that both read the booking
    while it was scheduled run the body one after the other, the first makes
    the transition scheduled → requested (one document matched, no other
    field touched) and the second matches nothing and leaves the store as
    the first left it: one transition and one no-op. *)
Theorem activation_compare_and_set env io i b0 b0' w b :
  store w !! i = Some b →
  (∀ h, throws env h (EStore (UpdateOne (activationGuard i) activationUpdate)) = None) →
  let w1 := exec (activateBooking env io (i, b0)) w in
  let w2 := exec (activateBooking env io (i, b0')) w1 in
  let first := updateOne (activationGuard i) activationUpdate (store w) in
  let second := updateOne (activationGuard i) activationUpdate (store w1) in
  (store w1 = first.1 ∧ store w2 = second.1)
  ∧ (∃ d, trace w1 = trace w ++ [EStore (UpdateOne (activationGuard i) activationUpdate);
                                 EMatch i] ++ d
          ∧ Forall gatewayEvent d)
  ∧ (status b ≠ "scheduled" → matchedCount first.2 = 0%nat ∧ store w1 = store w)
  ∧ (status b = "scheduled" →
     matchedCount first.2 = 1%nat
     ∧ store w1 = <[i := applyUpdate activationUpdate b]> (store w)
     ∧ (status <$> store w1 !! i) = Some "requested"
     ∧ matchedCount second.2 = 0%nat
     ∧ store w2 = store w1).
Proof.
  intros Hb Hu w1 w2 first second.
  destruct (activateBooking_exec env io i b0 w (Hu _)) as (d1 & Hx1 & Hd1).
  destruct (activateBooking_exec env io i b0' w1 (Hu _)) as (d2 & Hx2 & Hd2).
  assert (Hs1 : store w1 = first.1) by (subst w1; by rewrite Hx1).
  assert (Hs2 : store w2 = second.1) by (subst w2; by rewrite Hx2).
  split; [done|]. split; [exists d1; subst w1; by rewrite Hx1|].
  rewrite Hs2, Hs1. subst first second. rewrite Hs1.
  rewrite !(updateOne_by_id _ _ i) by done. rewrite Hb.
  destruct (matches (activationGuard i) (i, b)) eqn:Hm.
  - apply matches_activationGuard in Hm. split; [done|]. intros _. simpl.
    by rewrite lookup_insert_eq, activationGuard_once.
  - split; [done|]. intros Hst. apply (matches_activationGuard i) in Hst. congruence.
Qed.

(** Two instances read booking 2 while it is scheduled; the second runs its
    body after the first. *)
Lemma activation_compare_and_set_witness :
  let w1 := exec (activateBooking calmEnv None (2%N, dueBooking)) sampleWorld in
  let w2 := exec (activateBooking calmEnv None (2%N, dueBooking)) w1 in
  (status <$> store w1 !! 2%N) = Some "requested"
  ∧ store w2 = store w1.
Proof.
  intros w1 w2.
  destruct (activation_compare_and_set calmEnv None 2%N dueBooking dueBooking sampleWorld
              dueBooking eq_refl (fun _ => eq_refl)) as (_ & _ & _ & H).
  destruct (H eq_refl) as (_ & _ & H1 & _ & H2). split; [exact H1|exact H2].
Defined.

(** C8.  The composer is written never to throw: its whole body sits in a
    [try] whose handler returns [{ success: false, error: err.message }].
    But the handler reads [err.message]: when the technician lookup, the
    push or the socket notification rejects with [null] or [undefined], the
    handler itself throws, and the composer rejects with a TypeError instead
    of returning a result.  Below, the push transport rejects with
    [undefined].  Everywhere else the claim holds: when no call rejects with
    [null] or [undefined] the composer returns a result, and for a booking
    without technician it returns the failure "No technician assigned" and
    does nothing else (no lookup, no push, no socket event, no SMS), in
    every environment. *)
Theorem sendScheduledReminder_rejects :
  (let w' := exec (sendScheduledReminder (rejectingEnv isPush) (3%N, acceptedAt (hours 23))
                     "h24" None) edgeWorld in
   result (sendScheduledReminder (rejectingEnv isPush) (3%N, acceptedAt (hours 23)) "h24" None)
     edgeWorld
   = Throws messageTypeError
   ∧ calls isPush (trace w') = 1%nat
   ∧ last (trace w') = Some (EPush 7%N (Some "⏰ Reminder: Job Tomorrow")
                               (Some "Hi Asha, you have a scheduled job tomorrow at 01 Jan 2026, 10:00 am. Please be prepared!")
                               "reminder_h24" 3%N))
  ∧ (∀ env booking type io w,
       errorsOnly env →
       ∃ r, result (sendScheduledReminder env booking type io) w = Returns r)
  ∧ (∀ env booking type io w,
       technicianId booking.2 = None →
       sendScheduledReminder env booking type io w
       = (Returns {| success := false; reason := Some "No technician assigned";
                     error := None |},
          record (EReminder booking.1 type) w)).
Proof.
  split; [by vm_compute|]. split.
  - intros env booking type io w He. by apply sendScheduledReminder_returns.
  - intros env booking type io w Hnone.
    unfold sendScheduledReminder, bind, try_catch, emit. simpl. by rewrite Hnone.
Qed.

Lemma sendScheduledReminder_rejects_witness :
  sendScheduledReminder pushDownEnv (2%N, dueBooking) "h24" (Some socketServer) sampleWorld
  = (Returns {| success := false; reason := Some "No technician assigned"; error := None |},
     record (EReminder 2%N "h24") sampleWorld)
  ∧ ∃ r, result (sendScheduledReminder pushDownEnv (3%N, acceptedAt (hours 23)) "h24" None)
           edgeWorld = Returns r.
Proof.
  destruct sendScheduledReminder_rejects as (_ & Hreturns & Hnone). split.
  - apply (Hnone pushDownEnv (2%N, dueBooking) "h24" (Some socketServer) sampleWorld).
    reflexivity.
  - apply (Hreturns pushDownEnv (3%N, acceptedAt (hours 23)) "h24" None edgeWorld).
    apply pushDownEnv_errorsOnly.
Defined.

(** C9.  In the activation job the broadcast is not guarded by the
    compare-and-set: whenever the write does not throw, the matching service
    is invoked once for the booking, also when the write matched no document
    (the stored status is no longer [scheduled]) and so changed nothing.  Two
    instances that both read the booking while it was scheduled broadcast it
    twice. *)
Theorem activation_broadcast_unguarded env io i b0 w :
  (∀ h, throws env h (EStore (UpdateOne (activationGuard i) activationUpdate)) = None) →
  let w1 := exec (activateBooking env io (i, b0)) w in
  let w2 := exec (activateBooking env io (i, b0)) w1 in
  calls (isMatch i) (trace w1) = S (calls (isMatch i) (trace w))
  ∧ ((∀ b, store w !! i = Some b → status b ≠ "scheduled") →
     (updateOne (activationGuard i) activationUpdate (store w)).2 = mkUpdateResult 0
     ∧ store w1 = store w)
  ∧ calls (isMatch i) (trace w2) = S (S (calls (isMatch i) (trace w)))
  ∧ store w2 = store w1.
Proof.
  intros Hu w1 w2.
  assert (Hstep : ∀ w0, calls (isMatch i) (trace (exec (activateBooking env io (i, b0)) w0))
                        = S (calls (isMatch i) (trace w0))
                        ∧ store (exec (activateBooking env io (i, b0)) w0)
                          = (updateOne (activationGuard i) activationUpdate (store w0)).1).
  { intros w0. destruct (activateBooking_exec env io i b0 w0) as (d & -> & Hd); [apply Hu|].
    simpl. rewrite calls_app, !calls_cons.
    rewrite (calls_gateway _ d (gateway_isMatch i) Hd). simpl. rewrite N.eqb_refl.
    split; [lia|done]. }
  destruct (Hstep w) as [Hc1 Hs1]. destruct (Hstep w1) as [Hc2 Hs2].
  fold w1 in Hc1, Hs1. fold w2 in Hc2, Hs2.
  split; [exact Hc1|]. split; [|split; [by rewrite Hc2, Hc1|]].
  - intros Hno. rewrite Hs1, (updateOne_by_id _ _ i) by done.
    destruct (store w !! i) as [b|] eqn:Hb; [|done].
    destruct (matches (activationGuard i) (i, b)) eqn:Hm; [|done].
    apply matches_activationGuard in Hm. by destruct (Hno b eq_refl).
  - rewrite Hs2, Hs1. apply activation_write_idempotent.
Qed.

(** An instance that read booking 2 as scheduled runs its loop body after
    another instance has activated it: the booking is broadcast again. *)
Lemma activation_broadcast_unguarded_witness :
  let activated := exec (activateScheduledBookings calmEnv None 0) sampleWorld in
  let w1 := exec (activateBooking calmEnv None (2%N, dueBooking)) activated in
  calls (isMatch 2%N) (trace activated) = 1%nat
  ∧ calls (isMatch 2%N) (trace w1) = 2%nat
  ∧ store w1 = store activated.
Proof.
  intros activated w1.
  destruct (activation_broadcast_unguarded calmEnv None 2%N dueBooking activated)
    as (Hc & Hs & _); [intros h; reflexivity|].
  split; [reflexivity|]. split.
  - unfold w1. rewrite Hc. reflexivity.
  - apply Hs. intros b Hb. vm_compute in Hb. injection Hb as <-. discriminate.
Defined.

(** C10, as the code has it.  For a booking with a technician and a [type]
    that is no property of the [messages] object (neither one of its three
    keys nor a name inherited from Object.prototype) the composer attempts
    no push, socket event or SMS.  When the technician lookup succeeds, it
    returns the failure "Unknown reminder type"; when the lookup throws an
    error (a value whose message can be read), it returns a failure that
    carries that message and no reason.  In both cases it does not throw. *)
Theorem unknown_reminder_type env booking type io w tech :
  technicianId booking.2 = Some tech →
  type ≠ "h24" → type ≠ "h1" → type ≠ "min15" →
  inList type Object_prototype = false →
  let lookup :=
    throws env (trace w ++ [EReminder booking.1 type]) (ETechnicianProfile_findById tech) in
  let w1 := record (ETechnicianProfile_findById tech) (record (EReminder booking.1 type) w) in
  let w' := exec (sendScheduledReminder env booking type io) w in
  (lookup = None →
   sendScheduledReminder env booking type io w
   = (Returns {| success := false; reason := Some "Unknown reminder type"; error := None |},
      w1))
  ∧ (∀ message,
       lookup = Some (Thrown_value message) →
       sendScheduledReminder env booking type io w
       = (Returns {| success := false; reason := None; error := message |},
          record (EConsole Error "sendScheduledReminder error" None) w1))
  ∧ calls isPush (trace w') = calls isPush (trace w)
  ∧ calls isSocketNotification (trace w') = calls isSocketNotification (trace w)
  ∧ calls isSms (trace w') = calls isSms (trace w).
Proof.
  intros Htech H24 H1 H15 Hproto lookup w1 w'. subst lookup w1 w'.
  unfold sendScheduledReminder, exec, bind, try_catch, emit, TechnicianProfile_findById, call,
    console, record.
  simpl. rewrite Htech. simpl.
  apply String.eqb_neq in H24, H1, H15.
  destruct (throws env _ (ETechnicianProfile_findById tech)) as [[message|]|]; simpl;
    unfold messages; rewrite ?H24, ?H1, ?H15, ?Hproto; simpl;
    rewrite !calls_app; unfold calls; simpl;
    (split; [try done; by intros [=]|]); (split; [try done; by intros ? [= ->]|]);
    repeat split; lia.
Qed.

Lemma unknown_reminder_type_witness :
  sendScheduledReminder calmEnv (1%N, lateBooking) "weekly" (Some socketServer) sampleWorld
  = (Returns {| success := false; reason := Some "Unknown reminder type"; error := None |},
     mkWorld sampleStore [EReminder 1%N "weekly"; ETechnicianProfile_findById 7%N])
  ∧ sendScheduledReminder lookupDownEnv (1%N, lateBooking) "weekly" None sampleWorld
    = (Returns {| success := false; reason := None; error := Some "connection lost" |},
       mkWorld sampleStore [EReminder 1%N "weekly"; ETechnicianProfile_findById 7%N;
                            EConsole Error "sendScheduledReminder error" None]).
Proof.
  split.
  - destruct (unknown_reminder_type calmEnv (1%N, lateBooking) "weekly" (Some socketServer)
                sampleWorld 7%N) as (Hfound & _); [reflexivity|discriminate..|reflexivity|].
    apply Hfound. reflexivity.
  - destruct (unknown_reminder_type lookupDownEnv (1%N, lateBooking) "weekly" None
                sampleWorld 7%N) as (_ & Hthrown & _);
      [reflexivity|discriminate..|reflexivity|].
    apply (Hthrown (Some "connection lost")). reflexivity.
Defined.

(** C10 as the specification words it does not hold.  With the inherited name
    "constructor" as [type], [messages[type]] is truthy: the composer pushes
    a notification without title or body and reports success.  And when the
    technician lookup throws, the result carries that error, not the reason
    "Unknown reminder type". *)
Lemma unknown_reminder_type_counterexample :
  sendScheduledReminder calmEnv (1%N, lateBooking) "constructor" None sampleWorld
  = (Returns {| success := true; reason := None; error := None |},
     mkWorld sampleStore
       [EReminder 1%N "constructor"; ETechnicianProfile_findById 7%N;
        EPush 7%N None None "reminder_constructor" 1%N;
        EConsole Log "[REMINDER] Sent to technician" (Some 1%N)])
  ∧ result (sendScheduledReminder lookupDownEnv (1%N, lateBooking) "weekly" None) sampleWorld
    = Returns {| success := false; reason := None; error := Some "connection lost" |}.
Proof. split; reflexivity. Qed.

(** * Further properties of the code *)

(** ** Every tick, whatever fails *)

Lemma tick_poll env io j now :
  tick env io j now
  = poll env (jobQuery j now) (jobFound j) (jobFatal j) (jobBody env io j now).
Proof. by destruct j. Qed.

Lemma jobBody_returns env io j now x :
  errorsOnly env → returns (jobBody env io j now x).
Proof.
  intros He.
  destruct j; first [by apply activateBooking_returns
                    |by apply recoverNoShow_returns
                    |by apply remindBooking_returns; [|apply reminderExtra_quiet]].
Qed.

Lemma jobBody_neverNullish env io j now x : neverNullish (jobBody env io j now x).
Proof.
  destruct j; first [apply activateBooking_neverNullish
                    |apply recoverNoShow_neverNullish
                    |apply remindBooking_neverNullish].
Qed.

(** X1.  When does a tick throw to the cron runner?  Only when its window
    query rejects with [null] or [undefined]: then the handler of the tick
    throws, reading [err.message], and the tick rejects with that TypeError.
    In every other case the tick returns, whatever fails in the store, the
    matching service or the gateway while the bookings are processed. *)
Theorem tick_result env io j now w :
  result (tick env io j now) w
  = match throws env (trace w) (EStore (Find (jobQuery j now))) with
    | Some Thrown_nullish => Throws messageTypeError
    | _ => Returns tt
    end.
Proof.
  rewrite tick_poll. unfold result.
  destruct (throws env (trace w) (EStore (Find (jobQuery j now)))) as [err|] eqn:Hq.
  { rewrite (poll_query_throws _ _ _ _ _ _ _ Hq). by destruct err. }
  destruct (find (jobQuery j now) (store w)) as [|x l] eqn:Hf.
  { by rewrite poll_empty. }
  rewrite poll_batch, Hf by (done || by rewrite Hf).
  match goal with |- context [for_of ?l ?b ?w1] =>
    pose proof (neverNullish_for_of l b (jobBody_neverNullish env io j now) w1) as Hnn;
    unfold result in Hnn; destruct (for_of l b w1) as [[[]|[message|]] w2] end; done.
Qed.

(** X2.  Batch-level failure.  When the window query of a job throws, the
    tick writes nothing to the store and runs no loop body, so nothing is
    broadcast, reminded or notified.  If what was thrown has a message, the
    tick logs the job's fatal error and returns; if it is [null] or
    [undefined], nothing is logged and the tick rejects. *)
Theorem tick_query_failure env io j now w err :
  throws env (trace w) (EStore (Find (jobQuery j now))) = Some err →
  tick env io j now w
  = match err with
    | Thrown_value _ =>
      (Returns tt,
       mkWorld (store w) (trace w ++ [EStore (Find (jobQuery j now)); jobFatal j]))
    | Thrown_nullish =>
      (Throws messageTypeError,
       mkWorld (store w) (trace w ++ [EStore (Find (jobQuery j now))]))
    end.
Proof.
  intros Hthrow. rewrite tick_poll, (poll_query_throws _ _ _ _ _ _ _ Hthrow).
  destruct err; unfold record; simpl; by rewrite <- ?app_assoc.
Qed.

Lemma tick_query_failure_witness :
  tick storeDownEnv None NoShow (minutes 31) sampleWorld
  = (Returns tt,
     mkWorld sampleStore
       [EStore (Find (noShowQuery (minutes 31 - 30 * 60 * 1000)));
        EConsole Error "[CRON:NOSHOW] Fatal error" None])
  ∧ tick (rejectingEnv isStoreCall) None NoShow (minutes 31) sampleWorld
    = (Throws messageTypeError,
       mkWorld sampleStore [EStore (Find (noShowQuery (minutes 31 - 30 * 60 * 1000)))]).
Proof.
  split.
  - apply (tick_query_failure storeDownEnv None NoShow (minutes 31) sampleWorld
             (new_Error "connection lost")).
    reflexivity.
  - apply (tick_query_failure (rejectingEnv isStoreCall) None NoShow (minutes 31) sampleWorld
             Thrown_nullish).
    reflexivity.
Defined.

(** X3.  Empty batch.  When the window query of a job returns no booking,
    the tick ends there: the store is unchanged and nothing is logged or
    invoked; only the query itself was made. *)
Theorem tick_empty_batch env io j now w :
  throws env (trace w) (EStore (Find (jobQuery j now))) = None →
  find (jobQuery j now) (store w) = [] →
  exec (tick env io j now) w
  = mkWorld (store w) (trace w ++ [EStore (Find (jobQuery j now))]).
Proof.
  intros Hfind Hnone. unfold exec. by rewrite tick_poll, poll_empty.
Qed.

Lemma tick_empty_batch_witness :
  exec (tick calmEnv None NoShow 0) sampleWorld
  = mkWorld sampleStore [EStore (Find (noShowQuery (0 - 30 * 60 * 1000)))].
Proof.
  apply (tick_empty_batch calmEnv None NoShow 0 sampleWorld); reflexivity.
Defined.

(** ** What a tick writes, and for whom it calls out *)

#[global] Instance anyStore_preorder : PreOrder anyStore.
Proof. by split. Qed.

Lemma jobGuard_id j i : q_id (jobGuard j i) = Some i.
Proof. by destruct j. Qed.

(** The write of a job does not apply twice to the same document, or
    applying it twice is applying it once. *)
Lemma jobWrite_once j now i b :
  matches (jobGuard j i) (i, applyUpdate (jobUpdate j now) b) = false
  ∨ applyUpdate (jobUpdate j now) (applyUpdate (jobUpdate j now) b)
    = applyUpdate (jobUpdate j now) b.
Proof.
  destruct j; [left; apply activationGuard_once|by right..|left; apply noShowGuard_once].
Qed.

Lemma writeRel_preorder j now i :
  PreOrder (writeRel (jobGuard j i) (jobUpdate j now) i).
Proof.
  split; [by left|].
  intros s1 s2 s3 [H12|(b & Hb & Hm & H12)] [H23|(b' & Hb' & Hm' & H23)].
  - left. congruence.
  - right. exists b'. by rewrite <- H12.
  - right. exists b. by rewrite H23.
  - rewrite H12 in Hb'. injection Hb' as <-.
    destruct (jobWrite_once j now i b) as [Hno|Hidem]; [congruence|].
    right. exists b. by rewrite H23, Hidem.
Qed.

Lemma write_writeRel (q : Query) (u : Update) (i j : ObjectId) (q' : Query) (s : Store) :
  q_id q = Some j → (j = i → q = q') →
  writeRel q' u i s (findOneAndUpdate q u s).1.
Proof.
  intros Hq Heq.
  destruct (write_by_id_cases q u j i s Hq) as [H|(Hj & b & Hb & Hm & H)]; [by left|].
  right. exists b. by rewrite <- (Heq Hj).
Qed.

Lemma jobBody_writeRel env io j now i x :
  preserves anyEvent (writeRel (jobGuard j i) (jobUpdate j now) i) (jobBody env io j now x).
Proof.
  pose proof (writeRel_preorder j now i) as Hpre.
  assert (Hrem : ∀ k, jobGuard j i = byId i → jobUpdate j now = reminderUpdate k →
            preserves anyEvent (writeRel (jobGuard j i) (jobUpdate j now) i)
              (reminderBody env io k x)).
  { intros k Hg Hu. apply remindBooking_preserves; [done|done|done| |].
    - intros y. apply quietExtra_preserves; [done|done|apply reminderExtra_quiet].
    - intros s. rewrite updateOne_store, Hu.
      apply write_writeRel with (j := x.1); [done|]. intros ->. by rewrite Hg. }
  destruct j; [|by apply Hrem..|].
  - apply activateBooking_preserves; [done..|].
    intros s. rewrite updateOne_store.
    apply write_writeRel with (j := x.1); [done|]. by intros ->.
  - apply recoverNoShow_preserves; [done..|].
    intros s. apply write_writeRel with (j := x.1); [done|]. by intros ->.
Qed.

Lemma jobBody_frame env io j now i x :
  x.1 ≠ i → preserves (notAbout i) (sameAt i) (jobBody env io j now x).
Proof.
  intros Hx.
  assert (Hrem : ∀ k, preserves (notAbout i) (sameAt i) (reminderBody env io k x)).
  { intros k. apply remindBooking_frame; [|done].
    intros y. apply quietExtra_preserves; [apply _|apply gatewayEvent_notAbout|].
    apply reminderExtra_quiet. }
  destruct j; [by apply activateBooking_frame|apply Hrem..|by apply recoverNoShow_frame].
Qed.

Lemma jobFound_notAbout j i : notAbout i (jobFound j).
Proof. by destruct j. Qed.

Lemma jobFatal_notAbout j i : notAbout i (jobFatal j).
Proof. by destruct j. Qed.

(** A booking the window query does not return is framed by the tick. *)
Lemma tick_unselected env io j now w i :
  (∀ b, store w !! i = Some b → matches (jobQuery j now) (i, b) = false) →
  evolves (notAbout i) (sameAt i) w (exec (tick env io j now) w).
Proof.
  intros Hno. rewrite tick_poll.
  apply poll_frame; [apply _|done|apply jobFound_notAbout|apply jobFatal_notAbout|].
  intros [i' b] [Hb Hm]%find_spec. apply jobBody_frame. simpl in *. intros ->.
  rewrite (Hno b Hb) in Hm. done.
Qed.

(** What a tick does to the document of one booking. *)
Lemma tick_effect env io j now w i :
  store (exec (tick env io j now) w) !! i = store w !! i
  ∨ ∃ b, store w !! i = Some b
         ∧ matches (jobQuery j now) (i, b) = true
         ∧ store (exec (tick env io j now) w) !! i = Some (applyUpdate (jobUpdate j now) b).
Proof.
  destruct (store w !! i) as [b|] eqn:Hb.
  - destruct (matches (jobQuery j now) (i, b)) eqn:Hm.
    + pose proof (writeRel_preorder j now i) as Hpre.
      assert (H : evolves anyEvent (writeRel (jobGuard j i) (jobUpdate j now) i) w
                    (exec (tick env io j now) w)).
      { rewrite tick_poll. apply poll_frame; [done..|]. intros x _. apply jobBody_writeRel. }
      destruct H as [[H|(b' & Hb' & _ & H)] _].
      * left. by rewrite H.
      * right. exists b. rewrite Hb in Hb'. by injection Hb' as <-.
    + left. destruct (tick_unselected env io j now w i) as [H _]; [|by rewrite H].
      intros b' Hb'. rewrite Hb in Hb'. by injection Hb' as <-.
  - left. destruct (tick_unselected env io j now w i) as [H _]; [|by rewrite H].
    intros b' Hb'. by rewrite Hb in Hb'.
Qed.

(** X4.  A tick writes only to the bookings its window query returned, and
    only with its own [$set]: whatever fails, after a tick of job [j] every
    document is as it was, or it was returned by the query of [j] and is now
    the old document with the update of [j] applied (status set to requested
    for activation, one flag set for a reminder job, the recovery for the
    no-show job). *)
Theorem tick_writes_only_selected env io j now w i :
  let w' := exec (tick env io j now) w in
  store w' !! i = store w !! i
  ∨ ∃ b, (i, b) ∈ find (jobQuery j now) (store w)
         ∧ store w' !! i = Some (applyUpdate (jobUpdate j now) b).
Proof.
  intros w'. destruct (tick_effect env io j now w i) as [H|(b & Hb & Hm & H)]; [by left|].
  right. exists b. split; [by apply find_spec|exact H].
Qed.

(** X5.  A booking outside the window query of a job is ignored by its tick,
    whatever fails: its document is unchanged, and neither the matching
    service, nor the customer notification, nor the composer is invoked for
    it. *)
Theorem tick_ignores_unselected env io j now w i :
  (∀ b, (i, b) ∉ find (jobQuery j now) (store w)) →
  let w' := exec (tick env io j now) w in
  store w' !! i = store w !! i
  ∧ calls (isMatch i) (trace w') = calls (isMatch i) (trace w)
  ∧ calls (isNotify i) (trace w') = calls (isNotify i) (trace w)
  ∧ calls (isReminder i) (trace w') = calls (isReminder i) (trace w).
Proof.
  intros Hno w'. destruct (tick_unselected env io j now w i) as [Hs Ht].
  - intros b Hb. apply not_true_is_false. intros Hm. apply (Hno b). by apply find_spec.
  - split; [exact Hs|]. by apply calls_extends_notAbout.
Qed.

(** Booking 2 is scheduled, not accepted: the 24-hour job passes it by. *)
Lemma tick_ignores_unselected_witness :
  let w' := exec (tick pushDownEnv None Remind24h 0) edgeWorld in
  store w' !! 2%N = Some dueBooking
  ∧ calls (isReminder 2%N) (trace w') = 0%nat.
Proof.
  intros w'.
  destruct (tick_ignores_unselected pushDownEnv None Remind24h 0 edgeWorld 2%N)
    as (Hs & _ & _ & Hr).
  - intros b [Hb Hm]%find_spec. simpl in Hb. vm_compute in Hb. injection Hb as <-.
    vm_compute in Hm. discriminate.
  - unfold w'. rewrite Hs, Hr. split; reflexivity.
Defined.

(** X6.  No-show detection never fires for a booking whose [noShowAt] is
    already set, whose [technicianId] is null, whose status is not accepted,
    or that is not yet 30 minutes late: the tick leaves it as it is, and
    neither re-broadcasts it nor notifies its customer. *)
Theorem noShow_never_fires env io now w i b :
  store w !! i = Some b →
  noShowAt b ≠ None ∨ technicianId b = None ∨ status b ≠ "accepted"
  ∨ (∀ t, scheduledAt b = Some t → now - 30 * 60 * 1000 < t) →
  let w' := exec (handleNoShowSafety env io now) w in
  store w' !! i = Some b
  ∧ calls (isMatch i) (trace w') = calls (isMatch i) (trace w)
  ∧ calls (isNotify i) (trace w') = calls (isNotify i) (trace w).
Proof.
  intros Hb Hout w'.
  destruct (tick_unselected env io NoShow now w i) as [Hs Ht].
  - intros b' Hb'. rewrite Hb in Hb'. injection Hb' as <-.
    apply not_true_is_false. unfold jobQuery. rewrite matches_noShowQuery. simpl.
    intros (Hst & (t & Ht & Hle) & Hns & [tech Htech]).
    destruct Hout as [H|[H|[H|H]]]; [done|congruence|done|].
    specialize (H t Ht). lia.
  - unfold sameAt in Hs. subst w'. change (handleNoShowSafety env io now) with (tick env io NoShow now).
    rewrite Hs, Hb. split; [done|].
    by apply calls_extends_notAbout in Ht as (-> & -> & _).
Qed.

(** Scenario D of the specification: once recovered, a booking is not
    recovered again by a later no-show tick. *)
Lemma noShow_never_fires_witness :
  let handled := exec (handleNoShowSafety calmEnv None (minutes 31)) sampleWorld in
  let w' := exec (handleNoShowSafety calmEnv None (minutes 45)) handled in
  store w' !! 1%N = store handled !! 1%N
  ∧ calls (isMatch 1%N) (trace w') = 1%nat
  ∧ calls (isNotify 1%N) (trace w') = 1%nat.
Proof.
  intros handled w'.
  destruct (noShow_never_fires calmEnv None (minutes 45) handled 1%N
              (applyUpdate (noShowUpdate (minutes 31)) lateBooking) eq_refl)
    as (Hs & Hm & Hn).
  - left. discriminate.
  - unfold w'. rewrite Hs, Hm, Hn. split; [reflexivity|]. split; reflexivity.
Defined.

(** ** Selected bookings: the write, its failure, and the next tick *)

(** The store after a no-show body whose write did not throw: the write,
    whatever happened to the re-broadcast and to the notification. *)
Lemma recoverNoShow_store env io now i b0 w :
  throws env (trace w) (EStore (FindOneAndUpdate (noShowGuard i) (noShowUpdate now))) = None →
  store (exec (recoverNoShow env io now (i, b0)) w)
  = (findOneAndUpdate (noShowGuard i) (noShowUpdate now) (store w)).1.
Proof.
  intros Hu.
  unfold recoverNoShow, exec, try_catch, bind, ServiceBooking_findOneAndUpdate, storeCall.
  simpl. rewrite Hu. simpl.
  destruct (findOneAndUpdate (noShowGuard i) (noShowUpdate now) (store w)) as [s' [d|]];
    simpl; [|done].
  unfold matchAndBroadcastBooking, call, console, emit. simpl.
  destruct (throws env _ (EMatch i)) as [[message|]|]; simpl; [done|done|].
  destruct (matchResult env _ i); simpl; [|done].
  match goal with |- context [notifyCustomerOfRebroadcast env ?bk io ?w1] =>
    destruct (notifyCustomerOfRebroadcast_spec env bk io w1) as (d' & -> & _) end.
  done.
Qed.

(** The store after a loop body whose write did not throw (and, for a
    reminder job, whose composer returned). *)
Lemma jobBody_store env io j now i b0 w :
  errorsOnly env →
  (∀ h, throws env h (EStore (jobWriteOp j now i)) = None) →
  store (exec (jobBody env io j now (i, b0)) w)
  = (findOneAndUpdate (jobGuard j i) (jobUpdate j now) (store w)).1.
Proof.
  intros He Hu.
  assert (Hrem : ∀ k, jobWriteOp j now i = UpdateOne (byId i) (reminderUpdate k) →
            store (exec (reminderBody env io k (i, b0)) w)
            = (findOneAndUpdate (byId i) (reminderUpdate k) (store w)).1).
  { intros k Hop. rewrite Hop in Hu.
    destruct (remindBooking_exec env k (reminderTag k) (reminderExtra io k) io i b0 w
                (reminderExtra_quiet io k)) as (d & _ & _ & Hst).
    unfold reminderBody.
    by rewrite (Hst (sendScheduledReminder_returns env _ _ _ He w) Hu), updateOne_store. }
  destruct j; [|by apply Hrem..|].
  - simpl in *. destruct (activateBooking_exec env io i b0 w (Hu _)) as (d & -> & _).
    simpl. apply updateOne_store.
  - simpl in *. by apply recoverNoShow_store.
Qed.

Lemma jobQuery_guard j now i b :
  matches (jobQuery j now) (i, b) = true → matches (jobGuard j i) (i, b) = true.
Proof.
  destruct j; simpl; intros Hm; try apply matches_byId.
  - apply matches_activationQuery in Hm as [? _]. by apply matches_activationGuard.
  - apply matches_noShowQuery in Hm as (? & _ & ? & _). by apply matches_noShowGuard.
Qed.

(** Once written by a job, a document is outside that job's window query. *)
Lemma jobQuery_written j now now' i b :
  matches (jobQuery j now') (i, applyUpdate (jobUpdate j now) b) = false.
Proof.
  apply not_true_is_false. destruct j; simpl.
  - rewrite matches_activationQuery. simpl. by intros [? _].
  - rewrite matches_reminderQuery. simpl. by intros (_ & ? & _).
  - rewrite matches_reminderQuery. simpl. by intros (_ & ? & _).
  - rewrite matches_reminderQuery. simpl. by intros (_ & ? & _).
  - rewrite matches_noShowQuery. simpl. by intros [? _].
Qed.

(** A booking the window query returns is processed once, between two
    frames, provided no other booking ends the loop early. *)
Lemma poll_selected_job env io j now w i b :
  othersReturn i (jobBody env io j now) →
  throws env (trace w) (EStore (Find (jobQuery j now))) = None →
  (i, b) ∈ find (jobQuery j now) (store w) →
  ∃ w1, evolves (notAbout i) (sameAt i) w w1
    ∧ evolves (notAbout i) (sameAt i) (exec (jobBody env io j now (i, b)) w1)
        (exec (tick env io j now) w).
Proof.
  intros Hr Hfind Hin. rewrite tick_poll.
  assert (Hf : ∀ x, x.1 ≠ i → preserves (notAbout i) (sameAt i) (jobBody env io j now x))
    by (intros x Hx; by apply jobBody_frame).
  destruct j; by apply poll_selected.
Qed.

(** Without that proviso: the booking is processed between two frames, or
    the loop ended before it and the tick left it alone. *)
Lemma tick_selected_cases env io j now w i b :
  throws env (trace w) (EStore (Find (jobQuery j now))) = None →
  (i, b) ∈ find (jobQuery j now) (store w) →
  evolves (notAbout i) (sameAt i) w (exec (tick env io j now) w)
  ∨ ∃ w1, evolves (notAbout i) (sameAt i) w w1
      ∧ evolves (notAbout i) (sameAt i) (exec (jobBody env io j now (i, b)) w1)
          (exec (tick env io j now) w).
Proof.
  intros Hfind Hin. rewrite tick_poll.
  assert (Hf : ∀ x, x.1 ≠ i → preserves (notAbout i) (sameAt i) (jobBody env io j now x))
    by (intros x Hx; by apply jobBody_frame).
  assert (Hcases : ∃ l1 w0,
            match for_of l1 (jobBody env io j now) w0 with
            | (Returns _, w1) =>
              evolves (notAbout i) (sameAt i) w w1
              ∧ evolves (notAbout i) (sameAt i) (exec (jobBody env io j now (i, b)) w1)
                  (exec (poll env (jobQuery j now) (jobFound j) (jobFatal j)
                           (jobBody env io j now)) w)
            | (Throws _, _) =>
              evolves (notAbout i) (sameAt i) w
                (exec (poll env (jobQuery j now) (jobFound j) (jobFatal j)
                         (jobBody env io j now)) w)
            end).
  { destruct j;
      (edestruct (poll_selected_cases env) as (l1 & l2 & _ & _ & Hc);
       [exact Hf|exact Hfind|exact Hin|]; eexists l1, _; exact Hc). }
  destruct Hcases as (l1 & w0 & Hc).
  destruct (for_of l1 (jobBody env io j now) w0) as [[[]|e] w1]; [right; by exists w1|by left].
Qed.

Lemma errorsOnly_othersReturn env io j now i :
  errorsOnly env → othersReturn i (jobBody env io j now).
Proof. intros He x _. by apply jobBody_returns. Qed.

Lemma tick_selected_written env io j now w i b :
  errorsOnly env →
  throws env (trace w) (EStore (Find (jobQuery j now))) = None →
  (∀ h, throws env h (EStore (jobWriteOp j now i)) = None) →
  (i, b) ∈ find (jobQuery j now) (store w) →
  store (exec (tick env io j now) w) !! i = Some (applyUpdate (jobUpdate j now) b).
Proof.
  intros He Hfind Hu Hin. pose proof Hin as [Hb Hm]%find_spec. simpl in Hb, Hm.
  destruct (poll_selected_job env io j now w i b
              (errorsOnly_othersReturn env io j now i He) Hfind Hin)
    as (w1 & [Hs1 _] & [Hs2 _]).
  unfold sameAt in Hs1, Hs2.
  rewrite Hs2, (jobBody_store env io j now i b w1 He Hu).
  rewrite (findOneAndUpdate_by_id _ _ i) by apply jobGuard_id.
  rewrite Hs1, Hb, (jobQuery_guard j now i b Hm). simpl. apply lookup_insert_eq.
Qed.

(** X7.  An error thrown for one booking does not stop the batch.  When no
    call rejects with [null] or [undefined] (whatever is thrown is an [Error]
    or another value whose message can be read), a booking returned by the
    window query whose own write does not throw is written with the job's
    update, whatever errors the store, the matching service or the gateway
    throw while the other bookings of the batch are processed. *)
Theorem batch_failure_isolated env io j now w i b :
  errorsOnly env →
  throws env (trace w) (EStore (Find (jobQuery j now))) = None →
  (∀ h, throws env h (EStore (jobWriteOp j now i)) = None) →
  (i, b) ∈ find (jobQuery j now) (store w) →
  store (exec (tick env io j now) w) !! i = Some (applyUpdate (jobUpdate j now) b).
Proof. apply tick_selected_written. Qed.

(** Bookings 3 and 5 are both due a 24-hour reminder; the write fails for
    booking 5 and the flag of booking 3 is set all the same. *)
Lemma batch_failure_isolated_witness :
  let w' := exec (tick otherWritesDownEnv None Remind24h 0) edgeWorld in
  (h24 ∘ remindersSent <$> store w' !! 3%N) = Some true
  ∧ (h24 ∘ remindersSent <$> store w' !! 5%N) = Some false.
Proof.
  intros w'. split; [|reflexivity].
  unfold w'.
  rewrite (batch_failure_isolated otherWritesDownEnv None Remind24h 0 edgeWorld 3%N
             (acceptedAt (hours 23)));
    [reflexivity|apply otherWritesDownEnv_errorsOnly|reflexivity|intros h; reflexivity|].
  apply find_spec. split; reflexivity.
Defined.

(** What a loop body throws, when it throws, is the TypeError of its own
    handler. *)
Lemma jobBody_throws env io j now x w e :
  result (jobBody env io j now x) w = Throws e →
  jobBody env io j now x w = (Throws messageTypeError, exec (jobBody env io j now x) w).
Proof.
  destruct j; simpl jobBody;
    unfold reminderBody, activateBooking, remindBooking, recoverNoShow;
    apply try_catch_throws; intros message; apply returns_emit.
Qed.

(** X22.  A loop body that throws ends the batch.  The handler of a loop
    body throws only when what it caught is [null] or [undefined] (a write
    or a broadcast rejected with it).  The [for] loop sits inside the [try]
    of the tick, so the loop ends there: the tick logs its fatal error and
    returns, and the bookings that came after in the batch are skipped:
    their documents are as they were, and neither the matching service, nor
    the customer notification, nor the composer was invoked for them. *)
Theorem batch_ends_at_throw env io j now w l1 x l2 :
  throws env (trace w) (EStore (Find (jobQuery j now))) = None →
  find (jobQuery j now) (store w) = l1 ++ x :: l2 →
  (∀ y, y ∈ l1 → returns (jobBody env io j now y)) →
  let w1 := exec (for_of l1 (jobBody env io j now))
              (record (jobFound j) (record (EStore (Find (jobQuery j now))) w)) in
  (∃ e, result (jobBody env io j now x) w1 = Throws e) →
  let w' := exec (tick env io j now) w in
  result (jobBody env io j now x) w1 = Throws messageTypeError
  ∧ tick env io j now w
    = (Returns tt, record (jobFatal j) (exec (jobBody env io j now x) w1))
  ∧ ∀ y, y ∈ l2 →
      store w' !! y.1 = store w !! y.1
      ∧ calls (isMatch y.1) (trace w') = calls (isMatch y.1) (trace w)
      ∧ calls (isNotify y.1) (trace w') = calls (isNotify y.1) (trace w)
      ∧ calls (isReminder y.1) (trace w') = calls (isReminder y.1) (trace w).
Proof.
  intros Hfind Hl Hl1 w1 [e He] w'.
  pose proof (jobBody_throws env io j now x w1 e He) as Hbody.
  assert (Htick : tick env io j now w
                  = (Returns tt, record (jobFatal j) (exec (jobBody env io j now x) w1))).
  { rewrite tick_poll, poll_batch by (done || (rewrite Hl; by destruct l1)).
    rewrite Hl, for_of_app.
    destruct (returns_for_of_in l1 _ Hl1
                (record (jobFound j) (record (EStore (Find (jobQuery j now))) w)))
      as [[] Ha].
    unfold result in Ha. fold w1.
    replace (for_of l1 (jobBody env io j now)
               (record (jobFound j) (record (EStore (Find (jobQuery j now))) w)))
      with (@Returns unit tt, w1)
      by (subst w1; unfold exec;
          by destruct (for_of l1 _ _) as [r ?]; simpl in Ha; subst r).
    change (for_of (x :: l2) (jobBody env io j now))
      with (bind (jobBody env io j now x) (fun _ => for_of l2 (jobBody env io j now))).
    unfold bind. by rewrite Hbody. }
  split; [unfold result; by rewrite Hbody|]. split; [exact Htick|].
  intros y Hy. subst w'. unfold exec at 1 2 3 4. rewrite Htick. cbn [snd].
  pose proof (find_NoDup (jobQuery j now) (store w)) as Hnd.
  rewrite Hl, fmap_app, fmap_cons in Hnd.
  apply NoDup_app in Hnd as (_ & Hnd1 & Hnd2).
  apply NoDup_cons in Hnd2 as [Hx _].
  assert (Hyl2 : y.1 ∈ l2.*1) by (apply list_elem_of_fmap; by exists y).
  assert (Hframe : evolves (notAbout y.1) (sameAt y.1) w
                     (record (jobFatal j) (exec (jobBody env io j now x) w1))).
  { eapply evolves_trans; [apply _| |].
    2: { split; simpl; [done|]. apply extends_snoc, jobFatal_notAbout. }
    eapply evolves_trans; [apply _| |].
    2: { apply jobBody_frame. intros Heq. apply Hx. by rewrite Heq. }
    eapply evolves_trans; [apply _| |].
    2: { apply preserves_for_of; [apply _|]. intros z Hz. apply jobBody_frame.
         intros Heq. apply (Hnd1 y.1); [|by right].
         apply list_elem_of_fmap. by exists z. }
    split; simpl; [done|]. exists [EStore (Find (jobQuery j now)); jobFound j].
    split; [by rewrite <- app_assoc|].
    repeat constructor. apply jobFound_notAbout. }
  destruct Hframe as [Hs Ht]. split; [exact Hs|]. by apply calls_extends_notAbout.
Qed.

(** Bookings 5 and 3 are both due a 24-hour reminder, and the store rejects
    writes with [undefined].  The body of booking 5 throws, and booking 3 is
    never reached: no reminder is composed for it. *)
Lemma batch_ends_at_throw_witness :
  let w' := exec (tick (rejectingEnv isStoreWrite) None Remind24h 0) edgeWorld in
  result (tick (rejectingEnv isStoreWrite) None Remind24h 0) edgeWorld = Returns tt
  ∧ last (trace w') = Some (EConsole Error "[CRON:24H]" None)
  ∧ store w' !! 3%N = Some (acceptedAt (hours 23))
  ∧ calls (isReminder 3%N) (trace w') = 0%nat.
Proof.
  intros w'.
  destruct (batch_ends_at_throw (rejectingEnv isStoreWrite) None Remind24h 0 edgeWorld []
              (5%N, mkBooking "accepted" (Some (hours 24)) None (Some 9%N)
                      (mkRemindersSent false false false) None None None None)
              [(3%N, acceptedAt (hours 23))]) as (_ & Htick & Hrest).
  - reflexivity.
  - by vm_compute.
  - intros y Hy. by apply elem_of_nil in Hy.
  - eexists. by vm_compute.
  - destruct (Hrest (3%N, acceptedAt (hours 23))) as (Hs & _ & _ & Hr); [left|].
    fold w' in Hs, Hr. cbn [fst] in Hs, Hr. rewrite Hs, Hr.
    unfold result, w', exec. rewrite Htick. by vm_compute.
Defined.

(** X8.  A tick settles its window.  When the store does not fail and no
    other call rejects with [null] or [undefined] (so that no booking ends
    the loop early), after a tick of job [j] no document matches the window
    query of [j] for the same clock reading any more, so a second tick at
    that reading is an empty batch: it makes the query and nothing else. *)
Theorem tick_settles env io j now w :
  errorsOnly env →
  (∀ h op, throws env h (EStore op) = None) →
  let w' := exec (tick env io j now) w in
  find (jobQuery j now) (store w') = []
  ∧ exec (tick env io j now) w'
    = mkWorld (store w') (trace w' ++ [EStore (Find (jobQuery j now))]).
Proof.
  intros He Hstore w'.
  assert (Hnone : find (jobQuery j now) (store w') = []).
  { destruct (find (jobQuery j now) (store w')) as [|[i b'] l] eqn:Hf; [done|].
    assert (Hin : (i, b') ∈ find (jobQuery j now) (store w')) by (rewrite Hf; left).
    apply find_spec in Hin as [Hb' Hm']. simpl in Hb', Hm'. exfalso.
    destruct (tick_effect env io j now w i) as [Hsame|(b & Hb & Hm & Hwr)].
    - fold w' in Hsame. rewrite Hb' in Hsame. symmetry in Hsame.
      assert (Hin : (i, b') ∈ find (jobQuery j now) (store w)) by (by apply find_spec).
      pose proof (tick_selected_written env io j now w i b' He (Hstore _ _)
                    (fun h => Hstore h _) Hin) as Hwr.
      fold w' in Hwr. rewrite Hb' in Hwr. injection Hwr as Hwr.
      rewrite Hwr in Hm'. by rewrite jobQuery_written in Hm'.
    - fold w' in Hwr. rewrite Hb' in Hwr. injection Hwr as ->.
      by rewrite jobQuery_written in Hm'. }
  split; [exact Hnone|].
  unfold exec. by rewrite tick_poll, poll_empty.
Qed.

Lemma tick_settles_witness :
  let w' := exec (tick calmEnv None Activate 0) sampleWorld in
  find (jobQuery Activate 0) (store w') = []
  ∧ trace (exec (tick calmEnv None Activate 0) w')
    = trace w' ++ [EStore (Find (jobQuery Activate 0))].
Proof.
  intros w'.
  destruct (tick_settles calmEnv None Activate 0 sampleWorld calmEnv_errorsOnly
              (fun _ _ => eq_refl)) as [Hnone Hexec].
  split; [exact Hnone|]. fold w' in Hexec. by rewrite Hexec.
Defined.

(** A loop body whose write throws: the store is as it was; a reminder body
    has entered the composer, the other bodies have invoked nothing. *)
Lemma jobBody_write_throws env io j now i b0 w :
  (∀ h, throws env h (EStore (jobWriteOp j now i)) ≠ None) →
  let w' := exec (jobBody env io j now (i, b0)) w in
  store w' = store w
  ∧ calls (isMatch i) (trace w') = calls (isMatch i) (trace w)
  ∧ calls (isNotify i) (trace w') = calls (isNotify i) (trace w)
  ∧ calls (isReminder i) (trace w') = (calls (isReminder i) (trace w) + composerEntries j)%nat.
Proof.
  intros Hu w'. subst w'.
  assert (Hrem : ∀ k, jobWriteOp j now i = UpdateOne (byId i) (reminderUpdate k) →
            composerEntries j = 1%nat →
            let w' := exec (reminderBody env io k (i, b0)) w in
            store w' = store w
            ∧ calls (isMatch i) (trace w') = calls (isMatch i) (trace w)
            ∧ calls (isNotify i) (trace w') = calls (isNotify i) (trace w)
            ∧ calls (isReminder i) (trace w')
              = (calls (isReminder i) (trace w) + composerEntries j)%nat).
  { intros k Hop -> w'. subst w'. rewrite Hop in Hu.
    assert (Hgr : ∀ e, gatewayEvent e → isReminder i e = false)
      by (intros e He; apply quiet_isReminder, gatewayEvent_quiet, He).
    destruct (sendScheduledReminder_spec env (i, b0) (kindKey k) io w)
      as (r & d1 & Hc & Hd1 & [[a ->] | ->]).
    - destruct (remindBooking_after_composer env k (reminderTag k) (reminderExtra io k) io
                  i b0 w _ _ (reminderExtra_quiet io k) Hc) as (d2 & Hd2 & Hx).
      unfold reminderBody, exec. rewrite Hx. cbv zeta.
      destruct (throws env _ (EStore (UpdateOne (byId i) (reminderUpdate k))))
        as [[message|]|] eqn:Hthrow; [| |by apply Hu in Hthrow];
        simpl; (split; [done|]);
        rewrite ?calls_app, ?calls_cons, ?calls_app;
        rewrite (calls_gateway _ d1 (gateway_isMatch i) Hd1),
          (calls_gateway _ d2 (gateway_isMatch i) Hd2),
          (calls_gateway _ d1 (gateway_isNotify i) Hd1),
          (calls_gateway _ d2 (gateway_isNotify i) Hd2),
          (calls_gateway _ d1 Hgr Hd1), (calls_gateway _ d2 Hgr Hd2);
        unfold calls; simpl; rewrite N.eqb_refl; repeat split; lia.
    - unfold reminderBody, exec.
      rewrite (remindBooking_composer_rejects env k _ _ io i b0 w _ Hc).
      simpl. split; [done|].
      rewrite ?calls_app, ?calls_cons.
      rewrite (calls_gateway _ d1 (gateway_isMatch i) Hd1),
        (calls_gateway _ d1 (gateway_isNotify i) Hd1), (calls_gateway _ d1 Hgr Hd1).
      unfold calls. simpl. rewrite N.eqb_refl. repeat split; lia. }
  destruct j; [|by apply Hrem..|]; simpl in *.
  - unfold activateBooking, exec, try_catch, bind, ServiceBooking_updateOne, storeCall,
      console, emit. simpl.
    destruct (throws env _ (EStore (UpdateOne (activationGuard i) activationUpdate)))
      as [[message|]|] eqn:Hthrow; [| |by apply Hu in Hthrow];
      simpl; rewrite !calls_app; unfold calls; simpl; repeat split; lia.
  - unfold recoverNoShow, exec, try_catch, bind, ServiceBooking_findOneAndUpdate, storeCall,
      console, emit. simpl.
    destruct (throws env _ (EStore (FindOneAndUpdate (noShowGuard i) (noShowUpdate now))))
      as [[message|]|] eqn:Hthrow; [| |by apply Hu in Hthrow];
      simpl; rewrite !calls_app; unfold calls; simpl; repeat split; lia.
Qed.

(** X9.  A failed write leaves the booking in the window.  When the write for
    a booking returned by the window query throws, the tick leaves the
    document as it was, so the next tick selects it again, and neither the
    matching service nor the customer notification is invoked for it
    (in activation and in the no-show job the write comes first).  A
    reminder job runs the composer before the write: unless another booking
    ended the loop before this one was reached, the composer has been
    entered once, and the reminder goes out again at the next tick. *)
Theorem write_failure_retried env io j now w i b :
  throws env (trace w) (EStore (Find (jobQuery j now))) = None →
  (∀ h, throws env h (EStore (jobWriteOp j now i)) ≠ None) →
  (i, b) ∈ find (jobQuery j now) (store w) →
  let w' := exec (tick env io j now) w in
  (i, b) ∈ find (jobQuery j now) (store w')
  ∧ calls (isMatch i) (trace w') = calls (isMatch i) (trace w)
  ∧ calls (isNotify i) (trace w') = calls (isNotify i) (trace w)
  ∧ (othersReturn i (jobBody env io j now) →
     calls (isReminder i) (trace w')
     = (calls (isReminder i) (trace w) + composerEntries j)%nat).
Proof.
  intros Hfind Hu Hin w'. pose proof Hin as [Hb Hm]%find_spec. simpl in Hb, Hm.
  assert (Hreached : ∀ w1,
            evolves (notAbout i) (sameAt i) w w1 →
            evolves (notAbout i) (sameAt i) (exec (jobBody env io j now (i, b)) w1) w' →
            (i, b) ∈ find (jobQuery j now) (store w')
            ∧ calls (isMatch i) (trace w') = calls (isMatch i) (trace w)
            ∧ calls (isNotify i) (trace w') = calls (isNotify i) (trace w)
            ∧ calls (isReminder i) (trace w')
              = (calls (isReminder i) (trace w) + composerEntries j)%nat).
  { intros w1 [Hs1 Ht1] [Hs2 Ht2].
    destruct (jobBody_write_throws env io j now i b w1 Hu) as (Hst & Hcm & Hcn & Hcr).
    unfold sameAt in Hs1, Hs2. rewrite Hst in Hs2.
    apply calls_extends_notAbout in Ht1 as (Hm1 & Hn1 & Hr1).
    apply calls_extends_notAbout in Ht2 as (Hm2 & Hn2 & Hr2).
    rewrite Hm2, Hn2, Hr2, Hcm, Hcn, Hcr, Hm1, Hn1, Hr1.
    split; [|done]. apply find_spec. simpl. by rewrite Hs2, Hs1. }
  split; [|split; [|split]].
  4: { intros Hothers.
       destruct (poll_selected_job env io j now w i b Hothers Hfind Hin) as (w1 & H1 & H2).
       by apply (Hreached w1). }
  all: destruct (tick_selected_cases env io j now w i b Hfind Hin)
         as [[Hs Ht]|(w1 & H1 & H2)];
       [|by apply (Hreached w1)];
       fold w' in Hs, Ht; unfold sameAt in Hs;
       apply calls_extends_notAbout in Ht as (Hm0 & Hn0 & _); try done.
  apply find_spec. simpl. by rewrite Hs.
Qed.

Lemma write_failure_retried_witness :
  let w' := exec (tick writeDownEnv None Remind24h 0) edgeWorld in
  (3%N, acceptedAt (hours 23)) ∈ find (jobQuery Remind24h 0) (store w')
  ∧ calls (isReminder 3%N) (trace w') = 1%nat.
Proof.
  intros w'.
  destruct (write_failure_retried writeDownEnv None Remind24h 0 edgeWorld 3%N
              (acceptedAt (hours 23))) as (Hin & _ & _ & Hr).
  - reflexivity.
  - intros h. discriminate.
  - apply find_spec. split; reflexivity.
  - split; [exact Hin|]. apply Hr.
    apply (errorsOnly_othersReturn writeDownEnv None Remind24h 0 3%N).
    intros t e. by destruct e as [[]| | | | | | | | | | |].
Defined.

(** The no-show body when the write succeeds and the re-broadcast fails. *)
Lemma recoverNoShow_match_fails env io now i b0 b w :
  store w !! i = Some b →
  matches (noShowGuard i) (i, b) = true →
  throws env (trace w) (EStore (FindOneAndUpdate (noShowGuard i) (noShowUpdate now))) = None →
  (∀ h, throws env h (EMatch i) ≠ None ∨ matchResult env h i = None) →
  ∃ d, exec (recoverNoShow env io now (i, b0)) w
       = mkWorld (<[i := applyUpdate (noShowUpdate now) b]> (store w))
           (trace w ++ [EStore (FindOneAndUpdate (noShowGuard i) (noShowUpdate now));
                        EConsole Log "[CRON:NOSHOW] Unassigned technician. Re-broadcasting"
                          (Some i);
                        EMatch i] ++ d)
     ∧ (d = [] ∨ d = [EConsole Error "[CRON:NOSHOW] Error for booking" (Some i)]).
Proof.
  intros Hb Hm Hu Hfail.
  unfold recoverNoShow, exec, try_catch, bind, ServiceBooking_findOneAndUpdate, storeCall.
  simpl. rewrite Hu. simpl.
  rewrite (findOneAndUpdate_by_id _ _ i) by done. rewrite Hb, Hm. simpl.
  unfold matchAndBroadcastBooking, call, console, emit. simpl.
  match goal with |- context [throws env ?h (EMatch i)] =>
    destruct (Hfail h) as [Hthrow|Hres];
      [destruct (throws env h (EMatch i)) as [[message|]|]; [| |done]
      |destruct (throws env h (EMatch i)) as [[message|]|]; [| |rewrite Hres]] end;
    simpl; rewrite <- !app_assoc; simpl; eauto.
Qed.

(** X10.  A failed re-broadcast is not rolled back, and skips the customer.
    When the no-show job has recovered a booking (no other booking having
    ended the loop before) and the matching service then throws or resolves
    to nothing, the booking stays recovered (unassigned, requested,
    [noShowAt] stamped), the matching service was invoked once, and the
    customer is not notified. *)
Theorem noShow_rebroadcast_failure env io now w i b :
  throws env (trace w) (EStore (Find (noShowQuery (now - 30 * 60 * 1000)))) = None →
  (∀ h, throws env h (EStore (FindOneAndUpdate (noShowGuard i) (noShowUpdate now))) = None) →
  (∀ h, throws env h (EMatch i) ≠ None ∨ matchResult env h i = None) →
  othersReturn i (recoverNoShow env io now) →
  (i, b) ∈ find (noShowQuery (now - 30 * 60 * 1000)) (store w) →
  let w' := exec (handleNoShowSafety env io now) w in
  store w' !! i = Some (applyUpdate (noShowUpdate now) b)
  ∧ calls (isMatch i) (trace w') = S (calls (isMatch i) (trace w))
  ∧ calls (isNotify i) (trace w') = calls (isNotify i) (trace w).
Proof.
  intros Hfind Hu Hfail Hothers Hin w'. pose proof Hin as [Hb Hm]%find_spec.
  simpl in Hb, Hm.
  destruct (poll_selected_job env io NoShow now w i b Hothers Hfind Hin)
    as (w1 & [Hs1 Ht1] & [Hs2 Ht2]).
  unfold sameAt in Hs1, Hs2. rewrite Hb in Hs1. simpl in Hs2, Ht2.
  destruct (recoverNoShow_match_fails env io now i b b w1 Hs1
              (jobQuery_guard NoShow now i b Hm) (Hu _) Hfail) as (d & Hx & Hd).
  rewrite Hx in Hs2, Ht2.
  simpl in Hs2, Ht2. rewrite lookup_insert_eq in Hs2.
  apply calls_extends_notAbout in Ht1 as (Hm1 & Hn1 & _).
  apply calls_extends_notAbout in Ht2 as (Hm2 & Hn2 & _).
  subst w'.
  rewrite Hs2, Hm2, Hn2, !calls_app, Hm1, Hn1.
  destruct Hd as [-> | ->]; unfold calls; simpl; rewrite N.eqb_refl; simpl;
    repeat split; lia.
Qed.

Lemma noShow_rebroadcast_failure_witness :
  let w' := exec (handleNoShowSafety matchDownEnv None (minutes 31)) sampleWorld in
  (status <$> store w' !! 1%N) = Some "requested"
  ∧ calls (isMatch 1%N) (trace w') = 1%nat
  ∧ calls (isNotify 1%N) (trace w') = 0%nat.
Proof.
  intros w'.
  destruct (noShow_rebroadcast_failure matchDownEnv None (minutes 31) sampleWorld 1%N
              lateBooking) as (Hs & Hm & Hn).
  - reflexivity.
  - intros h. reflexivity.
  - intros h. left. discriminate.
  - apply (errorsOnly_othersReturn matchDownEnv None NoShow (minutes 31) 1%N).
    intros t e. by destruct e.
  - apply find_spec. split; reflexivity.
  - unfold w'. rewrite Hs, Hm, Hn. split; [reflexivity|]. split; reflexivity.
Defined.

(** X11.  Each job calls only its own collaborators.  In every tick,
    whatever fails: the reminder jobs never invoke the matching service;
    only the no-show job notifies a customer; activation and the no-show
    job never enter the reminder composer. *)
Theorem job_collaborators env io j now w :
  let w' := exec (tick env io j now) w in
  (j ≠ Activate → j ≠ NoShow → calls isMatchAny (trace w') = calls isMatchAny (trace w))
  ∧ (j ≠ NoShow → calls isNotifyAny (trace w') = calls isNotifyAny (trace w))
  ∧ (composerEntries j = 0%nat →
     calls isReminderAny (trace w') = calls isReminderAny (trace w)).
Proof.
  intros w'. subst w'. rewrite tick_poll.
  assert (Hcount : ∀ (E : Event → Prop) p, (∀ e, E e → p e = false) →
            evolves E anyStore w
              (exec (poll env (jobQuery j now) (jobFound j) (jobFatal j)
                       (jobBody env io j now)) w) →
            calls p (trace (exec (poll env (jobQuery j now) (jobFound j) (jobFatal j)
                                    (jobBody env io j now)) w))
            = calls p (trace w)).
  { intros E p Hp [_ (d & -> & Hd)]. rewrite calls_app, (calls_none p E d Hp Hd). lia. }
  assert (Hextra : ∀ (E : Event → Prop) k y, (∀ e, gatewayEvent e → E e) →
            preserves E anyStore (reminderExtra io k y)).
  { intros E k y HE. apply quietExtra_preserves; [apply _|done|apply reminderExtra_quiet]. }
  split; [|split].
  - intros Ha Hn. apply (Hcount noMatchEvent); [by intros []|].
    apply poll_frame; [apply _|done|by destruct j|by destruct j|]. intros x _.
    destruct j; try done;
      (apply remindBooking_preserves; [apply _|by intros []|done| |done];
       intros y; apply Hextra; by intros []).
  - intros Hn. apply (Hcount noNotifyEvent); [by intros []|].
    apply poll_frame; [apply _|done|by destruct j|by destruct j|]. intros x _.
    destruct j; try done;
      first [apply activateBooking_preserves; [apply _|by intros []|done|done]
            |apply remindBooking_preserves; [apply _|by intros []|done| |done];
             intros y; apply Hextra; by intros []].
  - intros Hc. apply (Hcount noReminderEvent); [by intros []|].
    apply poll_frame; [apply _|done|by destruct j|by destruct j|]. intros x _.
    destruct j; try done;
      first [apply activateBooking_preserves; [apply _|by intros []|done|done]
            |apply recoverNoShow_preserves; [apply _|by intros []|done|done|done]].
Qed.

Lemma job_collaborators_witness :
  let w' := exec (tick calmEnv (Some socketServer) Remind24h 0) edgeWorld in
  calls isMatchAny (trace w') = 0%nat ∧ calls isNotifyAny (trace w') = 0%nat.
Proof.
  intros w'.
  destruct (job_collaborators calmEnv (Some socketServer) Remind24h 0 edgeWorld)
    as (Hm & Hn & _).
  unfold w'. rewrite Hm, Hn by discriminate. split; reflexivity.
Defined.

(** ** Runs of ticks *)

#[global] Instance sameFixedFields_preorder : PreOrder sameFixedFields.
Proof.
  split.
  - by intros b.
  - intros b1 b2 b3 (? & ? & ? & ?) (? & ? & ? & ?). unfold sameFixedFields.
    repeat split; congruence.
Qed.



(** ** The composer, channel by channel *)

(** X13.  SMS is for the urgent reminders only.  For every [type] other than
    "h1" and "min15" (so for the 24-hour reminder) the composer sends no SMS,
    in any environment. *)
Theorem sms_only_when_urgent env booking type io w :
  type ≠ "h1" → type ≠ "min15" →
  calls isSms (trace (exec (sendScheduledReminder env booking type io) w))
  = calls isSms (trace w).
Proof.
  intros H1 H15. apply String.eqb_neq in H1, H15.
  assert (Hp : preserves (fun e => isSms e = false) eq
                 (sendScheduledReminder env booking type io)).
  { unfold sendScheduledReminder, TechnicianProfile_findById, sendPushNotification,
      sendSocketNotification.
    rewrite H1, H15. simpl orb. cbv iota. frame; done. }
  destruct (Hp w) as [_ (d & -> & Hd)].
  rewrite calls_app, (calls_none isSms _ d (fun e He => He) Hd). lia.
Qed.

Lemma sms_only_when_urgent_witness :
  calls isSms (trace (exec (sendScheduledReminder calmEnv (3%N, acceptedAt (hours 23)) "h24"
                              (Some socketServer)) edgeWorld)) = 0%nat.
Proof.
  rewrite (sms_only_when_urgent calmEnv (3%N, acceptedAt (hours 23)) "h24"
             (Some socketServer) edgeWorld); [reflexivity|discriminate|discriminate].
Defined.

(** X14.  An SMS failure never reaches the caller as an exception.  For
    the 1-hour and the 15-minute reminder of a booking with a technician,
    when everything but the SMS transport works, the composer returns a
    result.  When [sendSms] throws an error whose message can be read, the
    failure is only logged and the result is a success.  When [sendSms]
    rejects with [null] or [undefined], the inner handler throws reading
    [smsErr.message], the outer handler catches that TypeError, and the
    result is a failure carrying its message, although the push went out. *)
Theorem sms_failure_swallowed env booking type io w tech :
  technicianId booking.2 = Some tech →
  type = "h1" ∨ type = "min15" →
  (∀ h e, isSms e = false → throws env h e = None) →
  let r := result (sendScheduledReminder env booking type io) w in
  let w' := exec (sendScheduledReminder env booking type io) w in
  let smsTypeError :=
    {| success := false; reason := None;
       error := Some "Cannot read properties of undefined (reading 'message')" |} in
  (r = Returns {| success := true; reason := None; error := None |}
   ∨ r = Returns smsTypeError)
  ∧ calls isPush (trace w') = S (calls isPush (trace w))
  ∧ ((∀ h e, isSms e = true → throws env h e ≠ Some Thrown_nullish) →
     r = Returns {| success := true; reason := None; error := None |})
  ∧ ((∀ h e, isSms e = true → throws env h e = Some Thrown_nullish) →
     (∀ h, nonEmpty (field (field (technicianProfile env h tech) userId) mobileNumber)
           ≠ None) →
     r = Returns smsTypeError).
Proof.
  intros Htech Htype Hok r w' smsTypeError. subst r w' smsTypeError.
  unfold sendScheduledReminder, result, exec, bind, try_catch, emit,
    TechnicianProfile_findById, sendPushNotification, sendSocketNotification, sendSms,
    call, console.
  simpl. rewrite Htech. simpl. rewrite Hok by done. simpl.
  destruct Htype as [-> | ->]; simpl; rewrite Hok by done; simpl;
    (destruct io; simpl; [rewrite Hok by done; simpl|]);
    (destruct (nonEmpty _) eqn:Hphone; simpl;
     [|rewrite ?calls_app; unfold calls; simpl;
       split; [by left|]; split; [lia|]; split; [done|];
       intros _ Hp; by apply Hp in Hphone]);
    (destruct (throws env _ (ESms _ _)) as [[message|]|] eqn:Hsms; simpl;
     rewrite ?calls_app; unfold calls; simpl;
     (split; [by (left + right)|]); (split; [lia|]);
     (split; [intros Hno; try done; by apply Hno in Hsms
             |intros Hyes _; try done; by rewrite Hyes in Hsms])).
Qed.

(** The SMS transport throws an error: success.  It rejects with
    [undefined]: a failure that carries the handler's TypeError. *)
Lemma sms_failure_swallowed_witness :
  result (sendScheduledReminder smsDownEnv (3%N, acceptedAt (hours 1)) "h1"
            (Some socketServer)) edgeWorld
  = Returns {| success := true; reason := None; error := None |}
  ∧ result (sendScheduledReminder (rejectingEnv isSms) (3%N, acceptedAt (hours 1)) "h1"
              (Some socketServer)) edgeWorld
    = Returns {| success := false; reason := None;
                 error := Some "Cannot read properties of undefined (reading 'message')" |}.
Proof.
  split.
  - destruct (sms_failure_swallowed smsDownEnv (3%N, acceptedAt (hours 1)) "h1"
                (Some socketServer) edgeWorld 7%N) as (_ & _ & H & _).
    + reflexivity.
    + by left.
    + intros h [] He; try reflexivity; discriminate.
    + apply H. intros h [] He; discriminate.
  - destruct (sms_failure_swallowed (rejectingEnv isSms) (3%N, acceptedAt (hours 1)) "h1"
                (Some socketServer) edgeWorld 7%N) as (_ & _ & _ & H).
    + reflexivity.
    + by left.
    + intros h [] He; try reflexivity; discriminate.
    + apply H; [intros h [] He; try discriminate; reflexivity|intros h; discriminate].
Defined.

(** X15.  A push failure ends the delivery.  The push goes first: when it
    throws, the composer attempts neither the socket notification nor the
    SMS.  What the caller gets depends on what was thrown: for an error whose
    message can be read, a failure result carrying that message; for [null]
    or [undefined], no result at all: the handler throws reading
    [err.message] and the composer rejects with that TypeError. *)
Theorem push_failure_stops_delivery env booking k io w tech err :
  technicianId booking.2 = Some tech →
  (∀ h, throws env h (ETechnicianProfile_findById tech) = None) →
  (∀ h e, isPush e = true → throws env h e = Some err) →
  let w' := exec (sendScheduledReminder env booking (kindKey k) io) w in
  result (sendScheduledReminder env booking (kindKey k) io) w
  = match err with
    | Thrown_value message =>
      Returns {| success := false; reason := None; error := message |}
    | Thrown_nullish => Throws messageTypeError
    end
  ∧ calls isSocketNotification (trace w') = calls isSocketNotification (trace w)
  ∧ calls isSms (trace w') = calls isSms (trace w).
Proof.
  intros Htech Hfind Hpush w'. subst w'.
  unfold sendScheduledReminder, result, exec, bind, try_catch, emit,
    TechnicianProfile_findById, sendPushNotification, call, console.
  simpl. rewrite Htech. simpl. rewrite Hfind. simpl.
  destruct k; simpl; rewrite Hpush by done; destruct err; simpl;
    rewrite !calls_app; unfold calls; simpl; repeat split; lia.
Qed.

Lemma push_failure_stops_delivery_witness :
  result (sendScheduledReminder pushDownEnv (3%N, acceptedAt (hours 1)) (kindKey H1)
            (Some socketServer)) edgeWorld
  = Returns {| success := false; reason := None; error := Some "push failed" |}
  ∧ result (sendScheduledReminder (rejectingEnv isPush) (3%N, acceptedAt (hours 1))
              (kindKey H1) (Some socketServer)) edgeWorld
    = Throws messageTypeError.
Proof.
  split.
  - apply (push_failure_stops_delivery pushDownEnv (3%N, acceptedAt (hours 1)) H1
             (Some socketServer) edgeWorld 7%N (new_Error "push failed")).
    + reflexivity.
    + intros h. reflexivity.
    + intros h [] He; try discriminate; reflexivity.
  - apply (push_failure_stops_delivery (rejectingEnv isPush) (3%N, acceptedAt (hours 1)) H1
             (Some socketServer) edgeWorld 7%N Thrown_nullish).
    + reflexivity.
    + intros h. reflexivity.
    + intros h [] He; try discriminate; reflexivity.
Defined.

(** X16.  Success means the push went out.  Whenever the composer reports
    success, the booking has a technician and exactly one push notification
    was sent, to that technician and about this booking. *)
Theorem success_means_pushed env booking type io w r :
  result (sendScheduledReminder env booking type io) w = Returns r →
  success r = true →
  let w' := exec (sendScheduledReminder env booking type io) w in
  ∃ tech, technicianId booking.2 = Some tech
          ∧ calls isPush (trace w') = S (calls isPush (trace w))
          ∧ calls (isPushTo tech booking.1) (trace w')
            = S (calls (isPushTo tech booking.1) (trace w)).
Proof.
  unfold sendScheduledReminder, result, exec, bind, try_catch, emit,
    TechnicianProfile_findById, sendPushNotification, sendSocketNotification, sendSms,
    call, console, messageOf, throw, ret.
  simpl. destruct (technicianId booking.2) as [tech|]; simpl.
  2: { intros [= <-]. done. }
  destruct (throws env _ (ETechnicianProfile_findById tech)) as [[message|]|]; simpl.
  { intros [= <-]. done. }
  { done. }
  destruct (messages _ _ type) as [msg|]; simpl.
  2: { intros [= <-]. done. }
  destruct (throws env _ (EPush _ _ _ _ _)) as [[message|]|]; simpl.
  { intros [= <-]. done. }
  { done. }
  intros Hres Hsucc. exists tech. split; [done|].
  assert (Htail : ∀ t d, Forall (fun e => isPush e = false) d →
            calls isPush (((t ++ [EReminder booking.1 type]) ++
                           [ETechnicianProfile_findById tech]) ++
                          [EPush tech (title msg) (body msg) ("reminder_" +:+ type) booking.1]
                          ++ d)
            = S (calls isPush t)
            ∧ calls (isPushTo tech booking.1)
                (((t ++ [EReminder booking.1 type]) ++ [ETechnicianProfile_findById tech]) ++
                 [EPush tech (title msg) (body msg) ("reminder_" +:+ type) booking.1] ++ d)
              = S (calls (isPushTo tech booking.1) t)).
  { intros t d Hd. rewrite !calls_app, !calls_cons.
    rewrite (calls_none isPush _ d (fun e He => He) Hd).
    rewrite (calls_none (isPushTo tech booking.1) (fun e => isPush e = false) d); [|
      |exact Hd].
    - unfold calls. simpl. rewrite !N.eqb_refl. simpl. lia.
    - intros [] He; simpl in *; done. }
  clear Hres Hsucc.
  destruct io; simpl;
    repeat match goal with
           | |- context [match throws env ?h ?e with _ => _ end] =>
             destruct (throws env h e) as [[?|]|]; simpl
           | |- context [match nonEmpty ?x with _ => _ end] =>
             destruct (nonEmpty x); simpl
           | |- context [match body msg with _ => _ end] =>
             destruct (body msg); simpl
           | |- context [if ?c then _ else _] => destruct c; simpl
           end;
    rewrite <- ?app_assoc; simpl;
    repeat match goal with
           | |- context [?t ++ ?a :: ?b :: EPush ?x1 ?x2 ?x3 ?x4 ?x5 :: ?d] =>
             change (t ++ a :: b :: EPush x1 x2 x3 x4 x5 :: d)
               with (t ++ [a] ++ [b] ++ [EPush x1 x2 x3 x4 x5] ++ d)
           end;
    rewrite ?app_assoc; rewrite <- (app_assoc _ [EPush _ _ _ _ _]);
    apply Htail; by repeat constructor.
Qed.

Lemma success_means_pushed_witness :
  calls (isPushTo 7%N 3%N)
    (trace (exec (sendScheduledReminder calmEnv (3%N, acceptedAt (hours 23)) "h24" None)
              edgeWorld)) = 1%nat.
Proof.
  destruct (success_means_pushed calmEnv (3%N, acceptedAt (hours 23)) "h24" None edgeWorld
              {| success := true; reason := None; error := None |} eq_refl eq_refl)
    as (tech & Htech & _ & Hpush).
  injection Htech as <-. exact Hpush.
Defined.

(** X17.  The composer touches no booking.  In every environment it leaves
    the store as it is and, after its entry, only talks to the technician
    lookup, the gateway and the console: it makes no store call on the
    bookings and invokes neither the matching service nor the customer
    notification. *)
Theorem composer_touches_no_booking env booking type io w :
  let w' := exec (sendScheduledReminder env booking type io) w in
  store w' = store w
  ∧ ∃ d, trace w' = trace w ++ EReminder booking.1 type :: d ∧ Forall gatewayEvent d.
Proof.
  intros w'. subst w'.
  destruct (sendScheduledReminder_spec env booking type io w) as (r & d & Hx & Hd & _).
  unfold exec. rewrite Hx. simpl. split; [done|]. by exists d.
Qed.

(** ** The customer notification *)

(** X18.  The customer notification never fails its caller and writes
    nothing: in every environment it returns, the store is unchanged, and
    for a booking without [customerId] it does nothing at all. *)
Theorem notifyCustomer_never_fails env booking io w :
  result (notifyCustomerOfRebroadcast env booking io) w = Returns tt
  ∧ store (exec (notifyCustomerOfRebroadcast env booking io) w) = store w
  ∧ (customerId booking.2 = None →
     trace (exec (notifyCustomerOfRebroadcast env booking io) w)
     = trace w ++ [ENotifyCustomer booking.1]).
Proof.
  destruct (notifyCustomerOfRebroadcast_spec env booking io w) as (d & Hx & _).
  unfold result, exec. rewrite Hx. simpl. split; [done|]. split; [done|].
  intros Hnone. revert Hx.
  unfold notifyCustomerOfRebroadcast, bind, try_catch, emit. simpl. rewrite Hnone.
  simpl. by intros [= ->].
Qed.

Lemma notifyCustomer_never_fails_witness :
  trace (exec (notifyCustomerOfRebroadcast smsDownEnv
                 (8%N, mkBooking "accepted" None None None
                         (mkRemindersSent false false false) None None None None)
                 (Some socketServer)) sampleWorld)
  = [ENotifyCustomer 8%N].
Proof.
  apply (notifyCustomer_never_fails smsDownEnv
           (8%N, mkBooking "accepted" None None None
                   (mkRemindersSent false false false) None None None None)
           (Some socketServer) sampleWorld).
  reflexivity.
Defined.



(** ** Windows and periods *)

Lemma last_cons_default {A} (x d : A) (l : list A) : List.last (x :: l) d = List.last l x.
Proof.
  revert x d. induction l as [|y l IH]; intros x d; [done|].
  change (List.last (x :: y :: l) d) with (List.last (y :: l) d). by rewrite !IH.
Qed.

Lemma tick_jobOf env io k now : tick env io (jobOf k) now = reminderJob env io k now.
Proof. by destruct k. Qed.

Lemma reminderTicks_cons env io k now nows w :
  runSteps env io (reminderTicks k (now :: nows)) w
  = runSteps env io (reminderTicks k nows) (exec (tick env io (jobOf k) now) w).
Proof. done. Qed.

Lemma jobQuery_jobOf k now :
  jobQuery (jobOf k) now = reminderQuery k (now + (window k).1) (now + (window k).2).
Proof. by destruct k. Qed.

(** Once the flag of a booking is set, ticks of that reminder job pass the
    booking by. *)
Lemma reminderTicks_flag_set env io k nows w i b :
  store w !! i = Some b →
  flag k (remindersSent b) = true →
  let w' := runSteps env io (reminderTicks k nows) w in
  store w' !! i = Some b
  ∧ calls (isReminder i) (trace w') = calls (isReminder i) (trace w).
Proof.
  cbv zeta. revert w. induction nows as [|now nows IH]; intros w Hb Hflag; [done|].
  rewrite reminderTicks_cons.
  destruct (tick_unselected env io (jobOf k) now w i) as [Hs Ht].
  { intros b' Hb'. rewrite Hb in Hb'. injection Hb' as <-.
    apply not_true_is_false. rewrite jobQuery_jobOf, matches_reminderQuery.
    intros (_ & Hno & _). simpl in Hno. congruence. }
  unfold sameAt in Hs. rewrite Hb in Hs.
  apply calls_extends_notAbout in Ht as (_ & _ & Hr).
  destruct (IH (exec (tick env io (jobOf k) now) w) Hs Hflag) as [Hs' Hr'].
  split; [exact Hs'|]. by rewrite Hr'.
Qed.

(** X20.  No reminder is missed, and none is sent twice, by a regular
    schedule.  The window of each reminder job is at least as wide as the
    period of its cron expression (2h against 15min, 10min against 5min,
    10min against 1min).  Take any run of ticks of one reminder job whose
    clock readings are never further apart than the window is wide, in which
    the store does not fail and no call rejects with [null] or [undefined].
    An accepted booking whose flag is false, and whose [scheduledAt] is not
    yet before the window of the first tick and not after the window of the
    last, has the composer invoked for it exactly once in the run, and ends
    with its flag set. *)
Theorem reminder_not_missed env io k w i b t now later :
  errorsOnly env →
  (∀ h op, throws env h (EStore op) = None) →
  regular ((window k).2 - (window k).1) now later →
  store w !! i = Some b →
  status b = "accepted" →
  flag k (remindersSent b) = false →
  scheduledAt b = Some t →
  now + (window k).1 ≤ t ≤ List.last later now + (window k).2 →
  let w' := runSteps env io (reminderTicks k (now :: later)) w in
  0 < tickPeriod k ≤ (window k).2 - (window k).1
  ∧ calls (isReminder i) (trace w') = S (calls (isReminder i) (trace w))
  ∧ store w' !! i = Some (applyUpdate (reminderUpdate k) b).
Proof.
  intros He Hstore Hreg Hb Hst Hflag Hat Ht w'.
  split; [destruct k; simpl; lia|]. subst w'.
  revert now w Hreg Hb Ht. induction later as [|next rest IH]; intros now w Hreg Hb Ht.
  all: rewrite reminderTicks_cons, tick_jobOf.
  all: destruct (reminder_tick env io k now w i b (Hstore _ _) Hb) as [Hyes Hno].
  all: destruct (decide (t ≤ now + (window k).2)) as [Hin|Hout].
  1,3: destruct Hyes as [Hcalls Hset];
       [apply matches_reminderQuery; simpl; split; [done|]; split; [done|];
        exists t; split; [done|lia]
       |intros x _; by apply remindBooking_returns; [|apply reminderExtra_quiet]
       |];
       specialize (Hset (sendScheduledReminder_returns env _ _ _ He) (fun h => Hstore h _)).
  - by split.
  - destruct (reminderTicks_flag_set env io k (next :: rest)
                (exec (reminderJob env io k now) w) i _ Hset
                (applyUpdate_reminder_flag k b)) as [Hs Hr].
    by rewrite Hs, Hr, Hcalls.
  - simpl in Ht. lia.
  - destruct Hno as [Hcalls Hsame].
    { apply not_true_is_false. rewrite matches_reminderQuery. simpl.
      intros (_ & _ & t' & Ht' & Hwin). rewrite Hat in Ht'. injection Ht' as <-. lia. }
    destruct Hreg as [Hnext Hreg]. rewrite last_cons_default in Ht.
    destruct (IH next (exec (reminderJob env io k now) w) Hreg Hsame) as [Hc Hs]; [lia|].
    by rewrite Hc, Hs, Hcalls.
Qed.

(** A booking due in 25 minutes, the 15-minute job ticking every minute from
    time 0: the ticks up to minute 4 pass it by, the tick at minute 5 takes
    it, the tick at minute 6 passes it by again. *)
Lemma reminder_not_missed_witness :
  let w' := runSteps calmEnv None
              (reminderTicks Min15 [0; minutes 1; minutes 2; minutes 3; minutes 4;
                                    minutes 5; minutes 6])
              (mkWorld (<[6%N := acceptedAt (minutes 25)]> ∅) []) in
  calls (isReminder 6%N) (trace w') = 1%nat
  ∧ (min15 ∘ remindersSent <$> store w' !! 6%N) = Some true.
Proof.
  intros w'.
  destruct (reminder_not_missed calmEnv None Min15
              (mkWorld (<[6%N := acceptedAt (minutes 25)]> ∅) []) 6%N
              (acceptedAt (minutes 25)) (minutes 25) 0
              [minutes 1; minutes 2; minutes 3; minutes 4; minutes 5; minutes 6])
    as (_ & Hc & Hs).
  - apply calmEnv_errorsOnly.
  - intros h op. reflexivity.
  - vm_compute. repeat split; discriminate.
  - reflexivity.
  - reflexivity.
  - reflexivity.
  - reflexivity.
  - vm_compute. split; discriminate.
  - fold w' in Hc, Hs. rewrite Hc, Hs. split; reflexivity.
Defined.

(** ** Bookings the scheduler does not own *)

(** X21.  The scheduler only acts on scheduled and accepted bookings.  A
    booking in any other status (requested, on the way, in progress,
    completed, ...) goes through any sequence of ticks of the five jobs
    untouched, whatever fails: its document is unchanged, and it is not
    broadcast, its customer is not notified and no reminder is composed for
    it. *)
Theorem scheduler_leaves_other_statuses env io steps w i b :
  Forall isTick steps →
  store w !! i = Some b →
  status b ≠ "scheduled" → status b ≠ "accepted" →
  let w' := runSteps env io steps w in
  store w' !! i = Some b
  ∧ calls (isMatch i) (trace w') = calls (isMatch i) (trace w)
  ∧ calls (isNotify i) (trace w') = calls (isNotify i) (trace w)
  ∧ calls (isReminder i) (trace w') = calls (isReminder i) (trace w).
Proof.
  intros Hticks Hb Hs Ha w'. subst w'. revert w Hb.
  induction Hticks as [|st steps Hst _ IH]; intros w Hb; [done|].
  unfold runSteps. simpl. fold (runSteps env io steps (step env io st w)).
  destruct st as [j now|f]; [|done]. simpl.
  destruct (tick_unselected env io j now w i) as [Hsame Ht].
  - intros b' Hb'. rewrite Hb in Hb'. injection Hb' as <-.
    apply not_true_is_false. destruct j; simpl.
    + rewrite matches_activationQuery. simpl. by intros [? _].
    + rewrite matches_reminderQuery. simpl. by intros [? _].
    + rewrite matches_reminderQuery. simpl. by intros [? _].
    + rewrite matches_reminderQuery. simpl. by intros [? _].
    + rewrite matches_noShowQuery. simpl. by intros [? _].
  - unfold sameAt in Hsame. rewrite Hb in Hsame.
    destruct (IH _ Hsame) as (H1 & H2 & H3 & H4).
    apply calls_extends_notAbout in Ht as (Hm & Hn & Hr).
    rewrite H1, H2, H3, H4, Hm, Hn, Hr. done.
Qed.

(** Booking 1, once recovered, is requested: later ticks pass it by. *)
Lemma scheduler_leaves_other_statuses_witness :
  let handled := exec (handleNoShowSafety calmEnv None (minutes 31)) sampleWorld in
  let w' := runSteps calmEnv None
              [Tick Remind15min (minutes 32); Tick NoShow (minutes 33);
               Tick Activate (minutes 35)] handled in
  store w' !! 1%N = store handled !! 1%N
  ∧ calls (isMatch 1%N) (trace w') = 1%nat.
Proof.
  intros handled w'.
  destruct (scheduler_leaves_other_statuses calmEnv None
              [Tick Remind15min (minutes 32); Tick NoShow (minutes 33);
               Tick Activate (minutes 35)] handled 1%N
              (applyUpdate (noShowUpdate (minutes 31)) lateBooking))
    as (Hs & Hm & _).
  - by repeat constructor.
  - reflexivity.
  - discriminate.
  - discriminate.
  - unfold w'. rewrite Hs, Hm. split; reflexivity.
Defined.
